(** * NFL data application: the client-side data layer

    A shallow embedding of the JavaScript data layer of the application:

    - [dataUtils.calculateFantasyPoints]  (services/api.js)
    - [ApiCache], [getCacheKey], [apiRequest], [apiService.refreshData]
      (services/api.js)
    - the week-range aggregation of [AggregateDataTable.fetchData]
    - the warehouse store's commit, which lives in the Python backend.

    JavaScript numbers are kept behind the interface [JSNumber].  Two
    implementations are given: IEEE binary64 through the kernel's
    primitive floats, which is the arithmetic of the program, and [num],
    exact rationals together with NaN, the arithmetic that the program
    writes down, free of binary rounding and of overflow.  What is stated
    for every implementation holds of binary64; the facts that are proper
    to binary64 (where NaN can come from, the exact addition of whole
    numbers below 2^53) are proved from the specification of the
    primitive floats; statements over [num] say what the program computes
    up to rounding. *)

From Stdlib Require Import ZArith QArith Qcanon Qround Lia Lqa.
From Stdlib Require Import Floats.PrimFloat Uint63.
From Stdlib Require Floats.SpecFloat Floats.FloatOps Floats.FloatAxioms.
From Stdlib Require Import String Ascii DecimalString.
From stdpp Require Import base gmap strings list sorting.

Set Default Proof Using "Type".
Local Open Scope Z_scope.

(** ** JavaScript numbers *)

(** The operations on numbers that the program uses.  [num_lit q] is the
    number denoted by the decimal literal of value [q]. *)
Class JSNumber (N : Type) := {
  num_lit : Qc -> N;
  num_nan : N;
  num_add : N -> N -> N;
  num_mul : N -> N -> N;
  num_div : N -> N -> N;
  num_round : N -> N;            (* Math.round *)
  num_gt : N -> N -> bool;       (* x > y *)
  num_truthy : N -> bool;        (* ToBoolean: false on 0, -0 and NaN *)
  num_is_nan : N -> bool;
}.

(** The decimal constant [n/d]. *)
Definition dec (n : Z) (d : positive) : Qc := Q2Qc (n # d).

(** *** Exact numbers *)

(** A rational or NaN.  Infinities are not represented: the only divisions
    of the program are by the literal 10 and by a count checked to be
    positive, and a division by zero is given the value NaN. *)
Inductive num : Type :=
  | NaN
  | Fin (q : Qc).

#[global] Instance num_eq_dec : EqDecision num.
Proof. solve_decision. Defined.

Definition Qcfloor (q : Qc) : Z := Qfloor (this q).

(** Math.round: the integer nearest to [x], ties towards +infinity, that is
    floor(x + 1/2). *)
Definition Qcround (q : Qc) : Qc := Q2Qc (inject_Z (Qcfloor (q + dec 1 2)%Qc)).

Definition num_lift2 (f : Qc -> Qc -> Qc) (x y : num) : num :=
  match x, y with
  | Fin a, Fin b => Fin (f a b)
  | _, _ => NaN
  end.

Definition exact_div (x y : num) : num :=
  match x, y with
  | Fin a, Fin b => if decide (b = 0%Qc) then NaN else Fin (a / b)%Qc
  | _, _ => NaN
  end.

Definition exact_round (x : num) : num :=
  match x with
  | Fin a => Fin (Qcround a)
  | NaN => NaN
  end.

Definition exact_gt (x y : num) : bool :=
  match x, y with
  | Fin a, Fin b => bool_decide (b < a)%Qc
  | _, _ => false
  end.

Definition exact_truthy (x : num) : bool :=
  match x with
  | Fin a => negb (bool_decide (a = 0%Qc))
  | NaN => false
  end.

Definition exact_is_nan (x : num) : bool :=
  match x with
  | NaN => true
  | Fin _ => false
  end.

#[global] Instance exact_number : JSNumber num := {|
  num_lit := Fin;
  num_nan := NaN;
  num_add := num_lift2 Qcplus;
  num_mul := num_lift2 Qcmult;
  num_div := exact_div;
  num_round := exact_round;
  num_gt := exact_gt;
  num_truthy := exact_truthy;
  num_is_nan := exact_is_nan;
|}.

(** *** IEEE binary64 *)

Module Binary64.

Local Open Scope float_scope.

(** The double of the integer [z], for [z] below 2^63 in magnitude, the
    range of the machine integers through which the conversion goes; it
    is [z] itself below 2^53. *)
Definition of_Z (z : Z) : float :=
  match z with
  | Z0 => 0
  | Zpos p => PrimFloat.of_uint63 (Uint63.of_Z (Zpos p))
  | Zneg p => - PrimFloat.of_uint63 (Uint63.of_Z (Zpos p))
  end.

(** A decimal literal denotes the double nearest to its value; the
    correctly rounded quotient of two exactly representable integers is
    that double.  The literals of the program and of the examples have a
    numerator and a denominator far below 2^53. *)
Definition lit (q : Qc) : float := of_Z (Qnum (this q)) / of_Z (Zpos (Qden (this q))).

Definition two52 : float := 4503599627370496.

(** floor, for |x| < 2^52 (larger doubles are integers already). *)
Definition floor_small (x : float) : float :=
  let t := if 0 <=? x then (x + two52) - two52 else (x - two52) + two52 in
  if x <? t then t - 1 else t.

(** Math.round.  NaN, the infinities and doubles of magnitude at least
    2^52 are returned as they are; otherwise floor(x + 1/2) computed
    without rounding error, keeping the sign of a zero result. *)
Definition round (x : float) : float :=
  if PrimFloat.is_nan x then x
  else if two52 <=? PrimFloat.abs x then x
  else
    let f := floor_small x in
    let r := if 0.5 <=? x - f then f + 1 else f in
    if r =? 0 then (if PrimFloat.get_sign x then -0 else 0) else r.

Definition truthy (x : float) : bool :=
  negb (x =? 0) && negb (PrimFloat.is_nan x).

#[global] Instance binary64_number : JSNumber float := {|
  num_lit := lit;
  num_nan := PrimFloat.nan;
  num_add := PrimFloat.add;
  num_mul := PrimFloat.mul;
  num_div := PrimFloat.div;
  num_round := round;
  num_gt := fun x y => PrimFloat.ltb y x;
  num_truthy := truthy;
  num_is_nan := PrimFloat.is_nan;
|}.

End Binary64.

(** ** JavaScript values held by a numeric field *)

Section Values.

Context {N : Type} `{JSNumber N}.

(** A numeric field of a JSON record read through a property access: the
    property may be missing ([VUndefined]), null, a boolean or a number.
    Strings and objects in a numeric field are outside the model. *)
Inductive value : Type :=
  | VUndefined
  | VNull
  | VBool (b : bool)
  | VNum (x : N).

(** ToBoolean *)
Definition truthy (v : value) : bool :=
  match v with
  | VUndefined | VNull => false
  | VBool b => b
  | VNum x => num_truthy x
  end.

(** ToNumber *)
Definition to_number (v : value) : N :=
  match v with
  | VUndefined => num_nan
  | VNull => num_lit 0%Qc
  | VBool true => num_lit 1%Qc
  | VBool false => num_lit 0%Qc
  | VNum x => x
  end.

(** [v || 0] *)
Definition or_zero (v : value) : value :=
  if truthy v then v else VNum (num_lit 0%Qc).

(** [v > 0] *)
Definition gt_zero (v : value) : bool :=
  num_gt (to_number v) (num_lit 0%Qc).

End Values.

Arguments value N : clear implicits.

(** The number a field contributes: its value, and zero when the field is
    missing, null, false, zero or NaN. *)
Definition stat_value (v : value num) : Qc :=
  match to_number (or_zero v) with
  | Fin q => q
  | NaN => 0%Qc
  end.

(** The sum of a list of rationals. *)
Definition sumQc (l : list Qc) : Qc := foldr Qcplus 0%Qc l.

(** ** Fantasy scoring: [dataUtils.calculateFantasyPoints] *)

Module Scoring.

Section Generic.

Context {N : Type} `{JSNumber N}.

(** The stat fields of a player object that the scoring reads. *)
Record Player : Type := {
  passing_yards : value N;
  passing_tds : value N;
  interceptions : value N;
  rushing_yards : value N;
  rushing_tds : value N;
  receiving_yards : value N;
  receiving_tds : value N;
  receptions : value N;
  fumbles_lost : value N;
}.

(** [(v || 0) * c] *)
Definition term (v : value N) (c : N) : N :=
  num_mul (to_number (or_zero v)) c.

(** The default parameter [isPPR = true] applies when the argument is
    undefined. *)
Definition default_true (isPPR : value N) : value N :=
  match isPPR with
  | VUndefined => VBool true
  | v => v
  end.

Definition calculateFantasyPoints (player : Player) (isPPR : value N) : N :=
  let isPPR := default_true isPPR in
  let points := num_lit 0%Qc in
  (* Passing *)
  let points := num_add points (term (passing_yards player) (num_lit (dec 4 100))) in
  let points := num_add points (term (passing_tds player) (num_lit (dec 4 1))) in
  let points := num_add points (term (interceptions player) (num_lit (- 1)%Qc)) in
  (* Rushing *)
  let points := num_add points (term (rushing_yards player) (num_lit (dec 1 10))) in
  let points := num_add points (term (rushing_tds player) (num_lit (dec 6 1))) in
  (* Receiving *)
  let points := num_add points (term (receiving_yards player) (num_lit (dec 1 10))) in
  let points := num_add points (term (receiving_tds player) (num_lit (dec 6 1))) in
  let points :=
    num_add points
      (term (receptions player)
         (if truthy isPPR then num_lit 1%Qc else num_lit (dec 5 10))) in
  (* Fumbles *)
  let points := num_add points (term (fumbles_lost player) (num_lit (- 1)%Qc)) in
  num_div (num_round (num_mul points (num_lit (dec 10 1)))) (num_lit (dec 10 1)).

(** A missing or null field replaced by the number 0. *)
Definition zero_if_missing (v : value N) : value N :=
  match v with
  | VUndefined | VNull => VNum (num_lit 0%Qc)
  | v => v
  end.

Definition zero_missing (p : Player) : Player := {|
  passing_yards := zero_if_missing (passing_yards p);
  passing_tds := zero_if_missing (passing_tds p);
  interceptions := zero_if_missing (interceptions p);
  rushing_yards := zero_if_missing (rushing_yards p);
  rushing_tds := zero_if_missing (rushing_tds p);
  receiving_yards := zero_if_missing (receiving_yards p);
  receiving_tds := zero_if_missing (receiving_tds p);
  receptions := zero_if_missing (receptions p);
  fumbles_lost := zero_if_missing (fumbles_lost p);
|}.

(** A record given by nine numbers. *)
Definition player_of (py ptd int ry rtd rcy rctd rec fum : N) : Player := {|
  passing_yards := VNum py;
  passing_tds := VNum ptd;
  interceptions := VNum int;
  rushing_yards := VNum ry;
  rushing_tds := VNum rtd;
  receiving_yards := VNum rcy;
  receiving_tds := VNum rctd;
  receptions := VNum rec;
  fumbles_lost := VNum fum;
|}.

(** The record with no stat field at all. *)
Definition no_stats : Player := {|
  passing_yards := VUndefined;
  passing_tds := VUndefined;
  interceptions := VUndefined;
  rushing_yards := VUndefined;
  rushing_tds := VUndefined;
  receiving_yards := VUndefined;
  receiving_tds := VUndefined;
  receptions := VUndefined;
  fumbles_lost := VUndefined;
|}.

End Generic.

Arguments Player N : clear implicits.

(** *** The scoring rule as the specification words it *)

(** fantasy_points = 0.04*passing_yards + 4*passing_tds - 1*interceptions
    + 0.1*rushing_yards + 6*rushing_tds + 0.1*receiving_yards
    + 6*receiving_tds + ppr_value*receptions - 1*fumbles_lost *)
Definition spec_fantasy_points (ppr_value : Qc) (p : Player num) : Qc :=
  (dec 4 100 * stat_value (passing_yards p)
   + dec 4 1 * stat_value (passing_tds p)
   - 1 * stat_value (interceptions p)
   + dec 1 10 * stat_value (rushing_yards p)
   + dec 6 1 * stat_value (rushing_tds p)
   + dec 1 10 * stat_value (receiving_yards p)
   + dec 6 1 * stat_value (receiving_tds p)
   + ppr_value * stat_value (receptions p)
   - 1 * stat_value (fumbles_lost p))%Qc.

(** The multiplier the code applies to receptions. *)
Definition reception_multiplier (isPPR : value num) : Qc :=
  if truthy (default_true isPPR) then 1%Qc else dec 5 10.

(** Rounding to one decimal: Math.round(x * 10) / 10. *)
Definition round1 (x : Qc) : Qc := (Qcround (x * dec 10 1) / dec 10 1)%Qc.

(** Records used in the examples. *)
Definition qb_line (N : Type) `{JSNumber N} : Player N :=
  player_of (num_lit (dec 300 1)) (num_lit (dec 2 1)) (num_lit 1%Qc)
    (num_lit 0%Qc) (num_lit 0%Qc) (num_lit 0%Qc) (num_lit 0%Qc)
    (num_lit 0%Qc) (num_lit 0%Qc).

Definition one_passing_yard (N : Type) `{JSNumber N} : Player N :=
  player_of (num_lit 1%Qc) (num_lit 0%Qc) (num_lit 0%Qc)
    (num_lit 0%Qc) (num_lit 0%Qc) (num_lit 0%Qc) (num_lit 0%Qc)
    (num_lit 0%Qc) (num_lit 0%Qc).

Definition only_receptions {N : Type} `{JSNumber N} (r : N) : Player N :=
  player_of (num_lit 0%Qc) (num_lit 0%Qc) (num_lit 0%Qc)
    (num_lit 0%Qc) (num_lit 0%Qc) (num_lit 0%Qc) (num_lit 0%Qc)
    r (num_lit 0%Qc).

End Scoring.

(** ** The API service: cache keys, the response cache, requests *)

(** What the service takes from its environment: the type of response
    bodies with their truthiness, and the value of
    [parseInt(process.env.REACT_APP_CACHE_TTL)] ([None] when it is NaN). *)
Class Runtime := {
  Data : Type;
  data_truthy : Data -> bool;
  REACT_APP_CACHE_TTL : option Z;
}.

Module Api.

(** *** Strings and query parameters *)

(** Strings are sequences of 8-bit code units.  On ASCII text the order
    of code units used by [Array.prototype.sort] and the bytes that
    [URLSearchParams] serialises are those of the JavaScript string. *)

(** The default comparison of [sort]: code units, left to right, a proper
    prefix first. *)
Fixpoint str_leb (s t : string) : bool :=
  match s, t with
  | EmptyString, _ => true
  | String _ _, EmptyString => false
  | String a s', String b t' =>
      if (N_of_ascii a <? N_of_ascii b)%N then true
      else if (N_of_ascii b <? N_of_ascii a)%N then false
      else str_leb s' t'
  end.

Definition str_le (s t : string) : Prop := str_leb s t = true.

Fixpoint insert_sorted (k : string) (l : list string) : list string :=
  match l with
  | [] => [k]
  | x :: l' => if str_leb k x then k :: l else x :: insert_sorted k l'
  end.

(** [keys.sort()] *)
Definition sort (l : list string) : list string :=
  foldr insert_sorted [] l.

(** The value of a query parameter.  [PInt n] is the number of integer
    value [n]; the seasons, weeks, pages and limits that the callers pass
    are below 10^21 in magnitude, the range in which [ToString] prints an
    integer in decimal. *)
Inductive param : Type :=
  | PUndefined
  | PNull
  | PBool (b : bool)
  | PInt (n : Z)
  | PStr (s : string).

#[global] Instance param_eq_dec : EqDecision param.
Proof. solve_decision. Defined.

(** ToString, as [URLSearchParams] applies it to a value.  For integers of
    magnitude 10^21 and more, which JavaScript prints with an exponent,
    the decimal spelling given here is not the one of the program. *)
Definition ToString (v : param) : string :=
  match v with
  | PUndefined => "undefined"
  | PNull => "null"
  | PBool true => "true"
  | PBool false => "false"
  | PInt n => NilZero.string_of_int (Z.to_int n)
  | PStr s => s
  end.

(** An object with string keys: its own properties in the order of their
    creation, each key once. *)
Definition object : Type := list (string * param).

Definition is_digit (a : ascii) : bool :=
  (48 <=? N_of_ascii a)%N && (N_of_ascii a <=? 57)%N.

Fixpoint digits_value (acc : N) (s : string) : option N :=
  match s with
  | EmptyString => Some acc
  | String a s' =>
      if is_digit a then digits_value (10 * acc + (N_of_ascii a - 48))%N s'
      else None
  end.

(** An array index: the canonical decimal spelling of an integer from 0
    to 2^32 - 2. *)
Definition array_index (k : string) : option N :=
  match k with
  | EmptyString => None
  | String a rest =>
      if Ascii.eqb a "0" && negb (String.eqb rest "") then None
      else
        match digits_value 0 k with
        | Some n => if (n <=? 4294967294)%N then Some n else None
        | None => None
        end
  end.

Fixpoint insert_index (k : string * N) (l : list (string * N)) : list (string * N) :=
  match l with
  | [] => [k]
  | x :: l' => if (k.2 <=? x.2)%N then k :: l else x :: insert_index k l'
  end.

(** The keys among [l] that are array indices, in ascending numeric
    order. *)
Definition index_keys (l : list string) : list string :=
  (foldr insert_index []
     (omap (fun k => (fun n => (k, n)) <$> array_index k) l)).*1.

Definition is_index (k : string) : bool :=
  match array_index k with Some _ => true | None => false end.

(** [Object.keys(o)], also the order in which [URLSearchParams] reads a
    record: array indices in ascending order, then the other keys in the
    order of their creation. *)
Definition keys (o : object) : list string :=
  index_keys o.*1 ++ List.filter (fun k => negb (is_index k)) o.*1.

(** [o[key]] *)
Fixpoint obj_get (o : object) (key : string) : param :=
  match o with
  | [] => PUndefined
  | (k, v) :: o' => if String.eqb k key then v else obj_get o' key
  end.

(** The own property [key] of [o] given the value [v]: an existing
    property keeps its place, a new one comes last. *)
Fixpoint put (o : object) (key : string) (v : param) : object :=
  match o with
  | [] => [(key, v)]
  | (k, w) :: o' =>
      if String.eqb k key then (k, v) :: o' else (k, w) :: put o' key v
  end.

(** [o[key] = v], on an object that has no own property [__proto__].
    That name is an accessor of Object.prototype: the assignment runs its
    setter, which creates no own property (it ignores undefined, booleans,
    numbers and strings, and for null changes the prototype only).  Every
    other name defines or updates an own property. *)
Definition obj_set (o : object) (key : string) (v : param) : object :=
  if String.eqb key "__proto__" then o else put o key v.

Definition hex_digit (n : N) : ascii :=
  if (n <? 10)%N then ascii_of_N (48 + n) else ascii_of_N (55 + n).

(** The application/x-www-form-urlencoded serialisation of one byte. *)
Definition urlencode_byte (a : ascii) : string :=
  let n := N_of_ascii a in
  if (n =? 32)%N then "+"
  else if ((n =? 42) || (n =? 45) || (n =? 46) || (n =? 95)
           || ((48 <=? n) && (n <=? 57))
           || ((65 <=? n) && (n <=? 90))
           || ((97 <=? n) && (n <=? 122)))%N
  then String a EmptyString
  else String "%" (String (hex_digit (n / 16)) (String (hex_digit (n mod 16)) EmptyString)).

Fixpoint urlencode (s : string) : string :=
  match s with
  | EmptyString => EmptyString
  | String a s' => urlencode_byte a +:+ urlencode s'
  end.

Fixpoint join_amp (l : list string) : string :=
  match l with
  | [] => ""
  | [x] => x
  | x :: l' => x +:+ "&" +:+ join_amp l'
  end.

(** [new URLSearchParams(o).toString()] *)
Definition URLSearchParams_toString (o : object) : string :=
  join_amp
    (List.map (fun k => urlencode k +:+ "=" +:+ urlencode (ToString (obj_get o k)))
       (keys o)).

(** Generate cache key from URL and params. *)
Definition getCacheKey (url : string) (params : object) : string :=
  let sortedParams :=
    fold_left (fun result key => obj_set result key (obj_get params key))
      (sort (keys params)) [] in
  url +:+ "?" +:+ URLSearchParams_toString sortedParams.

End Api.

(** *** The response cache *)

Module ApiCache.

Section WithRuntime.

Context `{Runtime}.

(** [parseInt(process.env.REACT_APP_CACHE_TTL) || 300000]: 5 minutes
    unless the variable holds a nonzero integer. *)
Definition CACHE_TTL : Z :=
  match REACT_APP_CACHE_TTL with
  | Some n => if n =? 0 then 300000 else n
  | None => 300000
  end.

(** The two maps of the class: bodies and the time (milliseconds, as
    [Date.now()] returns it) at which each was stored. *)
Record t : Type := {
  cache : gmap string Data;
  timestamps : gmap string Z;
}.

(** [new ApiCache()] *)
Definition new : t := {| cache := ∅; timestamps := ∅ |}.

Definition evict (key : string) (c : t) : t :=
  {| cache := delete key (cache c); timestamps := delete key (timestamps c) |}.

(** [!timestamp || now - timestamp > CACHE_TTL] *)
Definition stale (timestamp : option Z) (now : Z) : bool :=
  match timestamp with
  | None => true
  | Some ts => (ts =? 0) || (CACHE_TTL <? now - ts)
  end.

(** [get(key)] at the time [now].  [None] is the null returned for a
    missing or expired entry (or the undefined of [Map.get]). *)
Definition get (key : string) (now : Z) (c : t) : option Data * t :=
  if stale (timestamps c !! key) now
  then (None, evict key c)
  else (cache c !! key, c).

(** [set(key, value)] at the time [now]. *)
Definition set (key : string) (value : Data) (now : Z) (c : t) : t :=
  {| cache := <[key := value]> (cache c);
     timestamps := <[key := now]> (timestamps c) |}.

(** [clear()] *)
Definition clear (c : t) : t := {| cache := ∅; timestamps := ∅ |}.

(** A use of the cache, and a sequence of uses. *)
Inductive op : Type :=
  | Get (key : string) (now : Z)
  | Set_ (key : string) (value : Data) (now : Z)
  | Clear.

Definition step (c : t) (o : op) : t :=
  match o with
  | Get key now => (get key now c).2
  | Set_ key value now => set key value now c
  | Clear => clear c
  end.

Definition run (ops : list op) (c : t) : t := fold_left step ops c.

Definition sets_key (key : string) (o : op) : bool :=
  match o with
  | Set_ k _ _ => bool_decide (k = key)
  | _ => false
  end.

(** The entry of [key], if there is one, was stored at [ts]. *)
Definition stored_at (key : string) (ts : Z) (c : t) : Prop :=
  timestamps c !! key = None \/ timestamps c !! key = Some ts.

(** No use of the cache in [ops] is a set of [key]. *)
Definition never_sets (key : string) (ops : list op) : Prop :=
  Forall (fun o => sets_key key o = false) ops.

End WithRuntime.

End ApiCache.

(** *** Requests *)

Module Service.

Import Api.

(** The error object of a rejected axios call: the status of the response
    when there was one, the error code, the message. *)
Record AxiosError : Type := {
  response_status : option Z;
  code : option string;
  message : string;
}.

(** What the code throws: an [Error] made by the response interceptor, or
    the axios error as it came. *)
Inductive Thrown : Type :=
  | NewError (msg : string)
  | Rethrown (e : AxiosError).

Section WithRuntime.

Context `{Runtime}.

Record Response : Type := {
  status : Z;
  data : Data;
}.

(** The outcome of [apiClient.get] or [apiClient.post] before the
    response interceptor runs. *)
Inductive Settled : Type :=
  | Fulfilled (r : Response)
  | Rejected (e : AxiosError).

(** The response interceptor: responses pass through; 404, 5xx and
    timeouts are replaced by a new [Error], other errors are rethrown. *)
Definition response_interceptor (s : Settled) : Thrown + Response :=
  match s with
  | Fulfilled r => inr r
  | Rejected e =>
      if bool_decide (response_status e = Some 404)
      then inl (NewError "Data not found")
      else if (match response_status e with
               | Some st => 500 <=? st
               | None => false
               end)
      then inl (NewError "Server error. Please try again later.")
      else if bool_decide (code e = Some "ECONNABORTED"%string)
      then inl (NewError "Request timeout. Please check your connection.")
      else inl (Rethrown e)
  end.

(** [apiRequest(url, params, { useCache })].  [now] is [Date.now()] when
    the cache is read, [later] when the response is stored, and [net]
    the outcome of the GET, which is made only when the cache does not
    answer.  The result is the returned body or the thrown error,
    with the cache afterwards; the flag says whether the GET was made. *)
Definition apiRequest (url : string) (params : object) (useCache : bool)
    (now later : Z) (net : Settled) (c : ApiCache.t)
    : (Thrown + Data) * ApiCache.t * bool :=
  let cacheKey := getCacheKey url params in
  let '(cachedData, c) :=
    if useCache then ApiCache.get cacheKey now c else (None, c) in
  let hit :=
    match cachedData with
    | Some d => if data_truthy d then Some d else None
    | None => None
    end in
  match hit with
  | Some d => (inr d, c, false)
  | None =>
      match response_interceptor net with
      | inr response =>
          (inr (data response),
           if useCache && (status response =? 200)
           then ApiCache.set cacheKey (data response) later c else c,
           true)
      | inl error => (inl error, c, true)
      end
  end.

(** [apiService.refreshData(seasons, includeCurrentExtras)]: [post] is
    the outcome of the POST to /data/refresh.  The cache is cleared
    after the awaited POST, so only when it did not throw. *)
Definition refreshData (post : Settled) (c : ApiCache.t)
    : (Thrown + Data) * ApiCache.t :=
  match response_interceptor post with
  | inr response => (inr (data response), ApiCache.clear c)
  | inl error => (inl error, c)
  end.

(** What a request that reaches the network returns or throws. *)
Definition network_answer (net : Settled) : Thrown + Data :=
  match response_interceptor net with
  | inr response => inr (data response)
  | inl error => inl error
  end.

(** What the response interceptor throws for a rejected call. *)
Definition thrown_for (e : AxiosError) : Thrown :=
  match response_interceptor (Rejected e) with
  | inl error => error
  | inr _ => Rethrown e
  end.

End WithRuntime.

End Service.

(** ** Week-range aggregation: [AggregateDataTable.fetchData] *)

Module Aggregate.

Section Generic.

Context {N : Type} `{JSNumber N}.

(** [Number(s)] on a string and the [ToString] of a template literal,
    as the host provides them. *)
Context (Number : string -> N) (NumberToString : N -> string).

(** One week of a player as /api/fantasy-analyzer sends it.  A group
    that is missing or null is [None]. *)
Record Misc : Type := { fpts : value N; snaps : value N (* misc.num *) }.
Record Passing : Type := {
  pass_yds : value N;
  pass_td : value N;
  pass_int : value N;
  pass_cmpAtt : option string;  (* [Some s] when the field is a string *)
}.
Record Rushing : Type := {
  rush_att : value N;
  rush_yds : value N;
  rush_td : value N;
}.
Record Receiving : Type := {
  rec_tgts : value N;
  rec_rec : value N;
  rec_yds : value N;
  rec_td : value N;
}.
Record Week : Type := {
  misc : option Misc;
  passing : option Passing;
  rushing : option Rushing;
  receiving : option Receiving;
}.

(** A player of the response; an entry of [weeks] may be null, and
    [weeks] itself may be missing. *)
Record Player : Type := {
  id : string;
  name : string;
  pos : string;
  team : string;
  weeks : option (list (option Week));
}.

(** [group?.field] *)
Definition opt {G : Type} (group : option G) (field : G -> value N) : value N :=
  match group with
  | Some g => field g
  | None => VUndefined
  end.

(** The stats of a week: [week.misc?.fpts], [week.misc?.num],
    [week.passing?.yds] and so on. *)
Definition week_fpts (w : Week) : value N := opt (misc w) fpts.
Definition week_snaps (w : Week) : value N := opt (misc w) snaps.
Definition week_pass_yds (w : Week) : value N := opt (passing w) pass_yds.
Definition week_pass_td (w : Week) : value N := opt (passing w) pass_td.
Definition week_int (w : Week) : value N := opt (passing w) pass_int.
Definition week_rush_att (w : Week) : value N := opt (rushing w) rush_att.
Definition week_rush_yds (w : Week) : value N := opt (rushing w) rush_yds.
Definition week_rush_td (w : Week) : value N := opt (rushing w) rush_td.
Definition week_tgts (w : Week) : value N := opt (receiving w) rec_tgts.
Definition week_rec (w : Week) : value N := opt (receiving w) rec_rec.
Definition week_rec_yds (w : Week) : value N := opt (receiving w) rec_yds.
Definition week_rec_td (w : Week) : value N := opt (receiving w) rec_td.

(** [player.weeks || []] *)
Definition player_weeks (player : Player) : list (option Week) :=
  default [] (weeks player).

(** [total += v || 0] *)
Definition plus (total : N) (v : value N) : N :=
  num_add total (to_number (or_zero v)).

(** The predicate of [weeks.filter]: the week is there and has positive
    fantasy points or positive rushing, receiving or passing yards. *)
Definition played (w : option Week) : bool :=
  match w with
  | None => false
  | Some w =>
      gt_zero (week_fpts w)
      || gt_zero (week_rush_yds w)
      || gt_zero (week_rec_yds w)
      || gt_zero (week_pass_yds w)
  end.

(** [s.split('-')] *)
Fixpoint split_dash (s : string) : list string :=
  match s with
  | EmptyString => [EmptyString]
  | String a s' =>
      if Ascii.eqb a "-" then EmptyString :: split_dash s'
      else
        match split_dash s' with
        | piece :: rest => String a piece :: rest
        | [] => [String a EmptyString]
        end
  end.

(** The running sums of [weeks.forEach]. *)
Record Totals : Type := {
  totalFpts : N; totalSnaps : N;
  totalPassYds : N; totalPassTd : N; totalInt : N; totalCmp : N; totalAtt : N;
  totalRushAtt : N; totalRushYds : N; totalRushTd : N;
  totalTgts : N; totalRec : N; totalRecYds : N; totalRecTd : N;
}.

Definition zero_totals : Totals :=
  let z := num_lit 0%Qc in
  {| totalFpts := z; totalSnaps := z;
     totalPassYds := z; totalPassTd := z; totalInt := z; totalCmp := z; totalAtt := z;
     totalRushAtt := z; totalRushYds := z; totalRushTd := z;
     totalTgts := z; totalRec := z; totalRecYds := z; totalRecTd := z |}.

(** [const [cmp, att] = cmpAtt.split('-').map(Number)], inside
    [if (week.passing?.cmpAtt && typeof week.passing.cmpAtt === 'string')]:
    [None] when [cmpAtt] is not a nonempty string, and then the week adds
    nothing to [totalCmp] and [totalAtt]. *)
Definition cmp_att (w : Week) : option (value N * value N) :=
  match passing w with
  | Some p =>
      match pass_cmpAtt p with
      | Some s =>
          if String.eqb s "" then None
          else
            Some
              match List.map Number (split_dash s) with
              | cmp :: att :: _ => (VNum cmp, VNum att)
              | [cmp] => (VNum cmp, VUndefined)
              | [] => (VUndefined, VUndefined)
              end
      | None => None
      end
  | None => None
  end.

(** The completions and the attempts of a week; undefined when the week
    has no [cmpAtt] to parse. *)
Definition week_cmp (w : Week) : value N :=
  match cmp_att w with Some ca => ca.1 | None => VUndefined end.
Definition week_att (w : Week) : value N :=
  match cmp_att w with Some ca => ca.2 | None => VUndefined end.

(** The body of [weeks.forEach]. *)
Definition add_week (t : Totals) (week : option Week) : Totals :=
  match week with
  | None => t
  | Some w =>
      {| totalFpts := plus (totalFpts t) (week_fpts w);
         totalSnaps := plus (totalSnaps t) (week_snaps w);
         totalPassYds := plus (totalPassYds t) (week_pass_yds w);
         totalPassTd := plus (totalPassTd t) (week_pass_td w);
         totalInt := plus (totalInt t) (week_int w);
         totalCmp :=
           match cmp_att w with
           | Some ca => plus (totalCmp t) ca.1
           | None => totalCmp t
           end;
         totalAtt :=
           match cmp_att w with
           | Some ca => plus (totalAtt t) ca.2
           | None => totalAtt t
           end;
         totalRushAtt := plus (totalRushAtt t) (week_rush_att w);
         totalRushYds := plus (totalRushYds t) (week_rush_yds w);
         totalRushTd := plus (totalRushTd t) (week_rush_td w);
         totalTgts := plus (totalTgts t) (week_tgts w);
         totalRec := plus (totalRec t) (week_rec w);
         totalRecYds := plus (totalRecYds t) (week_rec_yds w);
         totalRecTd := plus (totalRecTd t) (week_rec_td w) |}
  end.

Definition sum_weeks (ws : list (option Week)) : Totals :=
  fold_left add_week ws zero_totals.

(** [weeks.filter(...).length] *)
Definition games_played (ws : list (option Week)) : nat :=
  length (List.filter played ws).

(** A row of the aggregated table. *)
Record Row : Type := {
  row_id : string;
  row_name : string;
  row_pos : string;
  row_team : string;
  games : nat;
  avgFpts : N;
  row_totalFpts : N;
  avgSnaps : N;
  cmpAtt : string;
  passYds : N; passTd : N; int : N;
  rushAtt : N; rushYds : N; rushTd : N;
  tgts : N; rec : N; recYds : N; recTd : N;
}.

(** [gamesPlayed > 0 ? total / gamesPlayed : 0] *)
Definition average (total : N) (gamesPlayed : nat) : N :=
  if (0 <? gamesPlayed)%nat
  then num_div total (num_lit (Q2Qc (inject_Z (Z.of_nat gamesPlayed))))
  else num_lit 0%Qc.

(** The function mapped over the response. *)
Definition aggregate (player : Player) : Row :=
  let ws := player_weeks player in
  let gamesPlayed := games_played ws in
  let t := sum_weeks ws in
  {| row_id := id player;
     row_name := name player;
     row_pos := pos player;
     row_team := team player;
     games := gamesPlayed;
     avgFpts := average (totalFpts t) gamesPlayed;
     row_totalFpts := totalFpts t;
     avgSnaps := average (totalSnaps t) gamesPlayed;
     cmpAtt :=
       if num_gt (totalAtt t) (num_lit 0%Qc)
       then NumberToString (totalCmp t) +:+ "-" +:+ NumberToString (totalAtt t)
       else "-";
     passYds := totalPassYds t;
     passTd := totalPassTd t;
     int := totalInt t;
     rushAtt := totalRushAtt t;
     rushYds := totalRushYds t;
     rushTd := totalRushTd t;
     tgts := totalTgts t;
     rec := totalRec t;
     recYds := totalRecYds t;
     recTd := totalRecTd t |}.

(** [rawData.map(...)] *)
Definition aggregated (rawData : list Player) : list Row :=
  List.map aggregate rawData.

End Generic.

Arguments Week N : clear implicits.
Arguments Player N : clear implicits.
Arguments Totals N : clear implicits.
Arguments Row N : clear implicits.

(** *** The totals as the specification words them *)

(** What a week contributes to the total of a stat: the value of the field,
    and zero for a week that is missing. *)
Definition week_value (f : Week num -> value num) (w : option (Week num)) : Qc :=
  match w with
  | Some w => stat_value (f w)
  | None => 0%Qc
  end.

(** The sum of a stat over the weeks of the range. *)
Definition range_sum (f : Week num -> value num) (ws : list (option (Week num))) : Qc :=
  sumQc (List.map (week_value f) ws).

(** The running sums, each given by its stat. *)
Definition totals_of (Number : string -> num)
    (g : (Week num -> value num) -> Qc) : Totals num :=
  {| totalFpts := Fin (g week_fpts);
     totalSnaps := Fin (g week_snaps);
     totalPassYds := Fin (g week_pass_yds);
     totalPassTd := Fin (g week_pass_td);
     totalInt := Fin (g week_int);
     totalCmp := Fin (g (week_cmp Number));
     totalAtt := Fin (g (week_att Number));
     totalRushAtt := Fin (g week_rush_att);
     totalRushYds := Fin (g week_rush_yds);
     totalRushTd := Fin (g week_rush_td);
     totalTgts := Fin (g week_tgts);
     totalRec := Fin (g week_rec);
     totalRecYds := Fin (g week_rec_yds);
     totalRecTd := Fin (g week_rec_td) |}.

(** A field holds a positive number. *)
Definition positive_stat (v : value num) : Prop :=
  exists q : Qc, to_number v = Fin q /\ (0 < q)%Qc.


End Aggregate.

(** ** The warehouse store *)

Module Store.

(** Modelled from the spec: the warehouse store and its [commit] belong
    to the Python backend, which is not among the sources; only its
    contract is known (section 4.3 and the error taxonomy of section 7).
    The model follows those words: rows keyed by (player id, season,
    week); a commit of a (season, week) unit replaces the rows of that
    unit by the given ones, writing them one at a time inside a
    transaction; a write failure rolls the partial write back and raises
    [StoreError]. *)
Record WeeklyRecord : Type := {
  player_id : string;
  season : Z;
  week : Z;
  fantasy_points : Qc;
}.

Definition key : Type := string * Z * Z.

Definition key_of (r : WeeklyRecord) : key := (player_id r, season r, week r).

(** The weekly table. *)
Abbreviation table := (gmap key WeeklyRecord).

(** A refresh unit: a (season, week) pair. *)
Definition RefreshUnit : Type := Z * Z.

Definition in_unit (u : RefreshUnit) (k : key) : bool :=
  bool_decide (k.1.2 = u.1) && bool_decide (k.2 = u.2).

Inductive StoreError : Type := WriteFailed (u : RefreshUnit) (written : nat).

(** Modelled from the spec: the journal of a transaction, the binding
    each write replaced, most recent first. *)
Definition journal : Type := list (key * option WeeklyRecord).

(** Modelled from the spec: one write inside a transaction, a put
    ([Some r]) or a removal ([None]), journalled. *)
Definition write (k : key) (v : option WeeklyRecord) (s : table * journal)
    : table * journal :=
  (partial_alter (fun _ => v) k s.1, (k, s.1 !! k) :: s.2).

(** Modelled from the spec: rollback undoes the journalled writes, most
    recent first. *)
Definition rollback (j : journal) (t : table) : table :=
  fold_left (fun t e => partial_alter (fun _ => e.2) e.1 t) j t.

(** A state of a transaction from which rollback leads back to [t0]. *)
Definition undoes (t0 : table) (s : table * journal) : Prop :=
  rollback s.2 s.1 = t0.

(** Modelled from the spec: the keys the unit holds before the commit
    ("existing rows for that exact key are replaced, not appended"). *)
Definition unit_keys (u : RefreshUnit) (t : table) : list key :=
  List.filter (in_unit u) (map_to_list t).*1.

(** Modelled from the spec: the row writes of a commit.  [fail_after] is
    the simulated failure of the testable property: [Some n] makes the
    write after the first [n] rows fail. *)
Fixpoint write_rows (rows : list WeeklyRecord) (fail_after : option nat)
    (written : nat) (s : table * journal) : (nat + unit) * (table * journal) :=
  match rows with
  | [] => (inr tt, s)
  | r :: rows' =>
      if bool_decide (fail_after = Some written) then (inl written, s)
      else write_rows rows' fail_after (S written) (write (key_of r) (Some r) s)
  end.

(** Modelled from the spec: [commit(RefreshUnit, list[WeeklyRecord])]. *)
Definition commit (u : RefreshUnit) (rows : list WeeklyRecord)
    (fail_after : option nat) (t : table) : (StoreError + unit) * table :=
  let s := fold_left (fun s k => write k None s) (unit_keys u t) (t, []) in
  match write_rows rows fail_after 0 s with
  | (inr _, (t', _)) => (inr tt, t')
  | (inl n, (t', j)) => (inl (WriteFailed u n), rollback j t')
  end.

(** Modelled from the spec: [readWeekly], the rows of a unit. *)
Definition readWeekly (u : RefreshUnit) (t : table) : list WeeklyRecord :=
  List.filter (fun r => in_unit u (key_of r)) (map_to_list t).*2.

End Store.

(** A runtime for the examples: bodies are arrays of row names (an array
    is truthy, also when empty), and the TTL variable is not set. *)
Definition rows_runtime : Runtime := {|
  Data := list string;
  data_truthy := fun _ => true;
  REACT_APP_CACHE_TTL := None;
|}.

(** ** Data for the examples *)

Module Examples.

Import Store Api.

Definition row_a : WeeklyRecord :=
  {| player_id := "00-0033873"; season := 2025; week := 3; fantasy_points := dec 213 10 |}.

Definition row_b : WeeklyRecord :=
  {| player_id := "00-0036389"; season := 2025; week := 3; fantasy_points := dec 98 10 |}.

Definition row_a_old : WeeklyRecord :=
  {| player_id := "00-0033873"; season := 2025; week := 3; fantasy_points := dec 200 10 |}.

Definition row_week2 : WeeklyRecord :=
  {| player_id := "00-0033873"; season := 2025; week := 2; fantasy_points := dec 154 10 |}.

(** A table holding week 2 and an earlier load of week 3. *)
Definition table0 : table :=
  <[key_of row_week2 := row_week2]> (<[key_of row_a_old := row_a_old]> ∅).

(** The parameters of one query, created in two orders. *)
Definition params_a : object :=
  [("season", PInt 2024); ("week", PInt 3); ("position", PStr "QB");
   ("page", PInt 1); ("page_size", PInt 100)].

Definition params_b : object :=
  [("page_size", PInt 100); ("position", PStr "QB"); ("page", PInt 1);
   ("week", PInt 3); ("season", PInt 2024)].

(** Response bodies, and uses of the cache under other keys. *)
Definition seasons_body : Data (Runtime := rows_runtime) := ["2024"; "2025"].

Definition search_body : Data (Runtime := rows_runtime) := ["J. Example"].

Definition other_uses : list (ApiCache.op (H := rows_runtime)) :=
  [ApiCache.Get "/players/search?q=a" 2000;
   ApiCache.Set_ "/players/search?q=a" search_body 2100].

(** [Number] on strings of decimal digits; NaN for the other strings. *)
Definition decimal_Number {N : Type} `{JSNumber N} (s : string) : N :=
  match digits_value 0 s with
  | Some n => num_lit (Q2Qc (inject_Z (Z.of_N n)))
  | None => num_nan
  end.

(** [ToString] on exact integers. *)
Definition integer_ToString (x : num) : string :=
  match x with
  | Fin q => NilZero.string_of_int (Z.to_int (Qcfloor q))
  | NaN => "NaN"
  end.

(** A stand-in for [ToString] in examples that do not read cmpAtt. *)
Definition no_ToString {N : Type} (x : N) : string := "#".

Section Weeks.

Context {N : Type} `{JSNumber N}.

Definition n (z : Z) (d : positive) : value N := VNum (num_lit (dec z d)).

(** A week with rushing and receiving stats. *)
Definition week1 : Aggregate.Week N :=
  {| Aggregate.misc := Some {| Aggregate.fpts := n 185 10; Aggregate.snaps := n 41 1 |};
     Aggregate.passing := None;
     Aggregate.rushing :=
       Some {| Aggregate.rush_att := n 18 1; Aggregate.rush_yds := n 95 1;
               Aggregate.rush_td := n 1 1 |};
     Aggregate.receiving :=
       Some {| Aggregate.rec_tgts := n 4 1; Aggregate.rec_rec := n 3 1;
               Aggregate.rec_yds := n 30 1; Aggregate.rec_td := VNull |} |}.

(** A week on the roster without a snap: every stat zero or missing. *)
Definition week_idle : Aggregate.Week N :=
  {| Aggregate.misc := Some {| Aggregate.fpts := n 0 1; Aggregate.snaps := VUndefined |};
     Aggregate.passing := None;
     Aggregate.rushing :=
       Some {| Aggregate.rush_att := n 0 1; Aggregate.rush_yds := n 0 1;
               Aggregate.rush_td := n 0 1 |};
     Aggregate.receiving := None |}.

(** A week with a trick-play pass. *)
Definition week3 : Aggregate.Week N :=
  {| Aggregate.misc := Some {| Aggregate.fpts := n 75 10; Aggregate.snaps := n 35 1 |};
     Aggregate.passing :=
       Some {| Aggregate.pass_yds := n 20 1; Aggregate.pass_td := n 0 1;
               Aggregate.pass_int := n 0 1; Aggregate.pass_cmpAtt := Some "1-2"%string |};
     Aggregate.rushing :=
       Some {| Aggregate.rush_att := n 11 1; Aggregate.rush_yds := n 47 1;
               Aggregate.rush_td := VUndefined |};
     Aggregate.receiving := None |}.

Definition back : Aggregate.Player N :=
  {| Aggregate.id := "00-0036389"; Aggregate.name := "J. Example";
     Aggregate.pos := "RB"; Aggregate.team := "DET";
     Aggregate.weeks := Some [Some week1; None; Some week_idle; Some week3] |}.

Definition benched : Aggregate.Player N :=
  {| Aggregate.id := "00-0030000"; Aggregate.name := "B. Example";
     Aggregate.pos := "RB"; Aggregate.team := "DET";
     Aggregate.weeks := Some [Some week_idle; None] |}.

End Weeks.

End Examples.

(** ** Uses of the cache that leave a key alone *)

Module CacheFrame.

Import ApiCache.

Section WithRuntime.

Context `{Runtime}.

(** The use [o] reads or writes the entry of [key], or clears the cache. *)
Definition touches (key : string) (o : op) : bool :=
  match o with
  | Get k _ => bool_decide (k = key)
  | Set_ k _ _ => bool_decide (k = key)
  | Clear => true
  end.

(** No use in [ops] touches [key]. *)
Definition foreign (key : string) (ops : list op) : Prop :=
  Forall (fun o => touches key o = false) ops.

(** Both maps of the cache hold the same keys. *)
Definition consistent (c : t) : Prop :=
  forall key : string, is_Some (cache c !! key) <-> is_Some (timestamps c !! key).

(** Every entry of the cache was stored by a set recorded in [done], with
    the body and the time it has. *)
Definition recorded (done : list op) (c : t) : Prop :=
  forall key : string,
    match timestamps c !! key, cache c !! key with
    | None, None => True
    | Some ts, Some d => Set_ key d ts ∈ done
    | _, _ => False
    end.

End WithRuntime.

(** A runtime whose bodies are numbers (0 is falsy), and a cache holding
    the body 0. *)
Definition number_runtime : Runtime := {|
  Data := Z;
  data_truthy := fun n => negb (n =? 0);
  REACT_APP_CACHE_TTL := None;
|}.

Definition zero_cached : ApiCache.t (H := number_runtime) :=
  ApiCache.set (H := number_runtime) "/players/count?" (0 : Z) 1000
    (ApiCache.new (H := number_runtime)).

Definition seven : Data (Runtime := number_runtime) := 7.

Definition count_response : Service.Response (H := number_runtime) :=
  {| Service.status := 200; Service.data := seven |}.

(** A fulfilled response carrying the list of seasons. *)
Definition seasons_response : Service.Response (H := rows_runtime) :=
  {| Service.status := 200; Service.data := Examples.seasons_body |}.

End CacheFrame.

(** ** The methods of [apiService] *)

Module ApiService.

Import Api Service.

(** ToBoolean of a parameter value. *)
Definition param_truthy (v : param) : bool :=
  match v with
  | PUndefined | PNull => false
  | PBool b => b
  | PInt n => negb (n =? 0)
  | PStr s => negb (String.eqb s "")
  end.

(** [a || b] *)
Definition param_or (a b : param) : param :=
  if param_truthy a then a else b.

(** [delete o[key]] *)
Fixpoint obj_delete (o : object) (key : string) : object :=
  match o with
  | [] => []
  | (k, v) :: o' =>
      if String.eqb k key then o' else (k, v) :: obj_delete o' key
  end.

(** [v === undefined || v === 'all'] *)
Definition is_unset (v : param) : bool :=
  match v with
  | PUndefined => true
  | PStr s => String.eqb s "all"
  | _ => false
  end.

(** The loop "Remove undefined values":
    [Object.keys(params).forEach(key => { if (params[key] === undefined ||
    params[key] === 'all') delete params[key]; })] *)
Definition remove_unset (params : object) : object :=
  fold_left
    (fun params key =>
       if is_unset (obj_get params key) then obj_delete params key else params)
    (keys params) params.

(** The parameters [getWeeklyStats(filters)] sends. *)
Definition weekly_stats_params (filters : object) : object :=
  remove_unset
    [("season", param_or (obj_get filters "season") (PInt 2024));
     ("week", obj_get filters "week");
     ("position", obj_get filters "position");
     ("team", obj_get filters "team");
     ("player_name", obj_get filters "player_name");
     ("page", param_or (obj_get filters "page") (PInt 1));
     ("page_size", param_or (obj_get filters "page_size") (PInt 100))].

(** The parameters [getSeasonStats(filters)] sends. *)
Definition season_stats_params (filters : object) : object :=
  remove_unset
    [("season", param_or (obj_get filters "season") (PInt 2024));
     ("position", obj_get filters "position");
     ("team", obj_get filters "team");
     ("player_name", obj_get filters "player_name");
     ("page", param_or (obj_get filters "page") (PInt 1));
     ("page_size", param_or (obj_get filters "page_size") (PInt 100))].

(** The parameters [getTopPerformers(filters)] sends. *)
Definition top_performers_params (filters : object) : object :=
  remove_unset
    [("season", param_or (obj_get filters "season") (PInt 2024));
     ("position", obj_get filters "position");
     ("stat_type", param_or (obj_get filters "stat_type") (PStr "fantasy_points"));
     ("limit", param_or (obj_get filters "limit") (PInt 20));
     ("week", obj_get filters "week")].

(** The parameters [searchPlayers(query, season, limit = 20)] sends. *)
Definition search_players_params (query season limit : param) : object :=
  [("q", query); ("season", season);
   ("limit", match limit with PUndefined => PInt 20 | v => v end)].

(** [error.message] of what was thrown. *)
Definition thrown_message (e : Thrown) : string :=
  match e with
  | NewError msg => msg
  | Rethrown e => message e
  end.

Section WithRuntime.

Context `{Runtime}.

(** [getWeeklyStats(filters = {})] *)
Definition getWeeklyStats (filters : option object) (now later : Z)
    (net : Settled) (c : ApiCache.t) : (Thrown + Data) * ApiCache.t * bool :=
  apiRequest "/players/weekly-stats" (weekly_stats_params (default [] filters))
    true now later net c.

(** [getSeasonStats(filters = {})] *)
Definition getSeasonStats (filters : option object) (now later : Z)
    (net : Settled) (c : ApiCache.t) : (Thrown + Data) * ApiCache.t * bool :=
  apiRequest "/players/season-stats" (season_stats_params (default [] filters))
    true now later net c.

(** [getTopPerformers(filters = {})] *)
Definition getTopPerformers (filters : option object) (now later : Z)
    (net : Settled) (c : ApiCache.t) : (Thrown + Data) * ApiCache.t * bool :=
  apiRequest "/players/top-performers" (top_performers_params (default [] filters))
    true now later net c.

(** [searchPlayers(query, season, limit = 20)] *)
Definition searchPlayers (query season limit : param) (now later : Z)
    (net : Settled) (c : ApiCache.t) : (Thrown + Data) * ApiCache.t * bool :=
  apiRequest "/players/search" (search_players_params query season limit)
    true now later net c.

(** [getDataStatus()]: never cached. *)
Definition getDataStatus (now later : Z) (net : Settled) (c : ApiCache.t)
    : (Thrown + Data) * ApiCache.t * bool :=
  apiRequest "/data/status" [] false now later net c.

(** [getAvailableSeasons()] *)
Definition getAvailableSeasons (now later : Z) (net : Settled) (c : ApiCache.t)
    : (Thrown + Data) * ApiCache.t * bool :=
  apiRequest "/data/seasons" [] true now later net c.

(** [loadSeasonData(season, includeExtras)]: [post] is the outcome of the
    POST to /data/load-season/<season>. *)
Definition loadSeasonData (post : Settled) (c : ApiCache.t)
    : (Thrown + Data) * ApiCache.t :=
  match response_interceptor post with
  | inr response => (inr (data response), ApiCache.clear c)
  | inl error => (inl error, c)
  end.

(** [clearCache()]: [del] is the outcome of the DELETE of /data/cache. *)
Definition clearCache (del : Settled) (c : ApiCache.t)
    : (Thrown + Data) * ApiCache.t :=
  match response_interceptor del with
  | inr response => (inr (data response), ApiCache.clear c)
  | inl error => (inl error, c)
  end.

(** [clearLocalCache()] *)
Definition clearLocalCache (c : ApiCache.t) : ApiCache.t := ApiCache.clear c.

(** What [healthCheck] returns: the body of /health, or the object
    [{ status: 'unhealthy', error }]. *)
Inductive Health : Type :=
  | Body (d : Data)
  | Unhealthy (error : string).

(** [healthCheck()]: the try block returns the body, the catch block the
    unhealthy object; [net] is the outcome of the GET of /health. *)
Definition healthCheck (net : Settled) : Thrown + Health :=
  match response_interceptor net with
  | inr response => inr (Body (data response))
  | inl error => inr (Unhealthy (thrown_message error))
  end.

End WithRuntime.

End ApiService.

(** ** Reading a cache key back *)

(** The inverse of the serialisation in [getCacheKey], used to state that
    a cache key determines the query it was made from. *)
Module QueryString.

Import Api.

(** [s.includes(c)] for a single character. *)
Fixpoint has_char (c : ascii) (s : string) : bool :=
  match s with
  | EmptyString => false
  | String a s' => Ascii.eqb a c || has_char c s'
  end.

(** The parts of [s] before and after the first [c]. *)
Fixpoint cut (c : ascii) (s : string) : string * string :=
  match s with
  | EmptyString => (EmptyString, EmptyString)
  | String a s' =>
      if Ascii.eqb a c then (EmptyString, s')
      else let '(x, y) := cut c s' in (String a x, y)
  end.

(** The pieces of [s] between the occurrences of [c]. *)
Fixpoint split_on (c : ascii) (s : string) : list string :=
  match s with
  | EmptyString => [EmptyString]
  | String a s' =>
      if Ascii.eqb a c then EmptyString :: split_on c s'
      else
        match split_on c s' with
        | piece :: rest => String a piece :: rest
        | [] => [String a EmptyString]
        end
  end.

Definition hex_value (a : ascii) : option N :=
  let n := N_of_ascii a in
  if ((48 <=? n) && (n <=? 57))%N then Some (n - 48)%N
  else if ((65 <=? n) && (n <=? 70))%N then Some (n - 55)%N
  else None.

(** The application/x-www-form-urlencoded decoding of a string. *)
Fixpoint urldecode (s : string) : string :=
  match s with
  | EmptyString => EmptyString
  | String a s' =>
      if Ascii.eqb a "+" then String " " (urldecode s')
      else if Ascii.eqb a "%" then
        match s' with
        | String h (String l r) =>
            match hex_value h, hex_value l with
            | Some x, Some y => String (ascii_of_N (16 * x + y)) (urldecode r)
            | _, _ => String a (String h (String l (urldecode r)))
            end
        | _ => String a s'
        end
      else String a (urldecode s')
  end.

(** One serialised pair. *)
Definition pair_text (k v : string) : string :=
  urlencode k +:+ "=" +:+ urlencode v.

(** The name-value pairs of a query string. *)
Definition parse_query (q : string) : list (string * string) :=
  if String.eqb q "" then []
  else
    List.map (fun pair => let '(k, v) := cut "=" pair in (urldecode k, urldecode v))
      (split_on "&" q).

(** A property name that an assignment to a plain object defines. *)
Definition own_name (k : string) : bool := negb (String.eqb k "__proto__").

(** The bindings of [o] that [getCacheKey] copies into [sortedParams]. *)
Definition keyed (o : object) : object :=
  List.filter (fun kv => own_name kv.1) o.

(** The bindings of an object as [URLSearchParams] sees them: each value
    replaced by its string. *)
Definition stringified (o : object) : list (string * string) :=
  List.map (fun kv => (kv.1, ToString kv.2)) o.

End QueryString.

(** ** The aggregate table: sorting, favourites, colours *)

Module Table.

Import QueryString.

(** *** Comparisons of exact numbers *)

Definition exact_sub (x y : num) : num :=
  match x, y with
  | Fin a, Fin b => Fin (a - b)%Qc
  | _, _ => NaN
  end.

(** [x >= y] *)
Definition exact_ge (x y : num) : bool :=
  match x, y with
  | Fin a, Fin b => bool_decide (b <= a)%Qc
  | _, _ => false
  end.

(** [x <= y] *)
Definition exact_le (x y : num) : bool := exact_ge y x.

(** [x < y] *)
Definition exact_lt (x y : num) : bool := exact_gt y x.

(** [Math.min(x, y)] and [Math.max(x, y)] *)
Definition min2 (x y : num) : num :=
  match x, y with
  | Fin a, Fin b => if bool_decide (a <= b)%Qc then Fin a else Fin b
  | _, _ => NaN
  end.

Definition max2 (x y : num) : num :=
  match x, y with
  | Fin a, Fin b => if bool_decide (a <= b)%Qc then Fin b else Fin a
  | _, _ => NaN
  end.

(** [Math.min(...l)] and [Math.max(...l)] for a list that is not empty (on
    the empty list they are the infinities, which the code never reaches
    and [NaN] stands for here). *)
Definition list_min (l : list num) : num :=
  match l with
  | [] => NaN
  | x :: l' => fold_left min2 l' x
  end.

Definition list_max (l : list num) : num :=
  match l with
  | [] => NaN
  | x :: l' => fold_left max2 l' x
  end.

(** *** [getFptsBackgroundColor] *)

(** The predicate of [allValues.filter(v => v && v > 0)]. *)
Definition valid (v : value num) : bool := truthy v && gt_zero v.

(** [validValues], as the numbers [Math.min] and [Math.max] see. *)
Definition validValues (allValues : list (value num)) : list num :=
  List.map to_number (List.filter valid allValues).

Definition top_colour : string := "rgba(34, 197, 94, 0.25)".
Definition good_colour : string := "rgba(34, 197, 94, 0.15)".
Definition middle_colour : string := "rgba(234, 179, 8, 0.08)".
Definition low_colour : string := "rgba(239, 68, 68, 0.10)".
Definition bottom_colour : string := "rgba(239, 68, 68, 0.18)".

(** [allValues] is [None] when the argument is missing. *)
Definition getFptsBackgroundColor (v : value num)
    (allValues : option (list (value num))) : string :=
  match allValues with
  | None => ""
  | Some allValues =>
      if negb (truthy v) || exact_le (to_number v) (Fin 0%Qc)
         || bool_decide (allValues = [])
      then ""
      else
        match validValues allValues with
        | [] => ""
        | vals =>
            let min := list_min vals in
            let max := list_max vals in
            let range := exact_sub max min in
            if bool_decide (range = Fin 0%Qc) then good_colour
            else
              let position := exact_div (exact_sub (to_number v) min) range in
              if exact_ge position (Fin (dec 8 10)) then top_colour
              else if exact_ge position (Fin (dec 6 10)) then good_colour
              else if exact_ge position (Fin (dec 4 10)) then middle_colour
              else if exact_ge position (Fin (dec 2 10)) then low_colour
              else bottom_colour
        end
  end.

(** *** Sorting *)

(** The columns whose header calls [handleSort]. *)
Inductive column : Type :=
  | col_name | col_pos | col_team | col_games | col_avgFpts | col_totalFpts
  | col_avgSnaps | col_passYds | col_passTd | col_int | col_rushAtt
  | col_rushYds | col_rushTd | col_tgts | col_rec | col_recYds | col_recTd.

#[global] Instance column_eq_dec : EqDecision column.
Proof. solve_decision. Defined.

Inductive direction : Type := asc | desc.

#[global] Instance direction_eq_dec : EqDecision direction.
Proof. solve_decision. Defined.

Record sortConfig : Type := { key : column; dir : direction }.

(** The initial state: [{ key: 'avgFpts', direction: 'desc' }]. *)
Definition initial_sort : sortConfig := {| key := col_avgFpts; dir := desc |}.

(** [handleSort(key)], as the update of the state. *)
Definition handleSort (k : column) (prev : sortConfig) : sortConfig :=
  {| key := k;
     dir := if bool_decide (key prev = k) && bool_decide (dir prev = desc)
            then asc else desc |}.

(** The value of a row under a column: a string or a number. *)
Inductive cell : Type :=
  | CStr (s : string)
  | CNum (x : num).

(** [a[sortConfig.key]] *)
Definition row_cell (k : column) (r : Aggregate.Row num) : cell :=
  match k with
  | col_name => CStr (Aggregate.row_name r)
  | col_pos => CStr (Aggregate.row_pos r)
  | col_team => CStr (Aggregate.row_team r)
  | col_games => CNum (Fin (Q2Qc (inject_Z (Z.of_nat (Aggregate.games r)))))
  | col_avgFpts => CNum (Aggregate.avgFpts r)
  | col_totalFpts => CNum (Aggregate.row_totalFpts r)
  | col_avgSnaps => CNum (Aggregate.avgSnaps r)
  | col_passYds => CNum (Aggregate.passYds r)
  | col_passTd => CNum (Aggregate.passTd r)
  | col_int => CNum (Aggregate.int r)
  | col_rushAtt => CNum (Aggregate.rushAtt r)
  | col_rushYds => CNum (Aggregate.rushYds r)
  | col_rushTd => CNum (Aggregate.rushTd r)
  | col_tgts => CNum (Aggregate.tgts r)
  | col_rec => CNum (Aggregate.rec r)
  | col_recYds => CNum (Aggregate.recYds r)
  | col_recTd => CNum (Aggregate.recTd r)
  end.

(** [if (typeof v === 'string' && v.includes('-')) v = 0] *)
Definition dehyphen (v : cell) : cell :=
  match v with
  | CStr s => if has_char "-" s then CNum (Fin 0%Qc) else v
  | CNum _ => v
  end.

(** Strict order of strings by code units. *)
Definition str_ltb (s t : string) : bool := Api.str_leb s t && negb (String.eqb s t).

Section Comparator.

(** [Number(s)], as the host converts a string compared with a number. *)
Context (Number : string -> num).

Definition cell_number (v : cell) : num :=
  match v with
  | CStr s => Number s
  | CNum x => x
  end.

(** [a < b]: two strings are compared as strings, anything else as
    numbers. *)
Definition cell_lt (a b : cell) : bool :=
  match a, b with
  | CStr s, CStr t => str_ltb s t
  | _, _ => exact_lt (cell_number a) (cell_number b)
  end.

(** The comparison function given to [sort]. *)
Definition compare_rows (config : sortConfig) (a b : Aggregate.Row num) : Z :=
  let aVal := dehyphen (row_cell (key config) a) in
  let bVal := dehyphen (row_cell (key config) b) in
  if cell_lt aVal bVal then (if bool_decide (dir config = asc) then -1 else 1)
  else if cell_lt bVal aVal then (if bool_decide (dir config = asc) then 1 else -1)
  else 0.

End Comparator.

(** *** Favourites *)

(** [toggleFavorite(playerId)], as the update of the set. *)
Definition toggleFavorite (playerId : string) (prev : gset string) : gset string :=
  if bool_decide (playerId ∈ prev) then prev ∖ {[playerId]} else prev ∪ {[playerId]}.

End Table.

(** ** Display helpers of [dataUtils] *)

Module Display.

Import Table.

(** The rows of the [thresholds] object: excellent, good, average. *)
Definition thresholds : list (string * (Qc * Qc * Qc)) :=
  [("fantasy_points", (dec 25 1, dec 15 1, dec 8 1));
   ("snap_percentage", (dec 80 1, dec 60 1, dec 30 1));
   ("passing_yards", (dec 300 1, dec 250 1, dec 150 1));
   ("rushing_yards", (dec 120 1, dec 80 1, dec 40 1));
   ("receiving_yards", (dec 120 1, dec 80 1, dec 40 1));
   ("receptions", (dec 8 1, dec 6 1, dec 3 1))].

(** The property names every object literal inherits from
    [Object.prototype]. *)
Definition Object_prototype_names : list string :=
  ["constructor"; "__defineGetter__"; "__defineSetter__"; "hasOwnProperty";
   "__lookupGetter__"; "__lookupSetter__"; "isPrototypeOf";
   "propertyIsEnumerable"; "toString"; "valueOf"; "__proto__";
   "toLocaleString"].

(** What [thresholds[type]] finds: a row of the object, an inherited
    property (truthy, without excellent, good or average), or nothing. *)
Inductive found : Type :=
  | Own (excellent good average : Qc)
  | Inherited
  | Missing.

Fixpoint own_row (rows : list (string * (Qc * Qc * Qc))) (type : string)
    : option (Qc * Qc * Qc) :=
  match rows with
  | [] => None
  | (k, r) :: rows' => if String.eqb k type then Some r else own_row rows' type
  end.

Definition lookup_thresholds (type : string) : found :=
  match own_row thresholds type with
  | Some (e, g, a) => Own e g a
  | None =>
      if bool_decide (type ∈ Object_prototype_names) then Inherited else Missing
  end.

(** [value === 0] *)
Definition is_zero (v : value num) : bool :=
  match v with
  | VNum (Fin q) => bool_decide (q = 0%Qc)
  | _ => false
  end.

(** [getPerformanceColor(value, type)] *)
Definition getPerformanceColor (v : value num) (type : string) : string :=
  if negb (truthy v) || is_zero v then "text-gray-400"
  else
    match lookup_thresholds type with
    | Missing => "text-gray-700"
    | Inherited => "text-red-500"
    | Own excellent good average =>
        if exact_ge (to_number v) (Fin excellent) then "text-green-600 font-bold"
        else if exact_ge (to_number v) (Fin good) then "text-green-600 font-semibold"
        else if exact_ge (to_number v) (Fin average) then "text-yellow-600"
        else "text-red-500"
    end.

(** The classes from worst to best. *)
Definition grade (class : string) : nat :=
  if String.eqb class "text-green-600 font-bold" then 3
  else if String.eqb class "text-green-600 font-semibold" then 2
  else if String.eqb class "text-yellow-600" then 1
  else 0.

End Display.

(** ** More data for the examples *)

Module TableExamples.

(** The row of a player without weeks, under a given name. *)
Definition named (s : string) : Aggregate.Row num :=
  Aggregate.aggregate Examples.decimal_Number Examples.integer_ToString
    {| Aggregate.id := s; Aggregate.name := s; Aggregate.pos := "WR";
       Aggregate.team := "DET"; Aggregate.weeks := None |}.

(** The columns that hold numbers. *)
Definition is_numeric (k : Table.column) : bool :=
  match k with
  | Table.col_name | Table.col_pos | Table.col_team => false
  | _ => true
  end.

(** The other direction. *)
Definition flip (d : Table.direction) : Table.direction :=
  match d with
  | Table.asc => Table.desc
  | Table.desc => Table.asc
  end.

End TableExamples.

(** A number that is positive. *)
Definition positive_number (x : num) : Prop :=
  exists q : Qc, x = Fin q /\ (0 < q)%Qc.

(** ** Running sums *)

(** The program computes a sum by adding numbers, one after the other, to
    a variable that starts at 0.  In binary64 every addition rounds, so
    that the result depends on the order of the terms and need not be
    their exact sum.  The definitions below name these sums for every
    implementation of numbers. *)
Module Sums.

Section Generic.

Context {N : Type} `{JSNumber N}.

(** The number that [field || 0] is in arithmetic: the number of the
    field, and 0 for a field that is missing, null, false, zero or NaN. *)
Definition stat_number (v : value N) : N :=
  match v with
  | VNum x => if num_truthy x then x else num_lit 0%Qc
  | VBool true => num_lit 1%Qc
  | _ => num_lit 0%Qc
  end.

(** [0 + x1 + x2 + ... + xn], from left to right. *)
Definition running_sum (terms : list N) : N :=
  fold_left num_add terms (num_lit 0%Qc).

(** *** Scoring *)

(** The multiplier of the receptions: 1 when the flag is omitted or
    truthy, 0.5 otherwise. *)
Definition multiplier (isPPR : value N) : N :=
  match isPPR with
  | VUndefined => num_lit 1%Qc
  | v => if truthy v then num_lit 1%Qc else num_lit (dec 5 10)
  end.

(** The nine products of a stat and its coefficient, in the order in which
    the scoring adds them. *)
Definition products (player : Scoring.Player N) (isPPR : value N) : list N :=
  [ num_mul (stat_number (Scoring.passing_yards player)) (num_lit (dec 4 100));
    num_mul (stat_number (Scoring.passing_tds player)) (num_lit (dec 4 1));
    num_mul (stat_number (Scoring.interceptions player)) (num_lit (- 1)%Qc);
    num_mul (stat_number (Scoring.rushing_yards player)) (num_lit (dec 1 10));
    num_mul (stat_number (Scoring.rushing_tds player)) (num_lit (dec 6 1));
    num_mul (stat_number (Scoring.receiving_yards player)) (num_lit (dec 1 10));
    num_mul (stat_number (Scoring.receiving_tds player)) (num_lit (dec 6 1));
    num_mul (stat_number (Scoring.receptions player)) (multiplier isPPR);
    num_mul (stat_number (Scoring.fumbles_lost player)) (num_lit (- 1)%Qc) ].

(** [Math.round(x * 10) / 10] *)
Definition one_decimal (x : N) : N :=
  num_div (num_round (num_mul x (num_lit (dec 10 1)))) (num_lit (dec 10 1)).

(** *** Aggregation *)

(** What a week adds to a total: nothing when the week is absent or the
    stat is not read in it, and otherwise the number of the field. *)
Definition week_term (f : Aggregate.Week N -> option (value N))
    (w : option (Aggregate.Week N)) : option N :=
  match w with
  | Some w =>
      match f w with
      | Some v => Some (stat_number v)
      | None => None
      end
  | None => None
  end.

(** The numbers added to a total, in the order of the weeks. *)
Definition week_terms (f : Aggregate.Week N -> option (value N))
    (ws : list (option (Aggregate.Week N))) : list N :=
  omap (week_term f) ws.

Definition running_total (f : Aggregate.Week N -> option (value N))
    (ws : list (option (Aggregate.Week N))) : N :=
  running_sum (week_terms f ws).

(** The same sum continued from [total]. *)
Definition continued (f : Aggregate.Week N -> option (value N))
    (total : N) (ws : list (option (Aggregate.Week N))) : N :=
  fold_left num_add (week_terms f ws) total.

(** A stat that is read in every week that is there. *)
Definition stat (f : Aggregate.Week N -> value N)
    : Aggregate.Week N -> option (value N) :=
  fun w => Some (f w).

(** The completions and the attempts, read only in a week that has a
    [cmpAtt] string. *)
Definition completions (Number : string -> N) : Aggregate.Week N -> option (value N) :=
  fun w => fst <$> Aggregate.cmp_att Number w.
Definition attempts (Number : string -> N) : Aggregate.Week N -> option (value N) :=
  fun w => snd <$> Aggregate.cmp_att Number w.

End Generic.

End Sums.

(** ** Binary64 at the level of its specification *)

Module Ieee.

(** The specification-level float is an infinity. *)
Definition infinite (x : SpecFloat.spec_float) : bool :=
  match x with
  | SpecFloat.S754_infinity _ => true
  | _ => false
  end.

(** It is a finite nonzero number. *)
Definition regular (x : SpecFloat.spec_float) : bool :=
  match x with
  | SpecFloat.S754_finite _ _ _ => true
  | _ => false
  end.

(** It is a zero or a finite nonzero number. *)
Definition finite (x : SpecFloat.spec_float) : bool :=
  match x with
  | SpecFloat.S754_zero _ | SpecFloat.S754_finite _ _ _ => true
  | _ => false
  end.

(** The specification-level float of an integer. *)
Definition of_int (z : Z) : SpecFloat.spec_float :=
  SpecFloat.binary_normalize FloatOps.prec FloatOps.emax z 0 false.

(** The mantissa of 53 bits and the exponent of a positive integer below
    2^53. *)
Definition canon_m (p : positive) : positive :=
  Z.to_pos (Zpos p * 2 ^ (53 - Zpos (SpecFloat.digits2_pos p))).
Definition canon_e (p : positive) : Z := Zpos (SpecFloat.digits2_pos p) - 53.

(** A finite nonzero number with a mantissa of at most 53 bits and an
    exponent of at most 900: a constant whose product with a whole number
    below 2^53 stays far from the largest double. *)
Definition moderate (x : SpecFloat.spec_float) : bool :=
  match x with
  | SpecFloat.S754_finite _ m e =>
      (Zpos (SpecFloat.digits2_pos m) <=? 53) && (e <=? 900)
  | _ => false
  end.

(** The sum of a list of integers, and the sum of their magnitudes. *)
Definition total (zs : list Z) : Z := foldr Z.add 0 zs.
Definition magnitude (zs : list Z) : Z := foldr (fun z m => Z.abs z + m) 0 zs.

End Ieee.

(** ** Box scores: fields that hold whole numbers *)

Module WholeNumbers.

(** A numeric field that holds the whole number [a], or that is missing. *)
Definition field (o : option Z) : value float :=
  match o with
  | Some a => VNum (Binary64.of_Z a)
  | None => VUndefined
  end.

(** The whole number is below 2^53 in magnitude, the range in which
    binary64 holds every integer. *)
Definition within (o : option Z) : bool :=
  match o with
  | Some a => Z.abs a <? 2 ^ 53
  | None => true
  end.

(** The stat line of a box score. *)
Definition line (py ptd int ry rtd rcy rctd rec fum : option Z)
    : Scoring.Player float :=
  {| Scoring.passing_yards := field py;
     Scoring.passing_tds := field ptd;
     Scoring.interceptions := field int;
     Scoring.rushing_yards := field ry;
     Scoring.rushing_tds := field rtd;
     Scoring.receiving_yards := field rcy;
     Scoring.receiving_tds := field rctd;
     Scoring.receptions := field rec;
     Scoring.fumbles_lost := field fum |}.

End WholeNumbers.

(** ** Stat lines and weeks for the examples in binary64 *)

Module SumExamples.

(** Five passing yards and 83.5 rushing yards: the formula gives 8.55. *)
Definition tie_line (N : Type) `{JSNumber N} : Scoring.Player N :=
  Scoring.player_of (num_lit (dec 5 1)) (num_lit 0%Qc) (num_lit 0%Qc)
    (num_lit (dec 835 10)) (num_lit 0%Qc) (num_lit 0%Qc) (num_lit 0%Qc)
    (num_lit 0%Qc) (num_lit 0%Qc).

(** A record whose passing touchdowns are 1e308 and whose rushing
    touchdowns are -1e308 (the doubles of these literals, written in
    hexadecimal), the other fields missing. *)
Definition overflow_line : Scoring.Player float :=
  {| Scoring.passing_yards := VUndefined;
     Scoring.passing_tds := VNum 0x1.1ccf385ebc8ap+1023%float;
     Scoring.interceptions := VUndefined;
     Scoring.rushing_yards := VUndefined;
     Scoring.rushing_tds := VNum (-0x1.1ccf385ebc8ap+1023)%float;
     Scoring.receiving_yards := VUndefined;
     Scoring.receiving_tds := VUndefined;
     Scoring.receptions := VUndefined;
     Scoring.fumbles_lost := VUndefined |}.

Section Weeks.

Context {N : Type} `{JSNumber N}.

(** A week whose only stat is its fantasy points. *)
Definition fpts_week (q : Qc) : option (Aggregate.Week N) :=
  Some {| Aggregate.misc :=
            Some {| Aggregate.fpts := VNum (num_lit q); Aggregate.snaps := VUndefined |};
          Aggregate.passing := None;
          Aggregate.rushing := None;
          Aggregate.receiving := None |}.

Definition with_weeks (ws : list (option (Aggregate.Week N))) : Aggregate.Player N :=
  {| Aggregate.id := "00-0031234"; Aggregate.name := "T. Example";
     Aggregate.pos := "WR"; Aggregate.team := "GB";
     Aggregate.weeks := Some ws |}.

(** Weeks of 0.1, 0.2 and 0.3 fantasy points, and the same weeks listed
    backwards. *)
Definition tenths_up : Aggregate.Player N :=
  with_weeks [fpts_week (dec 1 10); fpts_week (dec 2 10); fpts_week (dec 3 10)].
Definition tenths_down : Aggregate.Player N :=
  with_weeks [fpts_week (dec 3 10); fpts_week (dec 2 10); fpts_week (dec 1 10)].

End Weeks.

End SumExamples.

(* ===================================================================== *)
(** * Properties *)
(* ===================================================================== *)

(** ** Rationals: canonical form, floor and rounding *)

Lemma this_plus (a b : Qc) : (this (a + b)%Qc == this a + this b)%Q.
Proof. apply Qred_correct. Qed.

Lemma this_mult (a b : Qc) : (this (a * b)%Qc == this a * this b)%Q.
Proof. apply Qred_correct. Qed.

Lemma this_Q2Qc (q : Q) : (this (Q2Qc q) == q)%Q.
Proof. apply Qred_correct. Qed.

Lemma Qc_eq_this (a b : Qc) : (this a == this b)%Q -> a = b.
Proof. apply Qc_is_canon. Qed.

Lemma dec_10_nonzero : dec 10 1 <> 0%Qc.
Proof. intros E. apply (f_equal this) in E. discriminate E. Qed.

(** Math.round moves a number by at most one half, upwards on a tie. *)
Lemma Qcround_bounds (x : Qc) :
  (this x - (1#2) < this (Qcround x) /\ this (Qcround x) <= this x + (1#2))%Q.
Proof.
  unfold Qcround, Qcfloor.
  pose proof (this_Q2Qc (inject_Z (Qfloor (this (x + dec 1 2)%Qc)))) as Hr.
  pose proof (Qfloor_le (this (x + dec 1 2)%Qc)) as Hle.
  pose proof (Qlt_floor (this (x + dec 1 2)%Qc)) as Hlt.
  rewrite inject_Z_plus in Hlt. change (inject_Z 1) with 1%Q in Hlt.
  pose proof (this_plus x (dec 1 2)) as Hp.
  pose proof (this_Q2Qc (1 # 2)) as Hh. fold (dec 1 2) in Hh.
  split; lra.
Qed.

(** Math.round leaves an integer as it is. *)
Lemma Qcround_inject_Z (z : Z) : Qcround (Q2Qc (inject_Z z)) = Q2Qc (inject_Z z).
Proof.
  apply Qc_is_canon.
  pose proof (Qcround_bounds (Q2Qc (inject_Z z))) as [Hlo Hhi].
  pose proof (this_Q2Qc (inject_Z z)) as Hz.
  unfold Qcround, Qcfloor in *.
  set (f := Qfloor _) in *.
  pose proof (this_Q2Qc (inject_Z f)) as Hf.
  assert (inject_Z f < inject_Z (z + 1))%Q as H1
    by (rewrite inject_Z_plus; change (inject_Z 1) with 1%Q; lra).
  assert (inject_Z (z + -1) < inject_Z f)%Q as H2
    by (rewrite inject_Z_plus; change (inject_Z (-1)) with (-1 # 1)%Q; lra).
  rewrite <- Zlt_Qlt in H1, H2.
  replace f with z by lia. reflexivity.
Qed.

(** On exact numbers [v || 0] is a number, never NaN. *)
Lemma to_number_or_zero (v : value num) :
  to_number (or_zero v) = Fin (stat_value v).
Proof.
  unfold stat_value, or_zero.
  destruct v as [| |[]|[|q]]; simpl; try reflexivity.
  destruct (bool_decide (q = 0%Qc)); reflexivity.
Qed.

(** ** Running sums, for every implementation of numbers *)

Module SumFacts.

Import Sums.

Section Generic.

Context {N : Type} `{JSNumber N}.

(** [v || 0], converted to a number, is the number of the field. *)
Lemma or_zero_number (v : value N) : to_number (or_zero v) = stat_number v.
Proof.
  destruct v as [| |[|]|x]; unfold or_zero; simpl; try reflexivity;
    destruct (num_truthy _); reflexivity.
Qed.

Lemma multiplier_flag (isPPR : value N) :
  (if truthy (Scoring.default_true isPPR) then num_lit 1%Qc else num_lit (dec 5 10))
  = multiplier isPPR.
Proof. destruct isPPR; reflexivity. Qed.

(** The score is the running sum of the nine products, rounded to one
    decimal by [Math.round(points * 10) / 10]. *)
Lemma score_is_running_sum (player : Scoring.Player N) (isPPR : value N) :
  Scoring.calculateFantasyPoints player isPPR
  = one_decimal (running_sum (products player isPPR)).
Proof.
  unfold Scoring.calculateFantasyPoints, Scoring.term, one_decimal, running_sum,
    products.
  rewrite multiplier_flag, !or_zero_number. reflexivity.
Qed.

Lemma running_sum_snoc (terms : list N) (x : N) :
  running_sum (terms ++ [x]) = num_add (running_sum terms) x.
Proof. unfold running_sum. rewrite fold_left_app. reflexivity. Qed.

Context (Number : string -> N) (NumberToString : N -> string).

Lemma continued_cons (f : Aggregate.Week N -> option (value N)) (total : N)
    (w : option (Aggregate.Week N)) (ws : list (option (Aggregate.Week N))) :
  continued f total (w :: ws)
  = continued f
      (match week_term f w with Some x => num_add total x | None => total end) ws.
Proof.
  unfold continued, week_terms. simpl.
  destruct (week_term f w); reflexivity.
Qed.

(** Every running sum of [weeks.forEach] is the running sum of its own
    stat. *)
Lemma fold_weeks (ws : list (option (Aggregate.Week N))) (t : Aggregate.Totals N) :
  fold_left (Aggregate.add_week Number) ws t
  = {| Aggregate.totalFpts :=
         continued (stat Aggregate.week_fpts) (Aggregate.totalFpts t) ws;
       Aggregate.totalSnaps :=
         continued (stat Aggregate.week_snaps) (Aggregate.totalSnaps t) ws;
       Aggregate.totalPassYds :=
         continued (stat Aggregate.week_pass_yds) (Aggregate.totalPassYds t) ws;
       Aggregate.totalPassTd :=
         continued (stat Aggregate.week_pass_td) (Aggregate.totalPassTd t) ws;
       Aggregate.totalInt :=
         continued (stat Aggregate.week_int) (Aggregate.totalInt t) ws;
       Aggregate.totalCmp :=
         continued (completions Number) (Aggregate.totalCmp t) ws;
       Aggregate.totalAtt :=
         continued (attempts Number) (Aggregate.totalAtt t) ws;
       Aggregate.totalRushAtt :=
         continued (stat Aggregate.week_rush_att) (Aggregate.totalRushAtt t) ws;
       Aggregate.totalRushYds :=
         continued (stat Aggregate.week_rush_yds) (Aggregate.totalRushYds t) ws;
       Aggregate.totalRushTd :=
         continued (stat Aggregate.week_rush_td) (Aggregate.totalRushTd t) ws;
       Aggregate.totalTgts :=
         continued (stat Aggregate.week_tgts) (Aggregate.totalTgts t) ws;
       Aggregate.totalRec :=
         continued (stat Aggregate.week_rec) (Aggregate.totalRec t) ws;
       Aggregate.totalRecYds :=
         continued (stat Aggregate.week_rec_yds) (Aggregate.totalRecYds t) ws;
       Aggregate.totalRecTd :=
         continued (stat Aggregate.week_rec_td) (Aggregate.totalRecTd t) ws |}.
Proof.
  revert t. induction ws as [|w ws IH]; intros t.
  - destruct t; reflexivity.
  - cbn [fold_left]. rewrite IH, !continued_cons.
    destruct w as [w|]; [|reflexivity].
    unfold week_term, stat, completions, attempts, Aggregate.add_week,
      Aggregate.plus; cbn [Aggregate.totalFpts Aggregate.totalSnaps
      Aggregate.totalPassYds Aggregate.totalPassTd Aggregate.totalInt
      Aggregate.totalCmp Aggregate.totalAtt Aggregate.totalRushAtt
      Aggregate.totalRushYds Aggregate.totalRushTd Aggregate.totalTgts
      Aggregate.totalRec Aggregate.totalRecYds Aggregate.totalRecTd].
    rewrite !or_zero_number.
    destruct (Aggregate.cmp_att Number w) as [[cmp att]|]; cbn [fmap option_fmap option_map fst snd];
      rewrite ?or_zero_number; reflexivity.
Qed.

Lemma week_terms_app (f : Aggregate.Week N -> option (value N))
    (ws1 ws2 : list (option (Aggregate.Week N))) :
  week_terms f (ws1 ++ ws2) = week_terms f ws1 ++ week_terms f ws2.
Proof. unfold week_terms. apply omap_app. Qed.

End Generic.

End SumFacts.

(** ** Binary64: NaN, whole numbers, overflow *)

Module Binary64Facts.

Import SpecFloat FloatOps FloatAxioms.

(** *** Where NaN can come from *)

Section Spec.

Variables prec emax : Z.

Lemma shr_1_nonneg (mrs : shr_record) : 0 <= shr_m mrs -> 0 <= shr_m (shr_1 mrs).
Proof.
  destruct mrs as [m r s]; simpl.
  destruct m as [|[p|p|]|p]; simpl; lia.
Qed.

Lemma iter_shr_1_nonneg (p : positive) (mrs : shr_record) :
  0 <= shr_m mrs -> 0 <= shr_m (SpecFloat.iter_pos shr_1 p mrs).
Proof.
  revert mrs. induction p as [p IH|p IH|]; intros mrs Hm; simpl.
  - apply IH, IH, shr_1_nonneg, Hm.
  - apply IH, IH, Hm.
  - apply shr_1_nonneg, Hm.
Qed.

Lemma shr_fexp_nonneg (m e : Z) (l : location) :
  0 <= m -> 0 <= shr_m (shr_fexp prec emax m e l).1.
Proof.
  intros Hm. unfold shr_fexp, shr.
  assert (0 <= shr_m (shr_record_of_loc m l)) as H0
    by (destruct l as [|[]]; exact Hm).
  destruct (_ - e) as [|p|p]; simpl; try exact H0.
  apply iter_shr_1_nonneg, H0.
Qed.

Lemma round_nearest_even_nonneg (m : Z) (l : location) :
  0 <= m -> 0 <= round_nearest_even m l.
Proof.
  intros Hm. destruct l as [|[]]; simpl; try lia.
  destruct (Z.even m); lia.
Qed.

(** Rounding a nonnegative mantissa gives a zero, a finite number or an
    infinity. *)
Lemma binary_round_aux_not_nan (s : bool) (m e : Z) (l : location) :
  0 <= m -> binary_round_aux prec emax s m e l <> S754_nan.
Proof.
  intros Hm. unfold binary_round_aux.
  pose proof (shr_fexp_nonneg m e l Hm) as H1.
  destruct (shr_fexp prec emax m e l) as [mrs' e']. simpl in H1.
  pose proof (shr_fexp_nonneg _ e' loc_Exact
                (round_nearest_even_nonneg _ (loc_of_shr_record mrs') H1)) as H2.
  destruct (shr_fexp prec emax _ e' loc_Exact) as [mrs'' e'']. simpl in H2.
  destruct (shr_m mrs'') as [|p|p]; [discriminate| |lia].
  destruct (_ <=? _); discriminate.
Qed.

Lemma binary_normalize_not_nan (m e : Z) (sz : bool) :
  binary_normalize prec emax m e sz <> S754_nan.
Proof.
  destruct m as [|p|p]; simpl; [discriminate| |];
    unfold binary_round; destruct (shl_align _ _ _) as [mz ez];
    apply binary_round_aux_not_nan; lia.
Qed.

(** A sum is NaN only if a term is, or if both terms are infinite. *)
Lemma SFadd_nan (x y : spec_float) :
  SFadd prec emax x y = S754_nan ->
  x = S754_nan \/ y = S754_nan
  \/ (Ieee.infinite x = true /\ Ieee.infinite y = true).
Proof.
  destruct x as [sx|sx| |sx mx ex], y as [sy|sy| |sy my ey]; simpl; auto;
    try discriminate.
  - destruct sx, sy; discriminate.
  - intros E. destruct (binary_normalize_not_nan _ _ _ E).
Qed.

Lemma SFsub_nan (x y : spec_float) :
  SFsub prec emax x y = S754_nan ->
  x = S754_nan \/ y = S754_nan
  \/ (Ieee.infinite x = true /\ Ieee.infinite y = true).
Proof.
  destruct x as [sx|sx| |sx mx ex], y as [sy|sy| |sy my ey]; simpl; auto;
    try discriminate.
  - destruct sx, sy; discriminate.
  - intros E. destruct (binary_normalize_not_nan _ _ _ E).
Qed.

(** A product with a finite nonzero factor is NaN only if the other factor
    is. *)
Lemma SFmul_regular_nan (x y : spec_float) :
  Ieee.regular y = true -> SFmul prec emax x y = S754_nan -> x = S754_nan.
Proof.
  destruct y as [sy|sy| |s m e]; try discriminate. intros _.
  destruct x as [sx|sx| |sx mx ex]; simpl; auto; try discriminate.
  intros E. apply binary_round_aux_not_nan in E; [destruct E|lia].
Qed.

(** So is a quotient by a finite nonzero divisor. *)
Lemma SFdiv_regular_nan (x y : spec_float) :
  Ieee.regular y = true -> SFdiv prec emax x y = S754_nan -> x = S754_nan.
Proof.
  destruct y as [sy|sy| |s m e]; try discriminate. intros _.
  destruct x as [sx|sx| |sx mx ex]; simpl; auto; try discriminate.
  unfold SFdiv_core_binary.
  set (m' := match _ with Z0 => _ | Zpos _ => _ | Zneg _ => _ end).
  assert (0 <= m') as Hm'.
  { subst m'. destruct (_ - _ - _) as [|p|p]; try lia. apply Z.shiftl_nonneg. lia. }
  pose proof (Z.div_eucl_eq m' (Z.pos m) ltac:(lia)) as Hq.
  pose proof (Z.mod_pos_bound m' (Z.pos m) ltac:(lia)) as Hr.
  unfold Z.modulo in Hr.
  destruct (Z.div_eucl m' (Z.pos m)) as [q r].
  intros E. apply (binary_round_aux_not_nan _ q _ _) in E; [destruct E|]. nia.
Qed.

End Spec.

(** *** Whole numbers below 2^53 are added exactly *)

(** The number [d] of binary digits of [p]: [2^(d-1) <= p < 2^d]. *)
Lemma digits_bounds (p : positive) :
  2 ^ (Zpos (digits2_pos p) - 1) <= Zpos p < 2 ^ Zpos (digits2_pos p).
Proof.
  induction p as [p IH|p IH|]; simpl digits2_pos; rewrite ?Pos2Z.inj_succ.
  - replace (Z.succ (Z.pos (digits2_pos p)) - 1)
      with (Z.succ (Z.pos (digits2_pos p) - 1)) by lia.
    rewrite !Z.pow_succ_r by lia. lia.
  - replace (Z.succ (Z.pos (digits2_pos p)) - 1)
      with (Z.succ (Z.pos (digits2_pos p) - 1)) by lia.
    rewrite !Z.pow_succ_r by lia. lia.
  - simpl. lia.
Qed.

Lemma digits_unique (p : positive) (d : Z) :
  2 ^ (d - 1) <= Zpos p < 2 ^ d -> Zpos (digits2_pos p) = d.
Proof.
  intros [Hlo Hhi]. pose proof (digits_bounds p) as [Hlo' Hhi'].
  set (d' := Zpos (digits2_pos p)) in *.
  assert (0 <= d) as Hd.
  { destruct (Z.lt_ge_cases d 0) as [Hneg|]; [|assumption].
    rewrite (Z.pow_neg_r 2 d Hneg) in Hhi. lia. }
  destruct (Z.lt_trichotomy d' d) as [Hlt|[Heq|Hgt]]; [|exact Heq|].
  - assert (2 ^ d' <= 2 ^ (d - 1)) by (apply Z.pow_le_mono_r; lia). lia.
  - assert (2 ^ d <= 2 ^ (d' - 1)) by (apply Z.pow_le_mono_r; lia). lia.
Qed.

Lemma digits_shift (p q : positive) (k : Z) :
  0 <= k -> Zpos q = Zpos p * 2 ^ k ->
  Zpos (digits2_pos q) = Zpos (digits2_pos p) + k.
Proof.
  intros Hk Hq. apply digits_unique. rewrite Hq.
  pose proof (digits_bounds p) as [Hlo Hhi].
  replace (Z.pos (digits2_pos p) + k - 1)
    with ((Z.pos (digits2_pos p) - 1) + k) by lia.
  rewrite !Z.pow_add_r by lia.
  assert (0 < 2 ^ k) by (apply Z.pow_pos_nonneg; lia). nia.
Qed.

Lemma iter_xO (p d : positive) : Zpos (Pos.iter xO p d) = Zpos p * 2 ^ Zpos d.
Proof.
  induction d as [|d IH] using Pos.peano_ind.
  - simpl. lia.
  - rewrite Pos.iter_succ, Pos2Z.inj_succ, Z.pow_succ_r by lia.
    rewrite Pos2Z.inj_xO, IH. lia.
Qed.

Lemma shl_align_fst (mx : positive) (ex ez : Z) :
  ez <= ex ->
  Zpos (shl_align mx ex ez).1 = Zpos mx * 2 ^ (ex - ez)
  /\ (shl_align mx ex ez).2 = ez.
Proof.
  intros Hle. unfold shl_align.
  destruct (ez - ex) as [|d|d] eqn:Hd; simpl; try lia.
  - replace (ex - ez) with 0 by lia. split; lia.
  - rewrite iter_xO. replace (ex - ez) with (Zpos d) by lia. split; reflexivity.
Qed.

Lemma shl_align_ge (mx : positive) (ex ez : Z) :
  ex <= ez -> shl_align mx ex ez = (mx, ex).
Proof.
  intros Hle. unfold shl_align.
  destruct (ez - ex) as [|d|d] eqn:Hd; try reflexivity. lia.
Qed.

(** The iteration of the specification is the iteration over [nat]. *)
Lemma iter_pos_nat {A : Type} (f : A -> A) (p : positive) (x : A) :
  SpecFloat.iter_pos f p x = Nat.iter (Pos.to_nat p) f x.
Proof.
  revert x. induction p as [p IH|p IH|]; intros x; simpl SpecFloat.iter_pos.
  - rewrite !IH, Pos2Nat.inj_xI.
    replace (S (2 * Pos.to_nat p)) with (Pos.to_nat p + S (Pos.to_nat p))%nat by lia.
    rewrite Nat.iter_add, Nat.iter_succ_r. reflexivity.
  - rewrite !IH, Pos2Nat.inj_xO.
    replace (2 * Pos.to_nat p)%nat with (Pos.to_nat p + Pos.to_nat p)%nat by lia.
    rewrite Nat.iter_add. reflexivity.
  - reflexivity.
Qed.

Lemma shr_1_even (m : Z) :
  0 <= m ->
  shr_1 {| shr_m := 2 * m; shr_r := false; shr_s := false |}
  = {| shr_m := m; shr_r := false; shr_s := false |}.
Proof. intros Hm. destruct m as [|p|p]; [reflexivity|reflexivity|lia]. Qed.

(** Shifting out [n] zero bits loses nothing. *)
Lemma iter_shr_exact (n : nat) (m : Z) :
  0 <= m ->
  Nat.iter n shr_1 {| shr_m := m * 2 ^ Z.of_nat n; shr_r := false; shr_s := false |}
  = {| shr_m := m; shr_r := false; shr_s := false |}.
Proof.
  intros Hm. revert m Hm. induction n as [|n IH]; intros m Hm.
  - simpl. f_equal. lia.
  - rewrite Nat.iter_succ_r, Nat2Z.inj_succ, Z.pow_succ_r by lia.
    replace (m * (2 * 2 ^ Z.of_nat n)) with (2 * (m * 2 ^ Z.of_nat n)) by lia.
    rewrite shr_1_even by (apply Z.mul_nonneg_nonneg; [lia|apply Z.pow_nonneg; lia]).
    apply IH, Hm.
Qed.

Section Round.

Variables prec emax : Z.

(** A mantissa that needs no shift is kept. *)
Lemma round_aux_canonical (s : bool) (m : positive) (e : Z) :
  fexp prec emax (Zpos (digits2_pos m) + e) = e ->
  e <= emax - prec ->
  binary_round_aux prec emax s (Zpos m) e loc_Exact = S754_finite s m e.
Proof.
  intros Hc He. unfold binary_round_aux, shr_fexp, shr. simpl Zdigits2.
  rewrite Hc, Z.sub_diag. simpl. simpl Zdigits2. rewrite Hc, Z.sub_diag. simpl.
  replace (e <=? emax - prec) with true by (symmetry; apply Z.leb_le, He).
  reflexivity.
Qed.

(** Rounding the number [p * 2^e] when it is the canonical [m0 * 2^e0]. *)
Lemma binary_round_exact (s : bool) (p m0 : positive) (e e0 : Z) :
  Zpos p * 2 ^ Z.max 0 (e - e0) = Zpos m0 * 2 ^ Z.max 0 (e0 - e) ->
  fexp prec emax (Zpos (digits2_pos m0) + e0) = e0 ->
  e0 <= emax - prec ->
  binary_round prec emax s p e = S754_finite s m0 e0.
Proof.
  intros Hval Hc He.
  assert (Zpos (digits2_pos p) + e = Zpos (digits2_pos m0) + e0) as Hd.
  { destruct (Z.le_ge_cases e e0) as [Hle|Hle].
    - rewrite (Z.max_l 0 (e - e0)) in Hval by lia.
      rewrite (Z.max_r 0 (e0 - e)) in Hval by lia.
      rewrite Z.pow_0_r, Z.mul_1_r in Hval.
      rewrite (digits_shift m0 p (e0 - e)) by (lia || exact Hval). lia.
    - rewrite (Z.max_r 0 (e - e0)) in Hval by lia.
      rewrite (Z.max_l 0 (e0 - e)) in Hval by lia.
      rewrite Z.pow_0_r, Z.mul_1_r in Hval.
      rewrite (digits_shift p m0 (e - e0)) by (lia || (symmetry; exact Hval)). lia. }
  unfold binary_round. rewrite Hd, Hc.
  destruct (Z.lt_ge_cases e0 e) as [Hlt|Hge].
  - destruct (shl_align_fst p e e0 ltac:(lia)) as [Hm Hez].
    destruct (shl_align p e e0) as [mz ez]. simpl in Hm, Hez. subst ez.
    rewrite (Z.max_r 0 (e - e0)) in Hval by lia.
    rewrite (Z.max_l 0 (e0 - e)) in Hval by lia.
    rewrite Z.pow_0_r, Z.mul_1_r in Hval.
    assert (mz = m0) as -> by lia.
    apply round_aux_canonical; assumption.
  - rewrite shl_align_ge by exact Hge.
    rewrite (Z.max_l 0 (e - e0)) in Hval by lia.
    rewrite (Z.max_r 0 (e0 - e)) in Hval by lia.
    rewrite Z.pow_0_r, Z.mul_1_r in Hval.
    destruct (Z.eq_dec e0 e) as [->|Hne].
    + rewrite Z.sub_diag, Z.pow_0_r, Z.mul_1_r in Hval.
      assert (p = m0) as -> by lia.
      apply round_aux_canonical; assumption.
    + unfold binary_round_aux, shr_fexp, shr. simpl Zdigits2. rewrite Hd, Hc.
      destruct (e0 - e) as [|n|n] eqn:Hn; try lia.
      cbn [shr_record_of_loc]. rewrite iter_pos_nat, Hval.
      rewrite <- (positive_nat_Z n), iter_shr_exact by lia.
      cbn [loc_of_shr_record shr_m round_nearest_even]. simpl Zdigits2.
      replace (e + Z.of_nat (Pos.to_nat n)) with e0 by lia.
      rewrite Hc, Z.sub_diag. cbn [shr_m].
      replace (e0 <=? emax - prec) with true by (symmetry; apply Z.leb_le, He).
      reflexivity.
Qed.

End Round.

Lemma digits_small (p : positive) : Zpos p < 2 ^ 53 -> Zpos (digits2_pos p) <= 53.
Proof.
  intros Hp. pose proof (digits_bounds p) as [Hlo _].
  destruct (Z.le_gt_cases (Zpos (digits2_pos p)) 53) as [|Hgt]; [assumption|].
  assert (2 ^ 53 <= 2 ^ (Zpos (digits2_pos p) - 1)) by (apply Z.pow_le_mono_r; lia).
  lia.
Qed.

Lemma canon_m_spec (p : positive) :
  Zpos p < 2 ^ 53 ->
  Zpos (Ieee.canon_m p) = Zpos p * 2 ^ (53 - Zpos (digits2_pos p)).
Proof.
  intros Hp. pose proof (digits_small p Hp). unfold Ieee.canon_m.
  rewrite Z2Pos.id; [reflexivity|].
  apply Z.mul_pos_pos; [lia|apply Z.pow_pos_nonneg; lia].
Qed.

Lemma canon_canonical (p : positive) :
  Zpos p < 2 ^ 53 ->
  fexp prec emax (Zpos (digits2_pos (Ieee.canon_m p)) + Ieee.canon_e p)
  = Ieee.canon_e p
  /\ Ieee.canon_e p <= emax - prec.
Proof.
  intros Hp. pose proof (digits_small p Hp) as Hd.
  rewrite (digits_shift p (Ieee.canon_m p) (53 - Zpos (digits2_pos p)))
    by (lia || apply canon_m_spec, Hp).
  unfold Ieee.canon_e, fexp, SpecFloat.emin, prec, emax. lia.
Qed.

(** Rounding [q * 2^(-e)] with the exponent [e <= 0] gives the number [q]
    in canonical form. *)
Lemma round_to_canon (s : bool) (p q : positive) (e : Z) :
  e <= 0 -> Zpos p = Zpos q * 2 ^ (- e) -> Zpos q < 2 ^ 53 ->
  binary_round prec emax s p e = S754_finite s (Ieee.canon_m q) (Ieee.canon_e q).
Proof.
  intros He Hp Hq. pose proof (digits_small q Hq) as Hd.
  destruct (canon_canonical q Hq) as [Hc Hmax].
  apply binary_round_exact; try assumption.
  rewrite Hp, (canon_m_spec q Hq). unfold Ieee.canon_e.
  rewrite <- !Z.mul_assoc, <- !Z.pow_add_r by lia.
  f_equal. f_equal. lia.
Qed.

Lemma of_int_pos (p : positive) :
  Zpos p < 2 ^ 53 ->
  Ieee.of_int (Zpos p) = S754_finite false (Ieee.canon_m p) (Ieee.canon_e p).
Proof.
  intros Hp. unfold Ieee.of_int, binary_normalize.
  apply round_to_canon; [lia|simpl; lia|exact Hp].
Qed.

Lemma of_int_neg (p : positive) :
  Zpos p < 2 ^ 53 ->
  Ieee.of_int (Zneg p) = S754_finite true (Ieee.canon_m p) (Ieee.canon_e p).
Proof.
  intros Hp. unfold Ieee.of_int, binary_normalize.
  apply round_to_canon; [lia|simpl; lia|exact Hp].
Qed.

Lemma of_int_signed (s : bool) (p : positive) :
  Zpos p < 2 ^ 53 ->
  Ieee.of_int (cond_Zopp s (Zpos p))
  = S754_finite s (Ieee.canon_m p) (Ieee.canon_e p).
Proof. destruct s; [apply of_int_neg|apply of_int_pos]. Qed.

(** Normalising [z * 2^(-e)] with the exponent [e] gives the float of the
    integer [z]. *)
Lemma normalize_to_int (m e z : Z) :
  e <= 0 -> m = z * 2 ^ (- e) -> Z.abs z < 2 ^ 53 ->
  binary_normalize prec emax m e false = Ieee.of_int z.
Proof.
  intros He Hm Hz.
  assert (0 < 2 ^ (- e)) as Hpow by (apply Z.pow_pos_nonneg; lia).
  destruct z as [|q|q].
  - subst m. reflexivity.
  - rewrite of_int_pos by lia.
    destruct m as [|p|p]; try nia.
    apply round_to_canon; [exact He|exact Hm|lia].
  - rewrite of_int_neg by lia.
    destruct m as [|p|p]; try nia.
    apply round_to_canon; [exact He| |lia].
    assert (Z.neg p = - Zpos p) as Hn by reflexivity.
    assert (Z.neg q = - Zpos q) as Hq by reflexivity. nia.
Qed.

(** The sum of two integers that, like their sum, are below 2^53 in
    magnitude is computed exactly. *)
Lemma SFadd_int (a b : Z) :
  Z.abs a < 2 ^ 53 -> Z.abs b < 2 ^ 53 -> Z.abs (a + b) < 2 ^ 53 ->
  SFadd prec emax (Ieee.of_int a) (Ieee.of_int b) = Ieee.of_int (a + b).
Proof.
  intros Ha Hb Hab.
  assert (forall z : Z, z <> 0 -> exists (s : bool) (p : positive),
            z = cond_Zopp s (Zpos p)) as Hsign.
  { intros [|p|p] Hz; [done|exists false, p|exists true, p]; reflexivity. }
  destruct (Z.eq_dec a 0) as [->|Ha0].
  { rewrite Z.add_0_l. destruct b as [|q|q]; [reflexivity| |].
    - rewrite of_int_pos by lia. reflexivity.
    - rewrite of_int_neg by lia. reflexivity. }
  destruct (Z.eq_dec b 0) as [->|Hb0].
  { rewrite Z.add_0_r. destruct a as [|q|q]; [reflexivity| |].
    - rewrite of_int_pos by lia. reflexivity.
    - rewrite of_int_neg by lia. reflexivity. }
  destruct (Hsign a Ha0) as (sa & pa & ->).
  destruct (Hsign b Hb0) as (sb & pb & ->).
  assert (Zpos pa < 2 ^ 53) as Hpa by (destruct sa; simpl in Ha; lia).
  assert (Zpos pb < 2 ^ 53) as Hpb by (destruct sb; simpl in Hb; lia).
  rewrite !of_int_signed by assumption.
  cbn [SFadd].
  set (ez := Z.min (Ieee.canon_e pa) (Ieee.canon_e pb)).
  pose proof (digits_small pa Hpa) as Hda.
  pose proof (digits_small pb Hpb) as Hdb.
  destruct (shl_align_fst (Ieee.canon_m pa) (Ieee.canon_e pa) ez ltac:(lia))
    as [Hma _].
  destruct (shl_align_fst (Ieee.canon_m pb) (Ieee.canon_e pb) ez ltac:(lia))
    as [Hmb _].
  assert (ez <= 0) as Hez by (unfold ez, Ieee.canon_e; lia).
  apply normalize_to_int; [exact Hez| |exact Hab].
  assert (forall (s : bool) (x y : Z),
            cond_Zopp s x * y = cond_Zopp s (x * y)) as Hopp
    by (intros [] x y; simpl; lia).
  rewrite Z.mul_add_distr_r, !Hopp. f_equal; f_equal.
  - rewrite Hma, (canon_m_spec pa Hpa).
    rewrite <- Z.mul_assoc, <- Z.pow_add_r by (unfold Ieee.canon_e in *; lia).
    f_equal. f_equal. unfold Ieee.canon_e. lia.
  - rewrite Hmb, (canon_m_spec pb Hpb).
    rewrite <- Z.mul_assoc, <- Z.pow_add_r by (unfold Ieee.canon_e in *; lia).
    f_equal. f_equal. unfold Ieee.canon_e. lia.
Qed.

(** The double of a whole number below 2^53 is that number. *)
Lemma of_Z_spec (a : Z) :
  Z.abs a < 2 ^ 53 -> Prim2SF (Binary64.of_Z a) = Ieee.of_int a.
Proof.
  intros Ha.
  assert (forall p : positive, Zpos p < 2 ^ 53 ->
            Prim2SF (of_uint63 (Uint63.of_Z (Zpos p))) = Ieee.of_int (Zpos p)) as Hpos.
  { intros p Hp. rewrite of_uint63_spec, Uint63.of_Z_spec.
    rewrite Z.mod_small; [reflexivity|]. split; [lia|].
    assert (2 ^ 53 < wB) by reflexivity. lia. }
  destruct a as [|p|p]; unfold Binary64.of_Z.
  - reflexivity.
  - apply Hpos. lia.
  - rewrite opp_spec, Hpos by lia.
    rewrite of_int_pos, of_int_neg by lia. reflexivity.
Qed.

(** Binary64 adds two whole numbers exactly when they and their sum are
    below 2^53 in magnitude. *)
Lemma add_whole (a b : Z) :
  Z.abs a < 2 ^ 53 -> Z.abs b < 2 ^ 53 -> Z.abs (a + b) < 2 ^ 53 ->
  (Binary64.of_Z a + Binary64.of_Z b)%float = Binary64.of_Z (a + b).
Proof.
  intros Ha Hb Hab. apply Prim2SF_inj.
  rewrite add_spec, !of_Z_spec by assumption.
  apply SFadd_int; assumption.
Qed.

(** *** Products that do not overflow *)

Lemma Zdigits2_nonneg (m : Z) : 0 <= Zdigits2 m.
Proof. destruct m; simpl; lia. Qed.

(** The number of binary digits of a nonnegative integer bounds it. *)
Lemma Zdigits2_bound (m : Z) : 0 <= m -> m < 2 ^ Zdigits2 m.
Proof.
  intros Hm. destruct m as [|p|p]; [reflexivity| |lia].
  apply digits_bounds.
Qed.

Lemma Zdigits2_le (m d : Z) : 0 <= m -> 0 <= d -> m < 2 ^ d -> Zdigits2 m <= d.
Proof.
  intros Hm Hd Hlt. destruct m as [|p|p]; [exact Hd| |lia].
  simpl. pose proof (digits_bounds p) as [Hlo _].
  destruct (Z.le_gt_cases (Zpos (digits2_pos p)) d) as [|Hgt]; [assumption|].
  assert (2 ^ d <= 2 ^ (Zpos (digits2_pos p) - 1)) by (apply Z.pow_le_mono_r; lia).
  lia.
Qed.

Lemma shr_1_m (mrs : shr_record) :
  0 <= shr_m mrs -> shr_m (shr_1 mrs) = shr_m mrs / 2.
Proof.
  destruct mrs as [m r s]; cbn [shr_m]. intros Hm.
  destruct m as [|[p|p|]|p]; cbn [shr_1 shr_m]; try lia; try reflexivity.
  - apply (Z.div_unique (Zpos p~1) 2 (Zpos p) 1); lia.
  - apply (Z.div_unique (Zpos p~0) 2 (Zpos p) 0); lia.
Qed.

Lemma iter_shr_m (n : nat) (mrs : shr_record) :
  0 <= shr_m mrs ->
  0 <= shr_m (Nat.iter n shr_1 mrs)
  /\ shr_m (Nat.iter n shr_1 mrs) * 2 ^ Z.of_nat n <= shr_m mrs.
Proof.
  intros Hm. induction n as [|n [IH0 IH]].
  - simpl. lia.
  - rewrite Nat.iter_succ, shr_1_m by exact IH0.
    rewrite Nat2Z.inj_succ, Z.pow_succ_r by lia.
    pose proof (Z.div_pos (shr_m (Nat.iter n shr_1 mrs)) 2 IH0 ltac:(lia)).
    pose proof (Z.mul_div_le (shr_m (Nat.iter n shr_1 mrs)) 2 ltac:(lia)).
    assert (0 <= 2 ^ Z.of_nat n) by (apply Z.pow_nonneg; lia).
    split; [assumption|]. nia.
Qed.

Section Finite.

Variables prec emax : Z.

(** After a shift to the exponent of its format, a nonnegative mantissa
    [m] with exponent [e] keeps its magnitude: digits plus exponent do not
    grow, and the exponent stays within the format when the magnitude
    does. *)
Lemma shr_fexp_bounds (m e : Z) (l : location) :
  0 <= m ->
  0 <= shr_m (shr_fexp prec emax m e l).1
  /\ (shr_fexp prec emax m e l).2 = Z.max e (fexp prec emax (Zdigits2 m + e))
  /\ Zdigits2 (shr_m (shr_fexp prec emax m e l).1) + (shr_fexp prec emax m e l).2
     <= Z.max (Zdigits2 m + e) (fexp prec emax (Zdigits2 m + e)).
Proof.
  intros Hm. unfold shr_fexp, shr.
  assert (shr_m (shr_record_of_loc m l) = m) as H0 by (destruct l as [|[]]; reflexivity).
  set (f := fexp prec emax (Zdigits2 m + e)).
  destruct (f - e) as [|n|n] eqn:Hn; cbn [fst snd].
  - rewrite H0. split; [exact Hm|]. split; lia.
  - rewrite iter_pos_nat.
    destruct (iter_shr_m (Pos.to_nat n) (shr_record_of_loc m l)) as [Hnn Hle];
      [rewrite H0; exact Hm|].
    rewrite H0, positive_nat_Z in Hle.
    split; [exact Hnn|]. split; [lia|].
    remember (shr_m (Nat.iter (Pos.to_nat n) shr_1 (shr_record_of_loc m l))) as m'
      eqn:Em'.
    clear Em'.
    pose proof (Zdigits2_bound m Hm) as Hb.
    pose proof (Zdigits2_nonneg m) as Hd.
    destruct (Z.eq_dec m' 0) as [->|Hpos].
    + change (Zdigits2 0) with 0. lia.
    + assert (Zdigits2 m' <= Zdigits2 m - Zpos n); [|lia].
      assert (Zpos n < Zdigits2 m \/ Zdigits2 m <= Zpos n) as [Hlt|Hge] by lia.
      * apply Zdigits2_le; [lia|lia|].
        replace (Zdigits2 m) with ((Zdigits2 m - Zpos n) + Zpos n) in Hb by lia.
        rewrite Z.pow_add_r in Hb by lia.
        assert (0 < 2 ^ Zpos n) by (apply Z.pow_pos_nonneg; lia). nia.
      * exfalso.
        assert (2 ^ Zdigits2 m <= 2 ^ Zpos n) by (apply Z.pow_le_mono_r; lia).
        assert (0 < 2 ^ Zpos n) by (apply Z.pow_pos_nonneg; lia). nia.
  - rewrite H0. split; [exact Hm|]. split; lia.
Qed.

Lemma round_nearest_even_digits (m : Z) (l : location) :
  0 <= m -> 0 <= round_nearest_even m l
  /\ Zdigits2 (round_nearest_even m l) <= Zdigits2 m + 1.
Proof.
  intros Hm.
  assert (0 <= round_nearest_even m l <= m + 1) as [H0 H1].
  { destruct l as [|[]]; simpl; try lia. destruct (Z.even m); lia. }
  split; [exact H0|].
  pose proof (Zdigits2_bound m Hm). pose proof (Zdigits2_nonneg m).
  apply Zdigits2_le; [exact H0|lia|].
  rewrite Z.pow_add_r by lia. simpl (2 ^ 1).
  assert (0 < 2 ^ Zdigits2 m) by (apply Z.pow_pos_nonneg; lia). lia.
Qed.

(** Rounding does not overflow when the magnitude of the number leaves
    room for one more digit. *)
Lemma binary_round_aux_finite (s : bool) (m e : Z) (l : location) :
  0 < prec ->
  SpecFloat.emin prec emax <= emax - prec ->
  0 <= m ->
  e <= emax - prec ->
  Zdigits2 m + e + 1 <= emax ->
  forall s', binary_round_aux prec emax s m e l <> S754_infinity s'.
Proof.
  intros Hprec Hemin Hm He Hd s'. unfold binary_round_aux.
  destruct (shr_fexp_bounds m e l Hm) as (H0 & He' & Hd').
  destruct (shr_fexp prec emax m e l) as [mrs' e']. cbn [fst snd] in *.
  destruct (round_nearest_even_digits (shr_m mrs') (loc_of_shr_record mrs') H0)
    as [H1 Hd1].
  destruct (shr_fexp_bounds (round_nearest_even (shr_m mrs') (loc_of_shr_record mrs'))
              e' loc_Exact H1) as (H2 & He'' & _).
  destruct (shr_fexp prec emax _ e' loc_Exact) as [mrs'' e'']. cbn [fst snd] in *.
  destruct (shr_m mrs'') as [|p|p]; try discriminate.
  replace (e'' <=? emax - prec) with true; [discriminate|].
  symmetry. apply Z.leb_le. unfold fexp in *. lia.
Qed.

End Finite.

Lemma digits_mul (p q : positive) :
  Zpos (digits2_pos (p * q))
  <= Zpos (digits2_pos p) + Zpos (digits2_pos q).
Proof.
  pose proof (digits_bounds p) as [_ Hp]. pose proof (digits_bounds q) as [_ Hq].
  apply (Zdigits2_le (Zpos (p * q))); [lia|lia|].
  rewrite Z.pow_add_r, Pos2Z.inj_mul by lia. nia.
Qed.

(** The product of a whole number below 2^53 and a constant of moderate
    size does not overflow. *)
Lemma SFmul_whole_finite (a : Z) (c : spec_float) :
  Z.abs a < 2 ^ 53 ->
  Ieee.moderate c = true ->
  Ieee.infinite (SFmul prec emax (Ieee.of_int a) c) = false.
Proof.
  intros Ha Hc. destruct c as [sc|sc| |sc mc ec]; try discriminate Hc.
  simpl in Hc. apply andb_true_iff in Hc as [Hmc Hec].
  apply Z.leb_le in Hmc, Hec.
  assert (forall s p, Zpos p < 2 ^ 53 ->
            Ieee.infinite
              (SFmul prec emax (S754_finite s (Ieee.canon_m p) (Ieee.canon_e p))
                 (S754_finite sc mc ec)) = false) as Hfin.
  { intros s p Hp. cbn [SFmul].
    pose proof (digits_small p Hp) as Hd.
    assert (Zpos (digits2_pos (Ieee.canon_m p)) = 53) as Hd53.
    { rewrite (digits_shift p (Ieee.canon_m p) (53 - Zpos (digits2_pos p)))
        by (lia || apply canon_m_spec, Hp). lia. }
    pose proof (digits_mul (Ieee.canon_m p) mc) as Hmul.
    destruct (binary_round_aux prec emax (xorb s sc) (Zpos (Ieee.canon_m p * mc))
                (Ieee.canon_e p + ec) loc_Exact) as [| s' | |] eqn:E; try reflexivity.
    exfalso. revert E. apply binary_round_aux_finite.
    - reflexivity.
    - unfold SpecFloat.emin, prec, emax. lia.
    - lia.
    - unfold Ieee.canon_e, prec, emax. lia.
    - simpl Zdigits2. unfold Ieee.canon_e, emax. lia. }
  destruct a as [|p|p].
  - reflexivity.
  - rewrite of_int_pos by lia. apply Hfin. lia.
  - rewrite of_int_neg by lia. apply Hfin. lia.
Qed.

(** *** The operations of the program's numbers *)

Local Open Scope float_scope.

Lemma is_nan_spec (x : float) :
  PrimFloat.is_nan x = true <-> Prim2SF x = S754_nan.
Proof.
  unfold PrimFloat.is_nan. rewrite eqb_spec. unfold SFeqb.
  destruct (Prim2SF x) as [s|s| |s m e]; simpl.
  - split; discriminate.
  - destruct s; split; discriminate.
  - split; reflexivity.
  - destruct s; rewrite Z.compare_refl, Pos.compare_cont_refl; split; discriminate.
Qed.

Lemma not_nan_spec (x : float) :
  PrimFloat.is_nan x = false <-> Prim2SF x <> S754_nan.
Proof. rewrite <- is_nan_spec. destruct (PrimFloat.is_nan x); split; congruence. Qed.

Lemma is_infinity_spec (x : float) :
  PrimFloat.is_infinity x = Ieee.infinite (Prim2SF x).
Proof.
  unfold PrimFloat.is_infinity. rewrite eqb_spec, abs_spec.
  change (Prim2SF infinity) with (S754_infinity false).
  destruct (Prim2SF x) as [s|s| |s m e]; reflexivity.
Qed.

(** [x + y] is NaN only if [x] or [y] is NaN, or both are infinite. *)
Lemma add_nan (x y : float) :
  PrimFloat.is_nan (x + y) = true ->
  PrimFloat.is_nan x = true \/ PrimFloat.is_nan y = true
  \/ (PrimFloat.is_infinity x = true /\ PrimFloat.is_infinity y = true).
Proof.
  rewrite !is_nan_spec, !is_infinity_spec, add_spec. apply SFadd_nan.
Qed.

Lemma add_finite_not_nan (x c : float) :
  Ieee.finite (Prim2SF c) = true ->
  PrimFloat.is_nan x = false -> PrimFloat.is_nan (x + c) = false.
Proof.
  intros Hc Hx. apply not_true_is_false. intros E.
  apply is_nan_spec in E. rewrite add_spec in E.
  apply SFadd_nan in E as [E|[E|[_ E]]].
  - apply is_nan_spec in E. congruence.
  - rewrite E in Hc. discriminate Hc.
  - destruct (Prim2SF c); discriminate.
Qed.

Lemma sub_finite_not_nan (x c : float) :
  Ieee.finite (Prim2SF c) = true ->
  PrimFloat.is_nan x = false -> PrimFloat.is_nan (x - c) = false.
Proof.
  intros Hc Hx. apply not_true_is_false. intros E.
  apply is_nan_spec in E. rewrite sub_spec in E.
  apply SFsub_nan in E as [E|[E|[_ E]]].
  - apply is_nan_spec in E. congruence.
  - rewrite E in Hc. discriminate Hc.
  - destruct (Prim2SF c); discriminate.
Qed.

Lemma mul_regular_not_nan (x c : float) :
  Ieee.regular (Prim2SF c) = true ->
  PrimFloat.is_nan x = false -> PrimFloat.is_nan (x * c) = false.
Proof.
  intros Hc Hx. apply not_true_is_false. intros E.
  apply is_nan_spec in E. rewrite mul_spec in E.
  apply SFmul_regular_nan in E; [|exact Hc].
  apply is_nan_spec in E. congruence.
Qed.

Lemma div_regular_not_nan (x c : float) :
  Ieee.regular (Prim2SF c) = true ->
  PrimFloat.is_nan x = false -> PrimFloat.is_nan (x / c) = false.
Proof.
  intros Hc Hx. apply not_true_is_false. intros E.
  apply is_nan_spec in E. rewrite div_spec in E.
  apply SFdiv_regular_nan in E; [|exact Hc].
  apply is_nan_spec in E. congruence.
Qed.

(** Math.round of a number is a number. *)
Lemma round_not_nan (x : float) :
  PrimFloat.is_nan x = false -> PrimFloat.is_nan (Binary64.round x) = false.
Proof.
  intros Hx. unfold Binary64.round. rewrite Hx.
  destruct (Binary64.two52 <=? abs x); [exact Hx|].
  assert (PrimFloat.is_nan (Binary64.floor_small x) = false) as Hf.
  { unfold Binary64.floor_small.
    assert (PrimFloat.is_nan
              (if 0 <=? x then x + Binary64.two52 - Binary64.two52
               else x - Binary64.two52 + Binary64.two52) = false) as Ht.
    { destruct (0 <=? x).
      - apply sub_finite_not_nan; [reflexivity|].
        apply add_finite_not_nan; [reflexivity|exact Hx].
      - apply add_finite_not_nan; [reflexivity|].
        apply sub_finite_not_nan; [reflexivity|exact Hx]. }
    cbv zeta. destruct (x <? _); [|exact Ht].
    apply sub_finite_not_nan; [reflexivity|exact Ht]. }
  cbv zeta.
  set (r := if 0.5 <=? x - Binary64.floor_small x
            then Binary64.floor_small x + 1 else Binary64.floor_small x).
  assert (PrimFloat.is_nan r = false) as Hr.
  { subst r. destruct (0.5 <=? _); [|exact Hf].
    apply add_finite_not_nan; [reflexivity|exact Hf]. }
  destruct (r =? 0); [|exact Hr].
  destruct (get_sign x); reflexivity.
Qed.

(** *** The scoring *)

(** The number read from a field is never NaN. *)
Lemma stat_number_not_nan (v : value float) :
  PrimFloat.is_nan (Sums.stat_number v) = false.
Proof.
  destruct v as [| |[|]|x]; try reflexivity.
  unfold Sums.stat_number.
  change (num_truthy x) with (Binary64.truthy x). unfold Binary64.truthy.
  destruct (PrimFloat.is_nan x) eqn:Hx.
  - rewrite andb_false_r. reflexivity.
  - destruct (negb (x =? 0)); [exact Hx|reflexivity].
Qed.

Lemma multiplier_regular (isPPR : value float) :
  Ieee.regular (Prim2SF (Sums.multiplier isPPR)) = true.
Proof.
  destruct isPPR as [| |b|x]; try reflexivity; unfold Sums.multiplier;
    destruct (truthy _); reflexivity.
Qed.

(** No product of a stat and its coefficient is NaN. *)
Lemma products_not_nan (player : Scoring.Player float) (isPPR : value float) :
  Forall (fun t => PrimFloat.is_nan t = false) (Sums.products player isPPR).
Proof.
  unfold Sums.products.
  repeat (apply Forall_cons; split;
          [apply mul_regular_not_nan;
           [first [reflexivity | apply multiplier_regular]
           |apply stat_number_not_nan]|]).
  apply Forall_nil. exact I.
Qed.

(** A running sum of numbers none of which is infinite is a number. *)
Lemma running_sum_not_nan (terms : list float) (total : float) :
  Forall (fun t => PrimFloat.is_nan t = false) terms ->
  Forall (fun t => PrimFloat.is_infinity t = false) terms ->
  PrimFloat.is_nan total = false ->
  PrimFloat.is_nan (fold_left PrimFloat.add terms total) = false.
Proof.
  revert total. induction terms as [|t terms IH]; intros total Hn Hi Ht; simpl.
  - exact Ht.
  - apply Forall_cons in Hn as [Hn1 Hn]. apply Forall_cons in Hi as [Hi1 Hi].
    apply IH; try assumption.
    apply not_true_is_false. intros E.
    apply add_nan in E as [E|[E|[_ E]]]; congruence.
Qed.

Lemma one_decimal_not_nan (x : float) :
  PrimFloat.is_nan x = false -> PrimFloat.is_nan (Sums.one_decimal x) = false.
Proof.
  intros Hx. unfold Sums.one_decimal.
  apply div_regular_not_nan; [reflexivity|].
  apply round_not_nan.
  apply mul_regular_not_nan; [reflexivity|exact Hx].
Qed.

(** The score is NaN only if one of the nine products is infinite. *)
Lemma score_not_nan (player : Scoring.Player float) (isPPR : value float) :
  Forall (fun t => PrimFloat.is_infinity t = false) (Sums.products player isPPR) ->
  PrimFloat.is_nan (Scoring.calculateFantasyPoints player isPPR) = false.
Proof.
  intros Hfin. rewrite SumFacts.score_is_running_sum.
  apply one_decimal_not_nan.
  apply running_sum_not_nan; [apply products_not_nan|exact Hfin|reflexivity].
Qed.

(** *** Sums of whole numbers *)

(** A whole number in a field is read as it is. *)
Lemma whole_stat (a : Z) :
  (Z.abs a < 2 ^ 53)%Z ->
  Sums.stat_number (VNum (Binary64.of_Z a)) = Binary64.of_Z a.
Proof.
  intros Ha. unfold Sums.stat_number.
  change (num_truthy (Binary64.of_Z a)) with (Binary64.truthy (Binary64.of_Z a)).
  unfold Binary64.truthy.
  destruct a as [|p|p]; [reflexivity| |].
  - rewrite eqb_spec, (proj2 (not_nan_spec _)), of_Z_spec, of_int_pos by
      (try (rewrite of_Z_spec, of_int_pos by lia; discriminate); lia).
    reflexivity.
  - rewrite eqb_spec, (proj2 (not_nan_spec _)), of_Z_spec, of_int_neg by
      (try (rewrite of_Z_spec, of_int_neg by lia; discriminate); lia).
    reflexivity.
Qed.

Lemma magnitude_nonneg (zs : list Z) : (0 <= Ieee.magnitude zs)%Z.
Proof. induction zs as [|z zs IH]; simpl; lia. Qed.

Lemma total_perm (zs zs' : list Z) :
  zs ≡ₚ zs' ->
  Ieee.total zs = Ieee.total zs' /\ Ieee.magnitude zs = Ieee.magnitude zs'.
Proof.
  induction 1 as [|z zs zs' _ IH|z1 z2 zs|zs1 zs2 zs3 _ IH1 _ IH2]; simpl.
  - auto.
  - destruct IH as [-> ->]. auto.
  - split; lia.
  - destruct IH1 as [-> ->]. exact IH2.
Qed.

(** A running sum of whole numbers whose magnitudes total less than 2^53
    is their exact sum. *)
Lemma fold_whole (zs : list Z) (acc : Z) :
  (Z.abs acc + Ieee.magnitude zs < 2 ^ 53)%Z ->
  fold_left PrimFloat.add (List.map Binary64.of_Z zs) (Binary64.of_Z acc)
  = Binary64.of_Z (acc + Ieee.total zs).
Proof.
  revert acc. induction zs as [|z zs IH]; intros acc Hb; simpl in *.
  - rewrite Z.add_0_r. reflexivity.
  - pose proof (magnitude_nonneg zs).
    rewrite add_whole by lia.
    rewrite IH by lia. f_equal. lia.
Qed.

Lemma running_sum_whole (zs : list Z) :
  (Ieee.magnitude zs < 2 ^ 53)%Z ->
  Sums.running_sum (List.map Binary64.of_Z zs) = Binary64.of_Z (Ieee.total zs).
Proof.
  intros Hb. unfold Sums.running_sum.
  change (num_lit 0%Qc) with (Binary64.of_Z 0).
  change (@num_add float Binary64.binary64_number) with PrimFloat.add.
  rewrite fold_whole by (simpl; lia). reflexivity.
Qed.

(** The total of a stat whose weekly numbers are whole is their exact sum,
    whatever the order of the weeks. *)
Lemma running_total_whole (f : Aggregate.Week float -> option (value float))
    (ws ws' : list (option (Aggregate.Week float))) (zs : list Z) :
  ws ≡ₚ ws' ->
  Sums.week_terms f ws = List.map Binary64.of_Z zs ->
  (Ieee.magnitude zs < 2 ^ 53)%Z ->
  Sums.running_total f ws = Binary64.of_Z (Ieee.total zs)
  /\ Sums.running_total f ws' = Binary64.of_Z (Ieee.total zs).
Proof.
  intros Hp Hz Hb. unfold Sums.running_total. split.
  - rewrite Hz. apply running_sum_whole, Hb.
  - assert (Sums.week_terms f ws' ≡ₚ List.map Binary64.of_Z zs) as Hp'
      by (rewrite <- Hz; unfold Sums.week_terms; rewrite Hp; reflexivity).
    apply Permutation_map_inv in Hp' as (zs' & -> & Hzs).
    destruct (total_perm _ _ Hzs) as [Ht Hm].
    rewrite Ht. apply running_sum_whole. rewrite <- Hm. exact Hb.
Qed.

(** *** Box scores never score NaN *)

Lemma mul_whole_finite (a : Z) (c : float) :
  (Z.abs a < 2 ^ 53)%Z ->
  Ieee.moderate (Prim2SF c) = true ->
  PrimFloat.is_infinity (Binary64.of_Z a * c) = false.
Proof.
  intros Ha Hc. rewrite is_infinity_spec, mul_spec, of_Z_spec by exact Ha.
  apply SFmul_whole_finite; assumption.
Qed.

Lemma field_number (o : option Z) :
  WholeNumbers.within o = true ->
  exists a : Z, (Z.abs a < 2 ^ 53)%Z
                /\ Sums.stat_number (WholeNumbers.field o) = Binary64.of_Z a.
Proof.
  destruct o as [a|]; simpl; intros Hw.
  - apply Z.ltb_lt in Hw. exists a. split; [exact Hw|apply whole_stat, Hw].
  - exists 0%Z. split; reflexivity.
Qed.

Lemma multiplier_moderate (isPPR : value float) :
  Ieee.moderate (Prim2SF (Sums.multiplier isPPR)) = true.
Proof.
  destruct isPPR as [| |b|x]; try reflexivity; unfold Sums.multiplier;
    destruct (truthy _); reflexivity.
Qed.

(** No product of a box score is infinite. *)
Lemma line_products_finite (py ptd int ry rtd rcy rctd rec fum : option Z)
    (isPPR : value float) :
  forallb WholeNumbers.within [py; ptd; int; ry; rtd; rcy; rctd; rec; fum] = true ->
  Forall (fun t => PrimFloat.is_infinity t = false)
    (Sums.products (WholeNumbers.line py ptd int ry rtd rcy rctd rec fum) isPPR).
Proof.
  intros Hw. cbn [forallb] in Hw.
  repeat (apply andb_true_iff in Hw as [?Hf Hw]).
  unfold Sums.products, WholeNumbers.line;
    cbn [Scoring.passing_yards Scoring.passing_tds Scoring.interceptions
         Scoring.rushing_yards Scoring.rushing_tds Scoring.receiving_yards
         Scoring.receiving_tds Scoring.receptions Scoring.fumbles_lost].
  repeat (apply Forall_cons; split;
          [match goal with
           | |- PrimFloat.is_infinity
                  (num_mul (Sums.stat_number (WholeNumbers.field ?o)) ?c) = false =>
               let a := fresh "a" in
               let Ha := fresh "Ha" in
               let E := fresh "E" in
               destruct (field_number o ltac:(assumption)) as (a & Ha & E);
               rewrite E; apply mul_whole_finite;
               [exact Ha|first [reflexivity | apply multiplier_moderate]]
           end|]).
  apply Forall_nil. exact I.
Qed.

End Binary64Facts.

(** ** Fantasy scoring *)

Module ScoringFacts.

Import Scoring.

Lemma term_exact (v : value num) (c : Qc) :
  term v (Fin c) = Fin (stat_value v * c)%Qc.
Proof. unfold term. rewrite to_number_or_zero. reflexivity. Qed.

(** On exact numbers the code computes the specification's sum, with the
    multiplier chosen by [isPPR], and rounds it to one decimal. *)
Lemma calc_exact (player : Player num) (isPPR : value num) :
  calculateFantasyPoints player isPPR
  = Fin (round1 (spec_fantasy_points (reception_multiplier isPPR) player)).
Proof.
  unfold calculateFantasyPoints, reception_multiplier.
  destruct (truthy (default_true isPPR)); cbn [num_lit exact_number];
    rewrite !term_exact;
    cbn [num_add num_mul num_div num_round exact_number num_lift2
         exact_round exact_div];
    (destruct (decide (dec 10 1 = 0%Qc)) as [E|_];
     [destruct (dec_10_nonzero E)|]);
    f_equal; unfold round1, spec_fantasy_points; do 2 f_equal; ring.
Qed.

Lemma round1_bounds (x : Qc) :
  (x - dec 1 20 < round1 x /\ round1 x <= x + dec 1 20)%Qc.
Proof.
  unfold round1, Qclt, Qcle, Qcminus, Qcdiv.
  pose proof (Qcround_bounds (x * dec 10 1)%Qc) as [Hlo Hhi].
  set (r := Qcround _) in *.
  pose proof (this_mult x (dec 10 1)) as Hx.
  pose proof (this_mult r (/ dec 10 1)) as Hr.
  pose proof (this_plus x (- dec 1 20)) as Hm.
  pose proof (this_plus x (dec 1 20)) as Hp.
  change (this (dec 10 1)) with (10 # 1)%Q in Hx.
  change (this (/ dec 10 1)) with (1 # 10)%Q in Hr.
  change (this (- dec 1 20)) with (-1 # 20)%Q in Hm.
  change (this (dec 1 20)) with (1 # 20)%Q in Hp.
  split; lra.
Qed.

(** A multiple of one tenth is its own rounding. *)
Lemma round1_tenths (z : Z) : round1 (dec z 10) = dec z 10.
Proof.
  unfold round1.
  replace (dec z 10 * dec 10 1)%Qc with (Q2Qc (inject_Z z)).
  - rewrite Qcround_inject_Z. apply Qc_eq_this.
    unfold Qcdiv. rewrite this_mult. unfold dec. rewrite !this_Q2Qc.
    change (this (/ Q2Qc (10 # 1))) with (1 # 10)%Q.
    unfold inject_Z, Qeq, Qmult; simpl. lia.
  - apply Qc_eq_this. rewrite this_mult. unfold dec. rewrite !this_Q2Qc.
    unfold inject_Z, Qeq, Qmult; simpl. lia.
Qed.

(** The code reads a missing or null field as it reads the number 0,
    whatever the implementation of numbers. *)
Lemma or_zero_missing {N : Type} `{JSNumber N} (v : value N) :
  or_zero (zero_if_missing v) = or_zero v.
Proof.
  destruct v; simpl; try reflexivity;
    unfold or_zero; simpl; destruct (num_truthy (num_lit 0%Qc)); reflexivity.
Qed.

Lemma calc_zero_missing {N : Type} `{JSNumber N} (p : Player N) (isPPR : value N) :
  calculateFantasyPoints (zero_missing p) isPPR = calculateFantasyPoints p isPPR.
Proof.
  unfold calculateFantasyPoints, term; simpl.
  rewrite !or_zero_missing. reflexivity.
Qed.

Lemma stat_value_num (q : Qc) : stat_value (VNum (Fin q)) = q.
Proof.
  unfold stat_value, or_zero; simpl.
  destruct (bool_decide_reflect (q = 0%Qc)) as [->|_]; reflexivity.
Qed.

Lemma spec_only_receptions (m r : Qc) :
  spec_fantasy_points m (only_receptions (Fin r)) = (m * r)%Qc.
Proof.
  unfold spec_fantasy_points, only_receptions, player_of; simpl.
  rewrite !stat_value_num. ring.
Qed.

Lemma dec_scale (k : positive) (z : Z) (d : positive) :
  dec (Zpos k * z) (k * d) = dec z d.
Proof.
  apply Qc_eq_this. unfold dec. rewrite !this_Q2Qc.
  unfold Qeq; simpl. lia.
Qed.

(** C1 (amended): for every player record and every [isPPR] argument,
    and in every implementation of numbers, binary64 included,
    calculateFantasyPoints returns Math.round(10*s)/10, where s is the
    running sum 0 + passing_yards*0.04 + passing_tds*4 + interceptions*(-1)
    + rushing_yards*0.1 + rushing_tds*6 + receiving_yards*0.1
    + receiving_tds*6 + receptions*m + fumbles_lost*(-1), added from left
    to right, each stat read as 0 when it is missing, null, false, zero or
    NaN, and m is 1 when [isPPR] is omitted or truthy and 0.5 otherwise.
    In binary64 the record with passing_yards=300, passing_tds=2,
    interceptions=1 and nothing else scores 19 under full PPR; one passing
    yard alone scores 0, and five passing yards with 83.5 rushing yards
    score 8.5, where the formula gives 0.04 and 8.55. *)
Theorem calculateFantasyPoints_rounds_formula :
  (forall (N : Type) (number : JSNumber N) (player : Player N) (isPPR : value N),
     calculateFantasyPoints player isPPR
     = Sums.one_decimal (Sums.running_sum (Sums.products player isPPR))
     /\ Sums.running_sum (Sums.products player isPPR)
        = fold_left num_add (Sums.products player isPPR) (num_lit 0%Qc)
     /\ (Sums.multiplier isPPR = num_lit 1%Qc
         \/ Sums.multiplier isPPR = num_lit (dec 5 10))
     /\ (isPPR = VUndefined \/ truthy isPPR = true ->
         Sums.multiplier isPPR = num_lit 1%Qc)
     /\ (isPPR <> VUndefined -> truthy isPPR = false ->
         Sums.multiplier isPPR = num_lit (dec 5 10)))
  /\ calculateFantasyPoints (qb_line float) (VBool true) = 19%float
  /\ calculateFantasyPoints (one_passing_yard float) (VBool true) = 0%float
  /\ calculateFantasyPoints (SumExamples.tie_line float) (VBool true) = 8.5%float.
Proof.
  split; [|repeat split; vm_compute; reflexivity].
  intros N number player isPPR.
  split; [apply SumFacts.score_is_running_sum|].
  split; [reflexivity|].
  split; [destruct isPPR as [| |[|]|x]; simpl; auto; destruct (num_truthy x); auto|].
  split.
  - intros [->|Ht]; [reflexivity|].
    destruct isPPR as [| |[|]|x]; simpl in *; try reflexivity; try discriminate Ht.
    rewrite Ht. reflexivity.
  - intros Hu Ht.
    destruct isPPR as [| |[|]|x]; simpl in *; try reflexivity; try discriminate Ht.
    + destruct (Hu eq_refl).
    + rewrite Ht. reflexivity.
Qed.

(** C1, as stated, fails: with one passing yard and nothing else the sum
    is 0.04, and the code returns 0, in binary64 as in exact arithmetic. *)
Lemma calculateFantasyPoints_not_exact :
  calculateFantasyPoints (one_passing_yard num) (VBool true) = Fin 0%Qc
  /\ spec_fantasy_points 1%Qc (one_passing_yard num) = dec 4 100
  /\ Fin 0%Qc <> Fin (dec 4 100)
  /\ calculateFantasyPoints (one_passing_yard float) (VBool true) = 0%float
  /\ PrimFloat.eqb 0%float (Binary64.lit (dec 4 100)) = false.
Proof.
  split; [|split; [|split; [|split]]].
  - rewrite calc_exact. f_equal. apply Qc_eq_this. vm_compute. reflexivity.
  - apply Qc_eq_this. vm_compute. reflexivity.
  - intros E. inversion E.
  - vm_compute. reflexivity.
  - vm_compute. reflexivity.
Qed.

Lemma only_receptions_score (r : Z) (isPPR : value num) :
  calculateFantasyPoints (only_receptions (Fin (dec r 1))) isPPR
  = if truthy (default_true isPPR) then Fin (dec r 1) else Fin (dec r 2).
Proof.
  rewrite calc_exact, spec_only_receptions. unfold reception_multiplier.
  destruct (truthy (default_true isPPR)); f_equal.
  - rewrite Qcmult_1_l, <- (dec_scale 10 r 1). apply round1_tenths.
  - replace (dec 5 10 * dec r 1)%Qc with (dec (5 * r) 10).
    + rewrite round1_tenths. apply (dec_scale 5 r 2).
    + apply Qc_eq_this. rewrite this_mult. unfold dec. rewrite !this_Q2Qc.
      unfold Qeq, Qmult; simpl. lia.
Qed.

(** C6 (amended): the computation supports two multipliers on receptions,
    chosen by the flag [isPPR]: 1.0 (full PPR) when it is truthy or
    omitted, 0.5 (half PPR) otherwise.  A record whose only nonzero stat
    is [r] receptions scores [r] under the first and [r/2] under the
    second; no argument selects the multiplier 0.0. *)
Theorem reception_scoring (r : Z) (isPPR : value num) :
  calculateFantasyPoints (only_receptions (Fin (dec r 1))) isPPR
  = (if truthy (default_true isPPR) then Fin (dec r 1) else Fin (dec r 2))
  /\ (reception_multiplier isPPR = 1%Qc \/ reception_multiplier isPPR = dec 5 10)
  /\ reception_multiplier VUndefined = 1%Qc
  /\ reception_multiplier (VBool true) = 1%Qc
  /\ reception_multiplier (VBool false) = dec 5 10
  /\ (r <> 0 ->
      calculateFantasyPoints (only_receptions (Fin (dec r 1))) isPPR <> Fin 0%Qc).
Proof.
  split; [apply only_receptions_score|].
  split; [unfold reception_multiplier; destruct (truthy _); auto|].
  do 3 (split; [reflexivity|]).
  intros Hr. rewrite only_receptions_score.
  assert (forall d : positive, dec r d <> 0%Qc) as Hd.
  { intros d E. apply (f_equal this) in E. unfold dec in E.
    pose proof (this_Q2Qc (r # d)) as Hq. rewrite E in Hq.
    unfold Qeq in Hq; simpl in Hq. lia. }
  destruct (truthy (default_true isPPR)); intros E;
    [apply (Hd 1%positive)|apply (Hd 2%positive)]; congruence.
Qed.

(** C6, as stated, fails: under standard scoring two receptions are worth
    0 points, but the code scores them 1 point when the flag is false or
    the configuration value 0.0, and no argument makes it score 0. *)
Lemma standard_scoring_unavailable :
  spec_fantasy_points 0%Qc (only_receptions (Fin (dec 2 1))) = 0%Qc
  /\ calculateFantasyPoints (only_receptions (Fin (dec 2 1))) (VBool false)
     = Fin 1%Qc
  /\ calculateFantasyPoints (only_receptions (Fin (dec 2 1))) (VNum (Fin 0%Qc))
     = Fin 1%Qc
  /\ (forall isPPR : value num,
        calculateFantasyPoints (only_receptions (Fin (dec 2 1))) isPPR
        <> Fin 0%Qc).
Proof.
  split; [|split; [|split]].
  - rewrite spec_only_receptions. ring.
  - rewrite only_receptions_score. simpl. f_equal. apply Qc_eq_this. reflexivity.
  - rewrite only_receptions_score. simpl. f_equal. apply Qc_eq_this. reflexivity.
  - intros isPPR. rewrite only_receptions_score.
    destruct (truthy (default_true isPPR)); intros E; inversion E.
Qed.

(** C8 (amended): for every player record, calculateFantasyPoints returns
    the same value as for the record in which the missing and null stat
    fields are replaced by 0, in every implementation of numbers.  A
    missing or null field never makes the result NaN: in binary64 the
    result is NaN only if one of the nine products of a stat and its
    coefficient is infinite; it is not NaN for a box score, whose fields
    are missing or whole numbers below 2^53 in magnitude; and the record
    without any stat scores 0. *)
Theorem missing_stats_count_as_zero :
  (forall (N : Type) (number : JSNumber N) (player : Player N) (isPPR : value N),
     calculateFantasyPoints player isPPR
     = calculateFantasyPoints (zero_missing player) isPPR
     /\ Sums.products (zero_missing player) isPPR = Sums.products player isPPR)
  /\ (forall (player : Player float) (isPPR : value float),
        Forall (fun t => PrimFloat.is_infinity t = false)
          (Sums.products player isPPR) ->
        PrimFloat.is_nan (calculateFantasyPoints player isPPR) = false)
  /\ (forall (player : Player float) (isPPR : value float),
        PrimFloat.is_nan (calculateFantasyPoints player isPPR) = true ->
        Exists (fun t => PrimFloat.is_infinity t = true)
          (Sums.products player isPPR))
  /\ (forall (py ptd int ry rtd rcy rctd rec fum : option Z) (isPPR : value float),
        forallb WholeNumbers.within [py; ptd; int; ry; rtd; rcy; rctd; rec; fum]
        = true ->
        PrimFloat.is_nan
          (calculateFantasyPoints
             (WholeNumbers.line py ptd int ry rtd rcy rctd rec fum) isPPR)
        = false)
  /\ (forall isPPR : value float,
        calculateFantasyPoints (no_stats (N := float)) isPPR = 0%float).
Proof.
  split; [|split; [|split; [|split]]].
  - intros N number player isPPR. split.
    + symmetry. apply calc_zero_missing.
    + unfold Sums.products, zero_missing; simpl.
      rewrite <- !SumFacts.or_zero_number, !or_zero_missing. reflexivity.
  - apply Binary64Facts.score_not_nan.
  - intros player isPPR Hnan.
    destruct (decide (Exists (fun t => PrimFloat.is_infinity t = true)
                        (Sums.products player isPPR))) as [Hex|Hno];
      [exact Hex|].
    rewrite Binary64Facts.score_not_nan in Hnan; [discriminate Hnan|].
    apply Forall_forall. intros t Ht. apply not_true_is_false. intros Hinf.
    apply Hno. apply Exists_exists. exists t. auto.
  - intros py ptd int ry rtd rcy rctd rec fum isPPR Hw.
    apply Binary64Facts.score_not_nan, Binary64Facts.line_products_finite, Hw.
  - intros isPPR. rewrite SumFacts.score_is_running_sum.
    unfold Sums.products; simpl.
    set (m := Sums.multiplier isPPR).
    assert (m = 1%float \/ m = 0.5%float) as [-> | ->].
    { subst m. destruct isPPR as [| |[|]|x]; simpl; auto.
      destruct (Binary64.truthy x); auto. }
    + vm_compute. reflexivity.
    + vm_compute. reflexivity.
Qed.

Lemma missing_stats_count_as_zero_witness :
  forallb WholeNumbers.within
    [Some 300; Some 2; Some 1; None; None; Some 12; None; Some 1; None] = true
  /\ PrimFloat.is_nan
       (calculateFantasyPoints
          (WholeNumbers.line (Some 300) (Some 2) (Some 1) None None (Some 12) None
             (Some 1) None)
          (VBool true)) = false
  /\ Forall (fun t => PrimFloat.is_infinity t = false)
       (Sums.products (qb_line float) (VBool true))
  /\ PrimFloat.is_nan (calculateFantasyPoints (qb_line float) (VBool true)) = false.
Proof.
  assert (Forall (fun t => PrimFloat.is_infinity t = false)
            (Sums.products (qb_line float) (VBool true))) as Hfin
    by (repeat constructor).
  split; [reflexivity|]. split; [|split; [exact Hfin|]].
  - exact (proj1 (proj2 (proj2 (proj2 missing_stats_count_as_zero)))
             (Some 300) (Some 2) (Some 1) None None (Some 12) None (Some 1) None
             (VBool true) eq_refl).
  - exact (proj1 (proj2 missing_stats_count_as_zero) (qb_line float) (VBool true) Hfin).
Defined.

(** C8, as stated, fails for the NaN: the record with 1e308 passing
    touchdowns, -1e308 rushing touchdowns and its other fields missing
    scores NaN, because 1e308 * 4 and -1e308 * 6 overflow to the two
    infinities. *)
Lemma overflowing_stats_score_nan :
  PrimFloat.is_nan
    (calculateFantasyPoints SumExamples.overflow_line VUndefined) = true
  /\ passing_yards SumExamples.overflow_line = VUndefined
  /\ List.map PrimFloat.is_infinity
       (Sums.products SumExamples.overflow_line VUndefined)
     = [false; true; false; false; true; false; false; false; false].
Proof. repeat split. Qed.

(** The examples, in binary64. *)
Example qb_line_binary64 :
  calculateFantasyPoints (qb_line float) (VBool true) = 19%float.
Proof. vm_compute. reflexivity. Qed.

Example one_passing_yard_binary64 :
  calculateFantasyPoints (one_passing_yard float) (VBool true) = 0%float.
Proof. vm_compute. reflexivity. Qed.

Example no_stats_binary64 :
  calculateFantasyPoints (no_stats (N:=float)) VUndefined = 0%float.
Proof. vm_compute. reflexivity. Qed.

Example half_ppr_binary64 :
  calculateFantasyPoints (only_receptions (Binary64.lit (dec 3 1))) (VBool false)
  = 1.5%float.
Proof. vm_compute. reflexivity. Qed.

(** Passing the configuration value 0.0 as [isPPR] selects the multiplier
    0.5, and passing 0.5 selects 1. *)
Example ppr_value_as_flag_binary64 :
  calculateFantasyPoints (only_receptions (Binary64.lit (dec 3 1)))
    (VNum (Binary64.lit 0%Qc)) = 1.5%float
  /\ calculateFantasyPoints (only_receptions (Binary64.lit (dec 3 1)))
       (VNum (Binary64.lit (dec 5 10))) = 3%float.
Proof. split; vm_compute; reflexivity. Qed.

End ScoringFacts.

(** ** The warehouse store *)

Module StoreFacts.

Import Store.

Lemma restore_binding (k : key) (v : option WeeklyRecord) (t : table) :
  partial_alter (fun _ => t !! k) k (partial_alter (fun _ => v) k t) = t.
Proof.
  apply map_eq. intros i. destruct (decide (k = i)) as [->|Hne].
  - rewrite lookup_partial_alter_eq. reflexivity.
  - rewrite !lookup_partial_alter_ne by done. reflexivity.
Qed.

Lemma undoes_write (t0 : table) (k : key) (v : option WeeklyRecord)
    (s : table * journal) :
  undoes t0 s -> undoes t0 (write k v s).
Proof.
  unfold undoes, write, rollback; simpl. intros Hs.
  rewrite restore_binding. exact Hs.
Qed.

Lemma undoes_deletes (t0 : table) (ks : list key) (s : table * journal) :
  undoes t0 s -> undoes t0 (fold_left (fun s k => write k None s) ks s).
Proof.
  revert s. induction ks as [|k ks IH]; intros s Hs; simpl; [exact Hs|].
  apply IH, undoes_write, Hs.
Qed.

(** A failure scheduled among the writes still to come happens, and the
    journal then still leads back to the state before the commit. *)
Lemma write_rows_fails (t0 : table) (rows : list WeeklyRecord)
    (n written : nat) (s : table * journal) :
  undoes t0 s ->
  (written <= n < written + length rows)%nat ->
  exists s', write_rows rows (Some n) written s = (inl n, s') /\ undoes t0 s'.
Proof.
  revert written s.
  induction rows as [|r rows IH]; intros written s Hs Hn; simpl in *; [lia|].
  case_bool_decide as Hw.
  - injection Hw as <-. exists s. split; [reflexivity|exact Hs].
  - apply IH; [apply undoes_write, Hs|].
    assert (n <> written) by congruence. lia.
Qed.

(** C2: a commit of M rows that fails after writing N < M of them raises a
    StoreError and leaves the table as it was before the commit, so every
    read of every unit returns what it returned before: none of the N
    rows is observable, and all committed data is intact. *)
Theorem commit_atomic (u : RefreshUnit) (rows : list WeeklyRecord)
    (n : nat) (t : table) :
  (n < length rows)%nat ->
  commit u rows (Some n) t = (inl (WriteFailed u n), t)
  /\ forall u' : RefreshUnit,
       readWeekly u' (commit u rows (Some n) t).2 = readWeekly u' t.
Proof.
  intros Hn.
  assert (commit u rows (Some n) t = (inl (WriteFailed u n), t)) as Hc.
  { unfold commit.
    destruct (write_rows_fails t rows n 0
                (fold_left (fun s k => write k None s) (unit_keys u t) (t, [])))
      as ([t' j] & -> & Hu).
    - apply undoes_deletes. reflexivity.
    - lia.
    - simpl. f_equal. exact Hu. }
  split; [exact Hc|]. intros u'. rewrite Hc. reflexivity.
Qed.

Lemma commit_atomic_witness :
  (1 < length [Examples.row_a; Examples.row_b])%nat
  /\ commit (2025, 3) [Examples.row_a; Examples.row_b] (Some 1%nat) Examples.table0
     = (inl (WriteFailed (2025, 3) 1), Examples.table0).
Proof.
  split; [simpl; lia|].
  apply (commit_atomic (2025, 3) [Examples.row_a; Examples.row_b] 1 Examples.table0).
  simpl; lia.
Defined.

(** A commit that does not fail replaces the rows of its unit and leaves the
    other units alone. *)
Example commit_replaces_unit :
  readWeekly (2025, 3)
    (commit (2025, 3) [Examples.row_a; Examples.row_b] None Examples.table0).2
  = [Examples.row_a; Examples.row_b]
  /\ readWeekly (2025, 2)
       (commit (2025, 3) [Examples.row_a; Examples.row_b] None Examples.table0).2
     = [Examples.row_week2]
  /\ readWeekly (2025, 3) Examples.table0 = [Examples.row_a_old].
Proof. repeat split; vm_compute; reflexivity. Qed.

(** After the simulated failure the earlier load of week 3 is read back. *)
Example commit_failure_keeps_old_rows :
  readWeekly (2025, 3)
    (commit (2025, 3) [Examples.row_a; Examples.row_b] (Some 1%nat) Examples.table0).2
  = [Examples.row_a_old].
Proof. vm_compute. reflexivity. Qed.

End StoreFacts.

(** ** The response cache *)

Module CacheFacts.

Import ApiCache.

Section WithRuntime.

Context `{Runtime}.

Lemma stored_at_step (key : string) (ts : Z) (c : ApiCache.t) (o : op) :
  sets_key key o = false -> stored_at key ts c -> stored_at key ts (step c o).
Proof.
  unfold stored_at. intros Ho Hc.
  destruct o as [k now|k v now|]; simpl in *.
  - unfold get. destruct (stale _ _); simpl; [|exact Hc].
    destruct (decide (k = key)) as [->|Hne].
    + left. apply lookup_delete_eq.
    + rewrite lookup_delete_ne by done. exact Hc.
  - apply bool_decide_eq_false in Ho.
    rewrite lookup_insert_ne by done. exact Hc.
  - left. apply lookup_empty.
Qed.

Lemma stored_at_run (key : string) (ts : Z) (ops : list op) (c : ApiCache.t) :
  never_sets key ops -> stored_at key ts c -> stored_at key ts (run ops c).
Proof.
  intros Hops. revert c.
  induction Hops as [|o ops Ho _ IH]; intros c Hc; simpl; [exact Hc|].
  apply IH, stored_at_step; assumption.
Qed.

(** A stale entry is reported absent and removed from both maps. *)
Lemma get_stale (key : string) (now : Z) (c : ApiCache.t) :
  stale (timestamps c !! key) now = true ->
  (get key now c).1 = None
  /\ cache (get key now c).2 !! key = None
  /\ timestamps (get key now c).2 !! key = None.
Proof.
  unfold get. intros ->. simpl.
  split; [reflexivity|]. split; apply lookup_delete_eq.
Qed.

Lemma stale_stored_at (key : string) (ts now : Z) (c : ApiCache.t) :
  stored_at key ts c -> CACHE_TTL < now - ts ->
  stale (timestamps c !! key) now = true.
Proof.
  intros [->| ->] Hlt; simpl; [reflexivity|].
  apply orb_true_iff. right. apply Z.ltb_lt. exact Hlt.
Qed.

(** C5: a get performed more than the TTL after the last set of its key
    returns null and removes the entry from the cache, whatever uses of
    the cache (none of them a sweep) came in between; and a get for a
    key that was never set returns null. *)
Theorem expired_entry_is_absent (c : ApiCache.t) (key : string)
    (value : Data) (t_set t_get : Z) (ops : list op) :
  never_sets key ops ->
  CACHE_TTL < t_get - t_set ->
  (get key t_get (run ops (set key value t_set c))).1 = None
  /\ cache (get key t_get (run ops (set key value t_set c))).2 !! key = None
  /\ timestamps (get key t_get (run ops (set key value t_set c))).2 !! key = None
  /\ (forall now : Z, (get key now (run ops new)).1 = None).
Proof.
  intros Hops Hlt.
  assert (stale (timestamps (run ops (set key value t_set c)) !! key) t_get = true)
    as Hstale.
  { apply (stale_stored_at key t_set); [|exact Hlt].
    apply stored_at_run; [exact Hops|].
    right. simpl. apply lookup_insert_eq. }
  destruct (get_stale key t_get _ Hstale) as (H1 & H2 & H3).
  repeat split; try assumption.
  intros now. apply get_stale.
  destruct (stored_at_run key 0 ops new Hops) as [E|E]; rewrite ?E.
  - left. apply lookup_empty.
  - reflexivity.
  - reflexivity.
Qed.

(** Until the TTL has passed a stored body is served, and the entry
    stays in the cache until a get finds it expired. *)
Lemma get_fresh (c : ApiCache.t) (key : string) (value : Data) (t_set t_get : Z) :
  t_set <> 0 -> t_get - t_set <= CACHE_TTL ->
  get key t_get (set key value t_set c) = (Some value, set key value t_set c).
Proof.
  intros Hnz Hle. unfold get. simpl. rewrite lookup_insert_eq. simpl.
  replace (t_set =? 0) with false by (symmetry; apply Z.eqb_neq; exact Hnz).
  replace (CACHE_TTL <? t_get - t_set) with false
    by (symmetry; apply Z.ltb_ge; exact Hle).
  simpl. rewrite lookup_insert_eq. reflexivity.
Qed.

End WithRuntime.

#[local] Existing Instance rows_runtime.

Lemma expired_entry_is_absent_witness :
  never_sets "/data/seasons?" Examples.other_uses
  /\ CACHE_TTL < 302000 - 1000
  /\ (get "/data/seasons?" 302000
        (run Examples.other_uses
           (set "/data/seasons?" Examples.seasons_body 1000 new))).1 = None.
Proof.
  split; [repeat constructor|].
  split; [reflexivity|].
  apply (expired_entry_is_absent new "/data/seasons?" Examples.seasons_body
           1000 302000 Examples.other_uses).
  - repeat constructor.
  - reflexivity.
Defined.

(** Within the TTL the body is served; one millisecond past it, it is not. *)
Example ttl_boundary :
  (get "k" 301000 (set "k" Examples.seasons_body 1000 new)).1
  = Some Examples.seasons_body
  /\ (get "k" 301001 (set "k" Examples.seasons_body 1000 new)).1 = None.
Proof. split; vm_compute; reflexivity. Qed.

End CacheFacts.

(** ** Requests and refresh *)

Module ServiceFacts.

Import ApiCache Service.

Section WithRuntime.

Context `{Runtime}.

(** On an empty cache a request is answered by the network. *)
Lemma apiRequest_empty_cache (url : string) (params : Api.object)
    (useCache : bool) (now later : Z) (net : Settled) :
  (apiRequest url params useCache now later net new).2 = true
  /\ (apiRequest url params useCache now later net new).1.1 = network_answer net.
Proof.
  unfold apiRequest, network_answer, get.
  destruct useCache; simpl; destruct (response_interceptor net); simpl; auto.
Qed.

(** C4: when the POST of refreshData resolves, the body is returned and the
    cache is cleared: no key has an entry left, every get returns null, and
    every request made next, whatever its URL and parameters and whenever it
    is made, goes to the network and returns its answer. *)
Theorem refresh_clears_cache (response : Response) (c : ApiCache.t) :
  refreshData (Fulfilled response) c = (inr (data response), new)
  /\ (forall key : string,
        cache (refreshData (Fulfilled response) c).2 !! key = None
        /\ timestamps (refreshData (Fulfilled response) c).2 !! key = None)
  /\ (forall (key : string) (now : Z),
        (get key now (refreshData (Fulfilled response) c).2).1 = None)
  /\ (forall (url : string) (params : Api.object) (now later : Z) (net : Settled),
        (apiRequest url params true now later net
           (refreshData (Fulfilled response) c).2).2 = true
        /\ (apiRequest url params true now later net
              (refreshData (Fulfilled response) c).2).1.1
           = network_answer net).
Proof.
  unfold refreshData; simpl.
  split; [reflexivity|].
  split; [intros key; split; apply lookup_empty|].
  split; [intros key now; reflexivity|].
  intros url params now later net. apply apiRequest_empty_cache.
Qed.

Lemma apiRequest_cases (url : string) (params : Api.object) (useCache : bool)
    (now later : Z) (net : Settled) (c : ApiCache.t) :
  ((apiRequest url params useCache now later net c).2 = false
   /\ useCache = true
   /\ exists d, (get (Api.getCacheKey url params) now c).1 = Some d
                /\ data_truthy d = true
                /\ (apiRequest url params useCache now later net c).1.1 = inr d)
  \/ ((apiRequest url params useCache now later net c).2 = true
      /\ (apiRequest url params useCache now later net c).1.1 = network_answer net).
Proof.
  unfold apiRequest, network_answer.
  destruct useCache; simpl.
  - destruct (get (Api.getCacheKey url params) now c) as [[d|] c'] eqn:Hget; simpl.
    + destruct (data_truthy d) eqn:Hd.
      * left. repeat split. exists d. auto.
      * right. destruct (response_interceptor net); simpl; auto.
    + right. destruct (response_interceptor net); simpl; auto.
  - right. destruct (response_interceptor net); simpl; auto.
Qed.

(** C7 (amended): a query returns a normal result, possibly with zero rows,
    when a fresh cache entry with a truthy body answers it (then no GET is
    made, whatever the network would answer) and when its GET is fulfilled;
    the GET is made exactly when the cache does not answer.  When the GET
    is rejected the query throws to its caller: "Data not found" for a
    status 404; "Server error..." for a status of 500 or more; for every
    other error (another status, or no response at all) "Request
    timeout..." when its code is ECONNABORTED, and the axios error itself
    otherwise.  A failed refresh throws to the caller of refreshData only:
    it leaves the cache, hence every later query, as it was. *)
Theorem apiRequest_outcome (url : string) (params : Api.object)
    (useCache : bool) (now later : Z) (net : Settled) (c : ApiCache.t) :
  (forall d : Data,
     useCache = true ->
     (get (Api.getCacheKey url params) now c).1 = Some d ->
     data_truthy d = true ->
     (apiRequest url params useCache now later net c).1.1 = inr d
     /\ (apiRequest url params useCache now later net c).2 = false)
  /\ ((apiRequest url params useCache now later net c).2 = true
      <-> useCache = false
          \/ (forall d : Data,
                (get (Api.getCacheKey url params) now c).1 = Some d ->
                data_truthy d = false))
  /\ (forall response : Response, net = Fulfilled response ->
        (apiRequest url params useCache now later net c).2 = true ->
        (apiRequest url params useCache now later net c).1.1 = inr (data response))
  /\ (forall response : Response, net = Fulfilled response ->
        exists d, (apiRequest url params useCache now later net c).1.1 = inr d)
  /\ (forall e : AxiosError, net = Rejected e ->
        (apiRequest url params useCache now later net c).2 = true ->
        (apiRequest url params useCache now later net c).1.1 = inl (thrown_for e))
  /\ (forall e : AxiosError,
        response_status e = Some 404 -> thrown_for e = NewError "Data not found")
  /\ (forall (e : AxiosError) (st : Z),
        response_status e = Some st -> 500 <= st ->
        thrown_for e = NewError "Server error. Please try again later.")
  /\ (forall e : AxiosError,
        response_status e <> Some 404 ->
        (forall st : Z, response_status e = Some st -> st < 500) ->
        code e = Some "ECONNABORTED"%string ->
        thrown_for e = NewError "Request timeout. Please check your connection.")
  /\ (forall e : AxiosError,
        response_status e <> Some 404 ->
        (forall st : Z, response_status e = Some st -> st < 500) ->
        code e <> Some "ECONNABORTED"%string ->
        thrown_for e = Rethrown e)
  /\ (forall e : AxiosError,
        refreshData (Rejected e) c = (inl (thrown_for e), c)).
Proof.
  assert (forall e, response_interceptor (Rejected e) = inl (thrown_for e)) as Hthrown.
  { intros e. unfold thrown_for. simpl.
    repeat (match goal with |- context [if ?b then _ else _] => destruct b end;
            try reflexivity). }
  assert (forall e : AxiosError,
            response_status e <> Some 404 ->
            (forall st : Z, response_status e = Some st -> st < 500) ->
            thrown_for e
            = if bool_decide (code e = Some "ECONNABORTED"%string)
              then NewError "Request timeout. Please check your connection."
              else Rethrown e) as Hother.
  { intros e H404 Hst. unfold thrown_for; simpl.
    rewrite bool_decide_eq_false_2 by exact H404.
    destruct (response_status e) as [st|] eqn:He.
    - replace (500 <=? st) with false
        by (symmetry; apply Z.leb_gt, Hst; reflexivity).
      destruct (bool_decide _); reflexivity.
    - destruct (bool_decide _); reflexivity. }
  split; [|split; [|split; [|split; [|split; [|split; [|split; [|split; [|split]]]]]]]].
  - intros d -> Hget Hd. unfold apiRequest.
    destruct (get (Api.getCacheKey url params) now c) as [cached c'].
    simpl in Hget. subst cached. rewrite Hd. auto.
  - unfold apiRequest. destruct useCache.
    + destruct (get (Api.getCacheKey url params) now c) as [[d|] c']; simpl.
      * destruct (data_truthy d) eqn:Hd; simpl.
        -- split; [discriminate|]. intros [E|Hall]; [discriminate E|].
           rewrite (Hall d eq_refl) in Hd. discriminate Hd.
        -- split; [|destruct (response_interceptor net); reflexivity].
           intros _. right. intros d' E. injection E as <-. exact Hd.
      * split; [|destruct (response_interceptor net); reflexivity].
        intros _. right. intros d' E. discriminate E.
    + simpl. split; [auto|]. intros _. destruct (response_interceptor net); reflexivity.
  - intros response -> Hnet.
    destruct (apiRequest_cases url params useCache now later (Fulfilled response) c)
      as [(Hhit & _)|[_ ->]]; [congruence|reflexivity].
  - intros response ->.
    destruct (apiRequest_cases url params useCache now later (Fulfilled response) c)
      as [(_ & _ & d & _ & _ & ->)|[_ ->]]; eauto.
  - intros e -> Hnet.
    destruct (apiRequest_cases url params useCache now later (Rejected e) c)
      as [(Hhit & _)|[_ ->]]; [congruence|].
    unfold network_answer. rewrite Hthrown. reflexivity.
  - intros e He. unfold thrown_for; simpl. rewrite He. reflexivity.
  - intros e st He Hst. unfold thrown_for; simpl. rewrite He.
    case_bool_decide as H404; [injection H404 as ->; lia|].
    replace (500 <=? st) with true by (symmetry; apply Z.leb_le; exact Hst).
    reflexivity.
  - intros e H404 Hst Hc. rewrite Hother by assumption.
    rewrite bool_decide_eq_true_2 by exact Hc. reflexivity.
  - intros e H404 Hst Hc. rewrite Hother by assumption.
    rewrite bool_decide_eq_false_2 by exact Hc. reflexivity.
  - intros e. unfold refreshData. rewrite Hthrown. reflexivity.
Qed.

End WithRuntime.

(** C7, as stated, fails: a query for data the server does not have (the
    GET is answered 404) on an empty cache throws "Data not found" to the
    caller of the query. *)
Lemma query_for_missing_data_throws :
  apiRequest (H := rows_runtime) "/players/weekly-stats" [("season", Api.PInt 2031)]
    true 1000 1200
    (Rejected {| response_status := Some 404; code := Some "ERR_BAD_REQUEST"%string;
                 message := "Request failed with status code 404" |})
    (new (H := rows_runtime))
  = (inl (NewError "Data not found"), new (H := rows_runtime), true).
Proof. vm_compute. reflexivity. Qed.

(** An error without a response (the network is down) is rethrown as it
    came; a timeout that carries the status 408 is reported as a timeout,
    and one that carries a 404 as missing data. *)
Example thrown_for_examples :
  thrown_for (H := rows_runtime)
    {| response_status := None; code := Some "ERR_NETWORK"%string;
       message := "Network Error" |}
  = Rethrown
      {| response_status := None; code := Some "ERR_NETWORK"%string;
         message := "Network Error" |}
  /\ thrown_for (H := rows_runtime)
       {| response_status := Some 408; code := Some "ECONNABORTED"%string;
          message := "timeout of 30000ms exceeded" |}
     = NewError "Request timeout. Please check your connection."
  /\ thrown_for (H := rows_runtime)
       {| response_status := Some 404; code := Some "ECONNABORTED"%string;
          message := "timeout of 30000ms exceeded" |}
     = NewError "Data not found".
Proof. repeat split. Qed.

End ServiceFacts.

(** ** Cache keys *)

Module CacheKeyFacts.

Import Api.

Lemma N_of_ascii_inj (a b : ascii) : N_of_ascii a = N_of_ascii b -> a = b.
Proof.
  intros E. rewrite <- (ascii_N_embedding a), <- (ascii_N_embedding b), E.
  reflexivity.
Qed.

Lemma str_leb_total (s t : string) : str_leb s t = true \/ str_leb t s = true.
Proof.
  revert t. induction s as [|a s IH]; intros [|b t]; simpl; auto.
  destruct (N.ltb_spec (N_of_ascii a) (N_of_ascii b)); auto.
  destruct (N.ltb_spec (N_of_ascii b) (N_of_ascii a)); auto.
Qed.

Lemma str_leb_antisym (s t : string) :
  str_leb s t = true -> str_leb t s = true -> s = t.
Proof.
  revert t. induction s as [|a s IH]; intros [|b t]; simpl; try done.
  destruct (N.ltb_spec (N_of_ascii a) (N_of_ascii b));
    destruct (N.ltb_spec (N_of_ascii b) (N_of_ascii a)); try done; try lia.
  intros Hst Hts. f_equal; [apply N_of_ascii_inj; lia|apply IH; assumption].
Qed.

Lemma str_leb_trans (s t u : string) :
  str_leb s t = true -> str_leb t u = true -> str_leb s u = true.
Proof.
  revert t u. induction s as [|a s IH]; intros [|b t] [|c u]; simpl; try done.
  destruct (N.ltb_spec (N_of_ascii a) (N_of_ascii b));
    destruct (N.ltb_spec (N_of_ascii b) (N_of_ascii a));
    destruct (N.ltb_spec (N_of_ascii b) (N_of_ascii c));
    destruct (N.ltb_spec (N_of_ascii c) (N_of_ascii b));
    destruct (N.ltb_spec (N_of_ascii a) (N_of_ascii c));
    destruct (N.ltb_spec (N_of_ascii c) (N_of_ascii a));
    try done; try lia.
  apply IH.
Qed.

#[local] Instance str_le_trans : Transitive str_le.
Proof. intros s t u. apply str_leb_trans. Qed.

#[local] Instance str_le_antisym : AntiSymm (=) str_le.
Proof. intros s t. apply str_leb_antisym. Qed.

Lemma insert_sorted_perm (k : string) (l : list string) :
  insert_sorted k l ≡ₚ k :: l.
Proof.
  induction l as [|x l IH]; simpl; [reflexivity|].
  destruct (str_leb k x); [reflexivity|].
  rewrite IH. apply Permutation_swap.
Qed.

Lemma sort_perm (l : list string) : sort l ≡ₚ l.
Proof.
  induction l as [|x l IH]; simpl; [reflexivity|].
  fold (sort l). rewrite insert_sorted_perm, IH. reflexivity.
Qed.

Lemma insert_sorted_Sorted (k : string) (l : list string) :
  Sorted str_le l -> Sorted str_le (insert_sorted k l).
Proof.
  induction 1 as [|x l Hl IH Hx]; simpl.
  - repeat constructor.
  - destruct (str_leb k x) eqn:Hk.
    + constructor; [constructor; assumption|]. constructor. exact Hk.
    + constructor; [exact IH|].
      assert (str_le x k) as Hxk by (destruct (str_leb_total k x); congruence).
      destruct Hx as [|y l' Hy]; simpl; [repeat constructor; exact Hxk|].
      destruct (str_leb k y); constructor; assumption.
Qed.

Lemma sort_Sorted (l : list string) : Sorted str_le (sort l).
Proof.
  induction l as [|x l IH]; simpl; [constructor|].
  apply insert_sorted_Sorted, IH.
Qed.

(** The sorted array depends on the elements only, not on their order. *)
Lemma sort_permutation_invariant (l1 l2 : list string) :
  l1 ≡ₚ l2 -> sort l1 = sort l2.
Proof.
  intros Hp. apply (Sorted_unique str_le); try apply sort_Sorted.
  rewrite !sort_perm. exact Hp.
Qed.

Lemma insert_index_perm (k : string * N) (l : list (string * N)) :
  insert_index k l ≡ₚ k :: l.
Proof.
  induction l as [|x l IH]; simpl; [reflexivity|].
  destruct (_ <=? _)%N; [reflexivity|].
  rewrite IH. apply Permutation_swap.
Qed.

Lemma keys_perm (o : object) : keys o ≡ₚ o.*1.
Proof.
  unfold keys, index_keys. induction (o.*1) as [|k l IH]; simpl; [reflexivity|].
  unfold is_index. destruct (array_index k) as [n|]; simpl.
  - rewrite insert_index_perm. simpl. f_equiv. exact IH.
  - rewrite <- Permutation_middle. f_equiv. exact IH.
Qed.

Lemma obj_get_elem (o : object) (k : string) (v : param) :
  NoDup o.*1 -> (k, v) ∈ o -> obj_get o k = v.
Proof.
  induction o as [|[k' v'] o IH]; simpl; intros Hnd Hin.
  - inversion Hin.
  - apply NoDup_cons in Hnd as [Hk' Hnd].
    apply elem_of_cons in Hin as [Heq|Hin].
    + injection Heq as <- <-. rewrite String.eqb_refl. reflexivity.
    + destruct (String.eqb_spec k' k) as [->|_]; [|apply IH; assumption].
      exfalso. apply Hk'. apply list_elem_of_fmap. exists (k, v). auto.
Qed.

Lemma obj_get_missing (o : object) (k : string) :
  k ∉ o.*1 -> obj_get o k = PUndefined.
Proof.
  induction o as [|[k' v'] o IH]; simpl; intros Hk; [reflexivity|].
  apply not_elem_of_cons in Hk as [Hne Hk].
  destruct (String.eqb_spec k' k) as [->|_]; [done|apply IH, Hk].
Qed.

(** Property access does not depend on the order of creation. *)
Lemma obj_get_perm (o1 o2 : object) (k : string) :
  NoDup o1.*1 -> o1 ≡ₚ o2 -> obj_get o1 k = obj_get o2 k.
Proof.
  intros Hnd Hp.
  assert (NoDup o2.*1) as Hnd2 by (rewrite <- Hp; exact Hnd).
  destruct (decide (k ∈ o1.*1)) as [Hin|Hout].
  - apply list_elem_of_fmap in Hin as ([k' v] & -> & Hin); simpl.
    rewrite (obj_get_elem o1 k' v Hnd Hin).
    symmetry. apply obj_get_elem; [exact Hnd2|]. rewrite <- Hp. exact Hin.
  - rewrite (obj_get_missing o1 k Hout).
    symmetry. apply obj_get_missing. rewrite <- Hp. exact Hout.
Qed.

Lemma sorted_params_ext (f g : string -> param) (ks : list string) (acc : object) :
  (forall k, f k = g k) ->
  fold_left (fun result key => obj_set result key (f key)) ks acc
  = fold_left (fun result key => obj_set result key (g key)) ks acc.
Proof.
  intros Hfg. revert acc. induction ks as [|k ks IH]; intros acc; simpl; [reflexivity|].
  rewrite Hfg. apply IH.
Qed.

(** C9: for every URL and every two parameter objects holding the same
    bindings, created in any order, getCacheKey returns the same string. *)
Theorem getCacheKey_order_independent (url : string) (params1 params2 : object) :
  NoDup params1.*1 ->
  params1 ≡ₚ params2 ->
  getCacheKey url params1 = getCacheKey url params2.
Proof.
  intros Hnd Hp. unfold getCacheKey.
  rewrite (sort_permutation_invariant (keys params1) (keys params2))
    by (rewrite !keys_perm, Hp; reflexivity).
  rewrite (sorted_params_ext (obj_get params1) (obj_get params2))
    by (intros k; apply obj_get_perm; assumption).
  reflexivity.
Qed.

Lemma getCacheKey_order_independent_witness :
  NoDup Examples.params_a.*1
  /\ Examples.params_a ≡ₚ Examples.params_b
  /\ getCacheKey "/players/weekly-stats" Examples.params_a
     = getCacheKey "/players/weekly-stats" Examples.params_b.
Proof.
  assert (NoDup Examples.params_a.*1) as Hnd
    by (apply (bool_decide_unpack _); vm_compute; exact I).
  assert (Examples.params_a ≡ₚ Examples.params_b) as Hp
    by (apply (bool_decide_unpack _); vm_compute; exact I).
  split; [exact Hnd|]. split; [exact Hp|].
  exact (getCacheKey_order_independent "/players/weekly-stats"
           Examples.params_a Examples.params_b Hnd Hp).
Defined.

Example cache_key_of_query :
  getCacheKey "/players/weekly-stats" Examples.params_a
  = "/players/weekly-stats?page=1&page_size=100&position=QB&season=2024&week=3"
  /\ getCacheKey "/players/weekly-stats" Examples.params_b
     = "/players/weekly-stats?page=1&page_size=100&position=QB&season=2024&week=3".
Proof. split; vm_compute; reflexivity. Qed.

(** Array indices come first, in numeric order, whatever the sort did; the
    values are form-urlencoded. *)
Example cache_key_with_indices :
  getCacheKey "/x"
    [("b", PStr "a b&c/d"); ("10", PInt 1); ("9", PUndefined); ("a", PNull);
     ("01", PBool true); ("B", PInt (-4))]
  = "/x?9=undefined&10=1&01=true&B=-4&a=null&b=a+b%26c%2Fd".
Proof. vm_compute. reflexivity. Qed.

End CacheKeyFacts.

(** ** Week-range aggregation *)

Module AggregateFacts.

Import Aggregate.

Section Exact.

Context (Number : string -> num) (NumberToString : num -> string).

Lemma plus_exact (a : Qc) (v : value num) :
  plus (Fin a) v = Fin (a + stat_value v)%Qc.
Proof. unfold plus. rewrite to_number_or_zero. reflexivity. Qed.

Lemma totals_of_ext (g g' : (Week num -> value num) -> Qc) :
  (forall f, g f = g' f) -> totals_of Number g = totals_of Number g'.
Proof. intros E. unfold totals_of. rewrite !E. reflexivity. Qed.

Lemma add_week_exact (g : (Week num -> value num) -> Qc) (w : option (Week num)) :
  add_week Number (totals_of Number g) w
  = totals_of Number (fun f => (g f + week_value f w)%Qc).
Proof.
  destruct w as [w|]; simpl.
  - unfold totals_of, plus, week_cmp, week_att; simpl.
    rewrite !to_number_or_zero.
    destruct (cmp_att Number w) as [ca|]; simpl.
    + rewrite !to_number_or_zero. reflexivity.
    + change (stat_value VUndefined) with 0%Qc. rewrite !Qcplus_0_r. reflexivity.
  - apply totals_of_ext. intros f. simpl. ring.
Qed.

Lemma fold_weeks_exact (ws : list (option (Week num))) (g : (Week num -> value num) -> Qc) :
  fold_left (add_week Number) ws (totals_of Number g)
  = totals_of Number (fun f => (g f + range_sum f ws)%Qc).
Proof.
  revert g. induction ws as [|w ws IH]; intros g; simpl.
  - apply totals_of_ext. intros f. unfold range_sum; simpl. ring.
  - rewrite add_week_exact, IH. apply totals_of_ext. intros f.
    unfold range_sum; simpl. ring.
Qed.

(** Every running sum is the sum of the weekly values of its stat. *)
Lemma sum_weeks_exact (ws : list (option (Week num))) :
  sum_weeks Number ws = totals_of Number (fun f => range_sum f ws).
Proof.
  unfold sum_weeks.
  change zero_totals with (totals_of Number (fun _ => 0%Qc)).
  rewrite fold_weeks_exact. apply totals_of_ext. intros f. ring.
Qed.

Lemma range_sum_app (f : Week num -> value num) (ws1 ws2 : list (option (Week num))) :
  range_sum f (ws1 ++ ws2) = (range_sum f ws1 + range_sum f ws2)%Qc.
Proof.
  unfold range_sum. induction ws1 as [|w ws1 IH]; simpl; [ring|].
  rewrite IH. ring.
Qed.

Lemma count_positive (n : nat) :
  (0 < n)%nat -> Q2Qc (inject_Z (Z.of_nat n)) <> 0%Qc.
Proof.
  intros Hn E. apply (f_equal this) in E.
  pose proof (this_Q2Qc (inject_Z (Z.of_nat n))) as Hq. rewrite E in Hq.
  unfold Qeq in Hq; simpl in Hq. lia.
Qed.

(** The average is the total divided by the number of games, and the
    literal 0 when there is no game. *)
Lemma average_exact (total : Qc) (n : nat) :
  average (Fin total) n
  = if decide (n = 0%nat) then Fin 0%Qc
    else Fin (total / Q2Qc (inject_Z (Z.of_nat n)))%Qc.
Proof.
  unfold average. destruct n as [|n]; simpl; [reflexivity|].
  destruct (decide (_ = 0%Qc)) as [E|_]; [|reflexivity].
  exfalso. apply (count_positive (S n)); [lia|exact E].
Qed.

Lemma gt_zero_positive (v : value num) :
  gt_zero v = true <-> positive_stat v.
Proof.
  unfold gt_zero, positive_stat; simpl.
  destruct (to_number v) as [|q]; simpl.
  - split; [discriminate|]. intros (q & E & _). discriminate E.
  - rewrite bool_decide_eq_true. split.
    + intros Hq. exists q. auto.
    + intros (q' & E & Hq). injection E as ->. exact Hq.
Qed.



(** A missing week changes no running sum. *)
Lemma sum_weeks_skip_missing (ws1 ws2 : list (option (Week num))) :
  sum_weeks Number (ws1 ++ None :: ws2) = sum_weeks Number (ws1 ++ ws2).
Proof.
  unfold sum_weeks. rewrite !fold_left_app. reflexivity.
Qed.




End Exact.

(** C3 (amended): in every implementation of numbers, binary64 included,
    every total of a returned row (fantasy points, the passing, rushing and
    receiving stats, and the completions and attempts printed in cmpAtt)
    is the running sum of the player's weekly values of that stat over the
    weeks of the response, in their order: it starts at 0, a week that is
    absent adds nothing, and a week that is there adds the number of its
    field, read as 0 when the field is missing, null, false, zero or NaN
    (completions and attempts are added only in a week that has a cmpAtt
    string).  Of the snaps the row carries this sum divided by the number
    of games played (avgSnaps, 0 when no game was played), not the sum.
    In binary64 the running sum of a stat whose weekly numbers are whole,
    with magnitudes that total less than 2^53, is their exact sum; weeks
    of 0.1, 0.2 and 0.3 fantasy points total 0.6000000000000001, which is
    not the double of 0.6. *)
Theorem aggregate_sums_weeks :
  (forall (N : Type) (number : JSNumber N) (Number : string -> N)
          (NumberToString : N -> string) (player : Player N),
      row_totalFpts (aggregate Number NumberToString player)
      = Sums.running_total (Sums.stat week_fpts) (player_weeks player)
      /\ passYds (aggregate Number NumberToString player)
         = Sums.running_total (Sums.stat week_pass_yds) (player_weeks player)
      /\ passTd (aggregate Number NumberToString player)
         = Sums.running_total (Sums.stat week_pass_td) (player_weeks player)
      /\ int (aggregate Number NumberToString player)
         = Sums.running_total (Sums.stat week_int) (player_weeks player)
      /\ rushAtt (aggregate Number NumberToString player)
         = Sums.running_total (Sums.stat week_rush_att) (player_weeks player)
      /\ rushYds (aggregate Number NumberToString player)
         = Sums.running_total (Sums.stat week_rush_yds) (player_weeks player)
      /\ rushTd (aggregate Number NumberToString player)
         = Sums.running_total (Sums.stat week_rush_td) (player_weeks player)
      /\ tgts (aggregate Number NumberToString player)
         = Sums.running_total (Sums.stat week_tgts) (player_weeks player)
      /\ rec (aggregate Number NumberToString player)
         = Sums.running_total (Sums.stat week_rec) (player_weeks player)
      /\ recYds (aggregate Number NumberToString player)
         = Sums.running_total (Sums.stat week_rec_yds) (player_weeks player)
      /\ recTd (aggregate Number NumberToString player)
         = Sums.running_total (Sums.stat week_rec_td) (player_weeks player)
      /\ cmpAtt (aggregate Number NumberToString player)
         = (if num_gt (Sums.running_total (Sums.attempts Number) (player_weeks player))
                 (num_lit 0%Qc)
            then NumberToString
                   (Sums.running_total (Sums.completions Number) (player_weeks player))
                 +:+ "-"
                 +:+ NumberToString
                       (Sums.running_total (Sums.attempts Number) (player_weeks player))
            else "-")
      /\ avgSnaps (aggregate Number NumberToString player)
         = average (Sums.running_total (Sums.stat week_snaps) (player_weeks player))
             (games (aggregate Number NumberToString player))
      /\ (games (aggregate Number NumberToString player) = 0%nat ->
          avgSnaps (aggregate Number NumberToString player) = num_lit 0%Qc)
      /\ (forall f : Week N -> option (value N),
            Sums.running_total f [] = num_lit 0%Qc)
      /\ (forall (f : Week N -> option (value N)) (ws : list (option (Week N)))
                 (w : option (Week N)),
            Sums.running_total f (ws ++ [w])
            = match w with
              | Some week =>
                  match f week with
                  | Some v => num_add (Sums.running_total f ws) (Sums.stat_number v)
                  | None => Sums.running_total f ws
                  end
              | None => Sums.running_total f ws
              end)
      /\ (forall (f : Week N -> option (value N)) (ws1 ws2 : list (option (Week N))),
            Sums.running_total f (ws1 ++ None :: ws2) = Sums.running_total f (ws1 ++ ws2))
      /\ Sums.stat_number VUndefined = num_lit 0%Qc
      /\ Sums.stat_number VNull = num_lit 0%Qc
      /\ (forall x : N,
            Sums.stat_number (VNum x) = if num_truthy x then x else num_lit 0%Qc))
  /\ (forall (f : Week float -> option (value float))
             (ws : list (option (Week float))) (zs : list Z),
        Sums.week_terms f ws = List.map Binary64.of_Z zs ->
        Ieee.magnitude zs < 2 ^ 53 ->
        Sums.running_total f ws = Binary64.of_Z (Ieee.total zs))
  /\ (forall a : Z,
        Z.abs a < 2 ^ 53 ->
        Sums.stat_number (VNum (Binary64.of_Z a)) = Binary64.of_Z a)
  /\ row_totalFpts
       (aggregate (N := float) Examples.decimal_Number Examples.no_ToString
          SumExamples.tenths_up)
     = 0x1.3333333333334p-1%float
  /\ PrimFloat.eqb 0x1.3333333333334p-1%float (Binary64.lit (dec 6 10)) = false.
Proof.
  split; [|split;
    [intros f ws zs Hz Hb;
     exact (proj1 (Binary64Facts.running_total_whole f ws ws zs
                     (Permutation_refl ws) Hz Hb))
    |split; [apply Binary64Facts.whole_stat|split; reflexivity]]].
  intros N number Number NumberToString player.
  unfold aggregate; cbn [row_totalFpts passYds passTd int rushAtt rushYds rushTd
                          tgts rec recYds recTd cmpAtt avgSnaps games].
  unfold sum_weeks. rewrite SumFacts.fold_weeks.
  cbn [totalFpts totalSnaps totalPassYds totalPassTd totalInt totalCmp totalAtt
       totalRushAtt totalRushYds totalRushTd totalTgts totalRec totalRecYds
       totalRecTd zero_totals].
  do 13 (split; [reflexivity|]).
  split; [intros Hg; unfold average; rewrite Hg; reflexivity|].
  split; [reflexivity|].
  split; [|split; [|repeat split]].
  - intros f ws w. unfold Sums.running_total.
    rewrite SumFacts.week_terms_app.
    unfold Sums.week_terms at 2; simpl.
    destruct w as [week|]; simpl.
    + destruct (f week) as [v|]; simpl.
      * apply SumFacts.running_sum_snoc.
      * rewrite app_nil_r. reflexivity.
    + rewrite app_nil_r. reflexivity.
  - intros f ws1 ws2. unfold Sums.running_total.
    rewrite !SumFacts.week_terms_app. reflexivity.
Qed.

Lemma aggregate_sums_weeks_witness :
  Sums.week_terms (Sums.stat week_rush_yds) (player_weeks (Examples.back (N := float)))
  = List.map Binary64.of_Z [95; 0; 47]
  /\ Ieee.magnitude [95; 0; 47] < 2 ^ 53
  /\ rushYds
       (aggregate (N := float) Examples.decimal_Number Examples.no_ToString
          Examples.back)
     = Binary64.of_Z (Ieee.total [95; 0; 47]).
Proof.
  assert (Sums.week_terms (Sums.stat week_rush_yds)
            (player_weeks (Examples.back (N := float)))
          = List.map Binary64.of_Z [95; 0; 47]) as Hz by reflexivity.
  assert (Ieee.magnitude [95; 0; 47] < 2 ^ 53) as Hb by reflexivity.
  split; [exact Hz|]. split; [exact Hb|].
  destruct (proj1 aggregate_sums_weeks float _ Examples.decimal_Number
              Examples.no_ToString Examples.back)
    as (_ & _ & _ & _ & _ & -> & _).
  exact (proj1 (proj2 aggregate_sums_weeks) _ _ _ Hz Hb).
Defined.

(** The binary64 totals are rounded at every week: weeks of 0.1, 0.2 and
    0.3 fantasy points total 0.6000000000000001, and 0.6 when they are
    listed backwards. *)
Example totals_are_rounded_binary64 :
  row_totalFpts
    (aggregate (N := float) Examples.decimal_Number Examples.no_ToString
       SumExamples.tenths_up)
  = 0x1.3333333333334p-1%float
  /\ row_totalFpts
       (aggregate (N := float) Examples.decimal_Number Examples.no_ToString
          SumExamples.tenths_down)
     = 0x1.3333333333333p-1%float
  /\ Binary64.lit (dec 6 10) = 0x1.3333333333333p-1%float.
Proof. repeat split. Qed.

(** C3, as stated, fails for the snaps: the row of a back with 41 and 35
    snaps in the two active weeks carries their average, 38, and none of
    its numbers is their total, 76; so it is in binary64. *)
Lemma row_carries_no_snaps_total :
  range_sum week_snaps (player_weeks Examples.back) = dec 76 1
  /\ avgSnaps (aggregate Examples.decimal_Number Examples.integer_ToString Examples.back)
     = Fin (dec 38 1)
  /\ Forall (fun x : num => x <> Fin (dec 76 1))
       (let row :=
          aggregate Examples.decimal_Number Examples.integer_ToString Examples.back in
        [avgFpts row; row_totalFpts row; avgSnaps row; passYds row; passTd row;
         int row; rushAtt row; rushYds row; rushTd row; tgts row; rec row;
         recYds row; recTd row])
  /\ Sums.running_total (N := float) (Sums.stat week_snaps)
       (player_weeks Examples.back) = 76%float
  /\ List.map (fun x : float => PrimFloat.eqb x 76)
       (let row :=
          aggregate (N := float) Examples.decimal_Number Examples.no_ToString
            Examples.back in
        [avgFpts row; row_totalFpts row; avgSnaps row; passYds row; passTd row;
         int row; rushAtt row; rushYds row; rushTd row; tgts row; rec row;
         recYds row; recTd row])
     = [false; false; false; false; false; false; false; false; false; false;
        false; false; false].
Proof.
  split; [apply Qc_eq_this; vm_compute; reflexivity|].
  split; [vm_compute; apply (f_equal Fin), Qc_eq_this; reflexivity|].
  split; [vm_compute; repeat constructor; intros E; inversion E|].
  split; vm_compute; reflexivity.
Qed.

(** The table row of a back with two active weeks, a missing week and an
    idle week. *)
Example back_row :
  let row := aggregate Examples.decimal_Number Examples.integer_ToString Examples.back in
  games row = 2%nat
  /\ row_totalFpts row = Fin (dec 26 1)
  /\ avgFpts row = Fin (dec 13 1)
  /\ cmpAtt row = "1-2"%string
  /\ rushYds row = Fin (dec 142 1)
  /\ recTd row = Fin 0%Qc.
Proof.
  vm_compute.
  repeat split; try reflexivity; apply (f_equal Fin), Qc_eq_this; reflexivity.
Qed.

(** The same row in binary64. *)
Example back_row_binary64 :
  let row := aggregate (N := float) Examples.decimal_Number Examples.no_ToString Examples.back in
  games row = 2%nat
  /\ row_totalFpts row = 26%float
  /\ avgFpts row = 13%float
  /\ avgSnaps row = 38%float
  /\ passYds row = 20%float
  /\ rushAtt row = 29%float
  /\ rushYds row = 142%float
  /\ rushTd row = 1%float
  /\ recYds row = 30%float
  /\ recTd row = 0%float.
Proof. vm_compute. repeat split. Qed.

(** A player without an active week: no game, and averages 0. *)
Example benched_row_binary64 :
  let row := aggregate (N := float) Examples.decimal_Number Examples.no_ToString Examples.benched in
  games row = 0%nat
  /\ row_totalFpts row = 0%float
  /\ avgFpts row = 0%float
  /\ avgSnaps row = 0%float
  /\ cmpAtt row = "-"%string.
Proof. vm_compute. repeat split. Qed.

End AggregateFacts.

(** ** The response cache: round trip, independence of entries, invariant *)

Module CacheFrameFacts.

Import ApiCache CacheFrame.

Section WithRuntime.

Context `{Runtime}.

Lemma step_foreign (key : string) (c : ApiCache.t) (o : op) :
  touches key o = false ->
  cache (step c o) !! key = cache c !! key
  /\ timestamps (step c o) !! key = timestamps c !! key.
Proof.
  destruct o as [k now|k v now|]; simpl; intros Ho; try discriminate.
  - apply bool_decide_eq_false in Ho. unfold get.
    destruct (stale _ _); simpl; [|auto].
    rewrite !lookup_delete_ne by done. auto.
  - apply bool_decide_eq_false in Ho.
    rewrite !lookup_insert_ne by done. auto.
Qed.

Lemma run_foreign (key : string) (ops : list op) (c : ApiCache.t) :
  foreign key ops ->
  cache (run ops c) !! key = cache c !! key
  /\ timestamps (run ops c) !! key = timestamps c !! key.
Proof.
  intros Hops. revert c.
  induction Hops as [|o ops Ho _ IH]; intros c; simpl; [auto|].
  destruct (IH (step c o)) as [-> ->]. apply step_foreign, Ho.
Qed.

(** X2: gets and sets under other keys do not change what a get of [key]
    returns: entries are independent of each other. *)
Theorem entries_are_independent (key : string) (now : Z) (ops : list op)
    (c : ApiCache.t) :
  foreign key ops ->
  (get key now (run ops c)).1 = (get key now c).1.
Proof.
  intros Hops. destruct (run_foreign key ops c Hops) as [Hc Ht].
  unfold get. rewrite Ht. destruct (stale _ _); simpl; [reflexivity|exact Hc].
Qed.

(** X1: a body stored under [key] at a nonzero time is returned by every get
    of [key] made no more than the TTL later, whatever was read or stored
    under other keys in between, and that get changes nothing in the
    cache. *)
Theorem stored_body_is_served (c : ApiCache.t) (key : string) (value : Data)
    (t_set t_get : Z) (ops : list op) :
  foreign key ops ->
  t_set <> 0 ->
  t_get - t_set <= CACHE_TTL ->
  get key t_get (run ops (set key value t_set c))
  = (Some value, run ops (set key value t_set c)).
Proof.
  intros Hops Hnz Hle.
  destruct (run_foreign key ops (set key value t_set c) Hops) as [Hc Ht].
  assert (cache (set key value t_set c) !! key = Some value) as Hc0
    by apply lookup_insert_eq.
  assert (timestamps (set key value t_set c) !! key = Some t_set) as Ht0
    by apply lookup_insert_eq.
  rewrite Hc0 in Hc. rewrite Ht0 in Ht.
  unfold get. rewrite Ht, Hc. simpl.
  replace (t_set =? 0) with false by (symmetry; apply Z.eqb_neq; exact Hnz).
  replace (CACHE_TTL <? t_get - t_set) with false
    by (symmetry; apply Z.ltb_ge; exact Hle).
  reflexivity.
Qed.

Lemma consistent_step (c : ApiCache.t) (o : op) :
  consistent c -> consistent (step c o).
Proof.
  intros Hc key. destruct o as [k now|k v now|]; simpl.
  - unfold get. destruct (stale _ _); simpl; [|apply Hc].
    destruct (decide (k = key)) as [->|Hne].
    + rewrite !lookup_delete_eq. split; intros [? ?]; discriminate.
    + rewrite !lookup_delete_ne by done. apply Hc.
  - destruct (decide (k = key)) as [->|Hne].
    + rewrite !lookup_insert_eq. split; eauto.
    + rewrite !lookup_insert_ne by done. apply Hc.
  - rewrite !lookup_empty. split; intros [? ?]; discriminate.
Qed.

Lemma consistent_run (ops : list op) (c : ApiCache.t) :
  consistent c -> consistent (run ops c).
Proof.
  revert c. induction ops as [|o ops IH]; intros c Hc; simpl; [exact Hc|].
  apply IH, consistent_step, Hc.
Qed.

(** X3: in every state the cache reaches from [new ApiCache()], the two maps
    hold the same keys; so a get that finds a timestamp that is not stale
    returns a body, never the undefined of a missing map entry. *)
Theorem maps_stay_in_step (ops : list op) :
  consistent (run ops new)
  /\ (forall (key : string) (now : Z),
        stale (timestamps (run ops new) !! key) now = false ->
        is_Some (get key now (run ops new)).1).
Proof.
  assert (consistent (run ops new)) as Hc.
  { apply consistent_run. intros key. simpl. rewrite !lookup_empty.
    split; intros [? ?]; discriminate. }
  split; [exact Hc|].
  intros key now Hfresh. unfold get. rewrite Hfresh. simpl.
  apply Hc. destruct (timestamps (run ops new) !! key); [eauto|discriminate].
Qed.

Lemma recorded_weaken (done : list op) (o : op) (c : ApiCache.t) :
  recorded done c -> recorded (done ++ [o]) c.
Proof.
  intros Hc key. specialize (Hc key).
  destruct (timestamps c !! key), (cache c !! key); try exact Hc.
  apply elem_of_app. left. exact Hc.
Qed.

Lemma recorded_step (done : list op) (o : op) (c : ApiCache.t) :
  recorded done c -> recorded (done ++ [o]) (step c o).
Proof.
  intros Hc. destruct o as [k now|k v now|]; simpl.
  - unfold get. destruct (stale _ _); simpl; [|apply recorded_weaken, Hc].
    intros key. simpl. destruct (decide (k = key)) as [->|Hne].
    + rewrite !lookup_delete_eq. exact I.
    + rewrite !lookup_delete_ne by done.
      apply (recorded_weaken done (Get k now) c Hc key).
  - intros key. simpl. destruct (decide (k = key)) as [->|Hne].
    + rewrite !lookup_insert_eq. apply elem_of_app. right. left.
    + rewrite !lookup_insert_ne by done.
      apply (recorded_weaken done (Set_ k v now) c Hc key).
  - intros key. simpl. rewrite !lookup_empty. exact I.
Qed.

Lemma recorded_run (ops done : list op) (c : ApiCache.t) :
  recorded done c -> recorded (done ++ ops) (run ops c).
Proof.
  revert done c. induction ops as [|o ops IH]; intros done c Hc; simpl.
  - rewrite app_nil_r. exact Hc.
  - replace (done ++ o :: ops) with ((done ++ [o]) ++ ops)
      by (rewrite <- app_assoc; reflexivity).
    apply IH, recorded_step, Hc.
Qed.

(** X21: the cache never serves what it was not given, nor anything older
    than the TTL: after any sequence of uses of a new cache, a body
    returned by a get was stored under that key by one of the sets of the
    sequence, at a nonzero time no more than the TTL before the get. *)
Theorem served_body_was_stored_recently (ops : list op) (key : string)
    (now : Z) (d : Data) :
  (get key now (run ops new)).1 = Some d ->
  exists ts : Z, Set_ key d ts ∈ ops /\ ts <> 0 /\ now - ts <= CACHE_TTL.
Proof.
  intros Hget.
  pose proof (recorded_run ops [] new) as Hrec. simpl in Hrec.
  assert (recorded [] new) as Hnew
    by (intros k; simpl; rewrite !lookup_empty; exact I).
  specialize (Hrec Hnew key).
  revert Hget. unfold get.
  destruct (timestamps (run ops new) !! key) as [ts|] eqn:Hts; simpl;
    [|discriminate].
  destruct (Z.eqb_spec ts 0) as [_|Hnz]; simpl; [discriminate|].
  destruct (Z.ltb_spec CACHE_TTL (now - ts)) as [_|Hle]; simpl; [discriminate|].
  intros Hc. rewrite Hc in Hrec. exists ts. auto.
Qed.

End WithRuntime.

#[local] Existing Instance rows_runtime.

Lemma served_body_was_stored_recently_witness :
  (get "k" 5000 (run [Set_ "k" Examples.seasons_body 1000] new)).1
  = Some Examples.seasons_body
  /\ exists ts : Z,
       Set_ "k" Examples.seasons_body ts ∈ [Set_ "k" Examples.seasons_body 1000]
       /\ ts <> 0 /\ 5000 - ts <= CACHE_TTL.
Proof.
  assert ((get "k" 5000 (run [Set_ "k" Examples.seasons_body 1000] new)).1
          = Some Examples.seasons_body) as Hget by (vm_compute; reflexivity).
  split; [exact Hget|].
  exact (served_body_was_stored_recently [Set_ "k" Examples.seasons_body 1000]
           "k" 5000 Examples.seasons_body Hget).
Defined.

Lemma entries_are_independent_witness :
  foreign "/data/seasons?" Examples.other_uses
  /\ (get "/data/seasons?" 5000
        (run Examples.other_uses
           (set "/data/seasons?" Examples.seasons_body 1000 new))).1
     = (get "/data/seasons?" 5000
          (set "/data/seasons?" Examples.seasons_body 1000 new)).1.
Proof.
  split; [repeat constructor|].
  apply (entries_are_independent "/data/seasons?" 5000 Examples.other_uses).
  repeat constructor.
Defined.

Lemma stored_body_is_served_witness :
  foreign "/data/seasons?" Examples.other_uses
  /\ 1000 <> 0
  /\ 301000 - 1000 <= CACHE_TTL
  /\ (get "/data/seasons?" 301000
        (run Examples.other_uses
           (set "/data/seasons?" Examples.seasons_body 1000 new))).1
     = Some Examples.seasons_body.
Proof.
  split; [repeat constructor|].
  split; [discriminate|].
  split; [vm_compute; discriminate|].
  rewrite (stored_body_is_served new "/data/seasons?" Examples.seasons_body
             1000 301000 Examples.other_uses).
  - reflexivity.
  - repeat constructor.
  - discriminate.
  - vm_compute; discriminate.
Defined.

End CacheFrameFacts.

(** ** Requests: what is stored, what is served again *)

Module RequestFacts.

Import Api ApiCache Service ApiService CacheFrame.

Section WithRuntime.

Context `{Runtime}.

Lemma get_other_key (key key' : string) (now : Z) (c : ApiCache.t) :
  key' <> key ->
  cache (get key now c).2 !! key' = cache c !! key'
  /\ timestamps (get key now c).2 !! key' = timestamps c !! key'.
Proof.
  intros Hne. unfold get. destruct (stale _ _); simpl; [|auto].
  rewrite !lookup_delete_ne by done. auto.
Qed.

Lemma get_keeps_or_evicts (key : string) (now : Z) (c : ApiCache.t) :
  forall (key' : string) (d : Data),
    cache (get key now c).2 !! key' = Some d -> cache c !! key' = Some d.
Proof.
  intros key' d. unfold get. destruct (stale _ _); simpl; [|auto].
  intros Hd. apply lookup_delete_Some in Hd as [_ Hd]. exact Hd.
Qed.

(** X4: a request changes the cache at most under its own cache key; without
    [useCache] it does not change the cache at all; and unless its GET is
    fulfilled with status 200 it adds no entry (a failed request or a
    response with another status is never cached). *)
Theorem apiRequest_stores_only_success (url : string) (params : object)
    (useCache : bool) (now later : Z) (net : Settled) (c : ApiCache.t) :
  (forall key : string, key <> getCacheKey url params ->
     cache (apiRequest url params useCache now later net c).1.2 !! key
     = cache c !! key
     /\ timestamps (apiRequest url params useCache now later net c).1.2 !! key
        = timestamps c !! key)
  /\ (useCache = false ->
      apiRequest url params useCache now later net c = (network_answer net, c, true))
  /\ ((forall response : Response, net = Fulfilled response -> status response <> 200) ->
      forall (key : string) (d : Data),
        cache (apiRequest url params useCache now later net c).1.2 !! key = Some d ->
        cache c !! key = Some d).
Proof.
  unfold apiRequest.
  destruct useCache; simpl.
  - destruct (get (getCacheKey url params) now c) as [cached c1] eqn:Hget.
    assert (c1 = (get (getCacheKey url params) now c).2) as Hc1
      by (rewrite Hget; reflexivity).
    split; [|split; [discriminate|]].
    + intros key Hne.
      destruct (get_other_key (getCacheKey url params) key now c Hne) as [Hc Ht].
      rewrite <- Hc1 in Hc, Ht.
      destruct (match cached with
                | Some d => if data_truthy d then Some d else None
                | None => None
                end); simpl; [auto|].
      destruct (response_interceptor net) as [e|r]; simpl; [auto|].
      destruct (status r =? 200); simpl; [|auto].
      rewrite !lookup_insert_ne by done. auto.
    + intros Hnot key d.
      pose proof (get_keeps_or_evicts (getCacheKey url params) now c key d) as Hk.
      rewrite <- Hc1 in Hk.
      destruct (match cached with
                | Some d => if data_truthy d then Some d else None
                | None => None
                end); simpl; [exact Hk|].
      destruct net as [r|e]; simpl.
      * destruct (Z.eqb_spec (status r) 200) as [E|_]; simpl; [|exact Hk].
        destruct (Hnot r eq_refl E).
      * repeat (match goal with
                | |- context [if ?b then _ else _] => destruct b
                end; simpl; try exact Hk).
  - split; [|split].
    + intros key _. destruct (response_interceptor net); simpl; auto.
    + intros _. unfold network_answer.
      destruct (response_interceptor net); reflexivity.
    + intros _ key d. destruct (response_interceptor net); simpl; auto.
Qed.

(** X5: when a request reaches the network and its GET is fulfilled with
    status 200 and a truthy body, stored at a nonzero time, the same
    request repeated no more than the TTL later is answered from the cache
    with that body: no GET is made, and the cache is left as it is. *)
Theorem repeated_request_is_served_from_cache (url : string) (params : object)
    (now later now2 later2 : Z) (response : Response) (net2 : Settled)
    (c : ApiCache.t) :
  (apiRequest url params true now later (Fulfilled response) c).2 = true ->
  status response = 200 ->
  data_truthy (data response) = true ->
  later <> 0 ->
  now2 - later <= CACHE_TTL ->
  apiRequest url params true now2 later2 net2
    (apiRequest url params true now later (Fulfilled response) c).1.2
  = (inr (data response),
     (apiRequest url params true now later (Fulfilled response) c).1.2,
     false).
Proof.
  intros Hnet Hst Hd Hnz Hle.
  assert ((apiRequest url params true now later (Fulfilled response) c).1.2
          = set (getCacheKey url params) (data response) later
              (get (getCacheKey url params) now c).2) as Hc.
  { revert Hnet. unfold apiRequest. simpl.
    destruct (get (getCacheKey url params) now c) as [cached c1]; simpl.
    destruct (match cached with
              | Some d => if data_truthy d then Some d else None
              | None => None
              end); simpl; [discriminate|].
    intros _. rewrite Hst. reflexivity. }
  rewrite Hc. unfold apiRequest at 1. simpl.
  rewrite (CacheFacts.get_fresh _ _ _ later now2 Hnz Hle). rewrite Hd. reflexivity.
Qed.

(** X6: loadSeasonData and clearCache clear the cache when their call is
    fulfilled, so that every request made next goes to the network; when
    the call is rejected they throw what the response interceptor made of
    the error and leave the cache as it was. *)
Theorem mutating_calls_clear_on_success (call : Settled) (c : ApiCache.t) :
  loadSeasonData call c = clearCache call c
  /\ loadSeasonData call c = refreshData call c
  /\ (forall response : Response, call = Fulfilled response ->
        loadSeasonData call c = (inr (data response), new)
        /\ forall (url : string) (params : object) (now later : Z) (net : Settled),
             (apiRequest url params true now later net (loadSeasonData call c).2).2
             = true
             /\ (apiRequest url params true now later net
                   (loadSeasonData call c).2).1.1 = network_answer net)
  /\ (forall e : AxiosError, call = Rejected e ->
        loadSeasonData call c = (inl (thrown_for e), c)).
Proof.
  split; [reflexivity|]. split; [reflexivity|]. split.
  - intros response ->. split; [reflexivity|].
    intros url params now later net.
    apply (ServiceFacts.apiRequest_empty_cache url params true now later net).
  - intros e ->. unfold loadSeasonData, thrown_for.
    destruct (response_interceptor (Rejected e)) as [err|r] eqn:E; [reflexivity|].
    simpl in E.
    repeat (match type of E with
            | context [if ?b then _ else _] => destruct b
            end; try discriminate E).
Qed.

(** X7: healthCheck never throws: it returns the body when the GET of
    /health is fulfilled, and otherwise the unhealthy object whose error is
    the message of what the response interceptor threw: "Data not found"
    for a 404, "Server error. Please try again later." for a status of 500
    or more. *)
Theorem healthCheck_never_throws (net : Settled) :
  (exists h : Health, healthCheck net = inr h)
  /\ (forall response : Response, net = Fulfilled response ->
        healthCheck net = inr (Body (data response)))
  /\ (forall e : AxiosError, net = Rejected e ->
        healthCheck net = inr (Unhealthy (thrown_message (thrown_for e))))
  /\ (forall e : AxiosError, net = Rejected e -> response_status e = Some 404 ->
        healthCheck net = inr (Unhealthy "Data not found"))
  /\ (forall (e : AxiosError) (st : Z), net = Rejected e ->
        response_status e = Some st -> 500 <= st ->
        healthCheck net = inr (Unhealthy "Server error. Please try again later."))
  /\ (forall (e : AxiosError) (st : Z), net = Rejected e ->
        response_status e = Some st -> st <> 404 -> st < 500 ->
        code e <> Some "ECONNABORTED"%string ->
        healthCheck net = inr (Unhealthy (message e))).
Proof.
  assert (forall e, healthCheck (Rejected e)
                    = inr (Unhealthy (thrown_message (thrown_for e)))) as Hrej.
  { intros e. unfold healthCheck, thrown_for.
    destruct (response_interceptor (Rejected e)) as [err|r] eqn:E; [reflexivity|].
    simpl in E.
    repeat (match type of E with
            | context [if ?b then _ else _] => destruct b
            end; try discriminate E). }
  split; [|split; [|split; [|split; [|split]]]].
  - unfold healthCheck. destruct (response_interceptor net); eauto.
  - intros response ->. reflexivity.
  - intros e ->. apply Hrej.
  - intros e -> He. rewrite Hrej. unfold thrown_for; simpl. rewrite He. reflexivity.
  - intros e st -> He Hst. rewrite Hrej. unfold thrown_for; simpl. rewrite He.
    case_bool_decide as H404; [injection H404 as ->; lia|].
    replace (500 <=? st) with true by (symmetry; apply Z.leb_le; exact Hst).
    reflexivity.
  - intros e st -> He H404 Hst Hc. rewrite Hrej. unfold thrown_for; simpl.
    rewrite He. rewrite bool_decide_eq_false_2 by congruence.
    replace (500 <=? st) with false by (symmetry; apply Z.leb_gt; exact Hst).
    rewrite bool_decide_eq_false_2 by exact Hc. reflexivity.
Qed.

(** X22: a cached body that is falsy (0, the empty string, false, null) is
    never served: a request that finds it goes to the network and returns
    the answer of the network. *)
Theorem falsy_body_is_never_served (url : string) (params : object)
    (now later : Z) (net : Settled) (c : ApiCache.t) (d : Data) :
  (get (getCacheKey url params) now c).1 = Some d ->
  data_truthy d = false ->
  (apiRequest url params true now later net c).2 = true
  /\ (apiRequest url params true now later net c).1.1 = network_answer net.
Proof.
  intros Hget Hd. unfold apiRequest, network_answer. simpl.
  destruct (get (getCacheKey url params) now c) as [cached c1].
  simpl in Hget. subst cached. rewrite Hd.
  destruct (response_interceptor net); simpl; auto.
Qed.

End WithRuntime.

#[local] Existing Instance rows_runtime.

Lemma falsy_body_is_never_served_witness :
  (get (H := number_runtime) (getCacheKey "/players/count" []) 2000
     zero_cached).1 = Some (0 : Z)
  /\ data_truthy (Runtime := number_runtime) 0 = false
  /\ (apiRequest (H := number_runtime) "/players/count" [] true 2000 2100
        (Fulfilled count_response) zero_cached).1.1 = inr seven.
Proof.
  assert ((get (H := number_runtime) (getCacheKey "/players/count" []) 2000
             zero_cached).1 = Some (0 : Z)) as Hget
    by (vm_compute; reflexivity).
  split; [exact Hget|]. split; [reflexivity|].
  rewrite (proj2 (falsy_body_is_never_served (H := number_runtime)
                    "/players/count" [] 2000 2100 _ zero_cached 0
                    Hget eq_refl)).
  reflexivity.
Defined.

Lemma repeated_request_is_served_from_cache_witness :
  (apiRequest "/data/seasons" [] true 1000 1200
     (Fulfilled seasons_response) new).2 = true
  /\ status seasons_response = 200
  /\ data_truthy (data seasons_response) = true
  /\ 1200 <> 0
  /\ 2000 - 1200 <= CACHE_TTL
  /\ (apiRequest "/data/seasons" [] true 2000 2100
        (Rejected {| response_status := Some 503; code := None;
                     message := "Request failed with status code 503" |})
        (apiRequest "/data/seasons" [] true 1000 1200
           (Fulfilled seasons_response) new).1.2).1.1
     = inr Examples.seasons_body.
Proof.
  assert ((apiRequest "/data/seasons" [] true 1000 1200
             (Fulfilled seasons_response) new).2 = true) as H1
    by (vm_compute; reflexivity).
  assert (2000 - 1200 <= CACHE_TTL) as H5 by (vm_compute; discriminate).
  split; [exact H1|]. split; [reflexivity|]. split; [reflexivity|].
  split; [discriminate|]. split; [exact H5|].
  rewrite (repeated_request_is_served_from_cache "/data/seasons" [] 1000 1200
             2000 2100 seasons_response _ new H1 eq_refl eq_refl
             ltac:(discriminate) H5).
  reflexivity.
Defined.

End RequestFacts.

(** ** The parameters of the query methods *)

Module ParamsFacts.

Import Api ApiService.

Lemma obj_delete_filter (o : object) (k : string) :
  NoDup o.*1 ->
  obj_delete o k = List.filter (fun kv => negb (String.eqb kv.1 k)) o.
Proof.
  induction o as [|[k' v] o IH]; simpl; intros Hnd; [reflexivity|].
  apply NoDup_cons in Hnd as [Hk' Hnd].
  destruct (String.eqb_spec k' k) as [->|Hne]; simpl.
  - symmetry. apply forallb_filter_id. apply forallb_forall. intros [k1 v1] Hin.
    simpl. destruct (String.eqb_spec k1 k) as [->|_]; [|reflexivity].
    exfalso. apply Hk'. apply list_elem_of_fmap. exists (k, v1).
    split; [reflexivity|]. apply list_elem_of_In. exact Hin.
  - f_equal. apply IH, Hnd.
Qed.

Lemma filter_NoDup_keys (P : string * param -> bool) (o : object) :
  NoDup o.*1 -> NoDup (List.filter P o).*1.
Proof.
  induction o as [|[k v] o IH]; simpl; intros Hnd; [constructor|].
  apply NoDup_cons in Hnd as [Hk Hnd].
  destruct (P (k, v)); simpl; [|apply IH, Hnd].
  apply NoDup_cons. split; [|apply IH, Hnd].
  intros Hin. apply Hk. apply list_elem_of_fmap in Hin as ([k1 v1] & -> & Hin).
  apply list_elem_of_fmap. exists (k1, v1). split; [reflexivity|].
  apply list_elem_of_In in Hin. apply List.filter_In in Hin as [Hin _].
  apply list_elem_of_In. exact Hin.
Qed.

Lemma filter_twice {A : Type} (P Q : A -> bool) (l : list A) :
  List.filter P (List.filter Q l) = List.filter (fun x => Q x && P x) l.
Proof.
  induction l as [|x l IH]; simpl; [reflexivity|].
  destruct (Q x); simpl; [|exact IH].
  destruct (P x); [f_equal|]; exact IH.
Qed.

(** One step of the loop removes the binding of [k] when it is unset. *)
Lemma remove_step (o : object) (k : string) :
  NoDup o.*1 ->
  (if is_unset (obj_get o k) then obj_delete o k else o)
  = List.filter (fun kv => negb (String.eqb kv.1 k && is_unset kv.2)) o.
Proof.
  intros Hnd. destruct (is_unset (obj_get o k)) eqn:Hu.
  - rewrite obj_delete_filter by exact Hnd.
    apply List.filter_ext_in. intros [k1 v1] Hin. simpl.
    destruct (String.eqb_spec k1 k) as [->|_]; [|reflexivity].
    apply list_elem_of_In in Hin.
    rewrite <- (CacheKeyFacts.obj_get_elem o k v1 Hnd Hin), Hu. reflexivity.
  - symmetry. apply forallb_filter_id. apply forallb_forall. intros [k1 v1] Hin.
    simpl. destruct (String.eqb_spec k1 k) as [->|_]; [|reflexivity].
    apply list_elem_of_In in Hin.
    rewrite <- (CacheKeyFacts.obj_get_elem o k v1 Hnd Hin), Hu. reflexivity.
Qed.

Lemma remove_loop (ks : list string) (o : object) :
  NoDup o.*1 ->
  fold_left
    (fun params key =>
       if is_unset (obj_get params key) then obj_delete params key else params)
    ks o
  = List.filter (fun kv => negb (bool_decide (kv.1 ∈ ks) && is_unset kv.2)) o.
Proof.
  revert o. induction ks as [|k ks IH]; intros o Hnd; cbn [fold_left].
  - symmetry. apply forallb_filter_id. apply forallb_forall. intros kv _.
    rewrite (bool_decide_eq_false_2 (kv.1 ∈ [])); [reflexivity|].
    apply not_elem_of_nil.
  - rewrite remove_step by exact Hnd.
    rewrite IH by (apply filter_NoDup_keys, Hnd).
    rewrite filter_twice. apply List.filter_ext. intros [k1 v1].
    cbn [fst snd].
    destruct (String.eqb_spec k1 k) as [->|Hne]; cbn [andb negb].
    + rewrite (bool_decide_eq_true_2 (k ∈ k :: ks)) by (left).
      destruct (is_unset v1); simpl; [|rewrite andb_false_r]; reflexivity.
    + f_equal. f_equal. apply bool_decide_ext.
      rewrite elem_of_cons. split; [auto|intros [?|?]; [done|auto]].
Qed.

Lemma remove_unset_is_filter (params : object) :
  NoDup params.*1 ->
  remove_unset params = List.filter (fun kv => negb (is_unset kv.2)) params.
Proof.
  intros Hnd. unfold remove_unset. rewrite remove_loop by exact Hnd.
  apply List.filter_ext_in. intros [k v] Hin. cbn [fst snd].
  rewrite (bool_decide_eq_true_2 (k ∈ keys params)); [reflexivity|].
  rewrite CacheKeyFacts.keys_perm. apply list_elem_of_fmap. exists (k, v).
  split; [reflexivity|]. apply list_elem_of_In. exact Hin.
Qed.

Lemma obj_get_filter_unset (o : object) (k : string) :
  NoDup o.*1 ->
  obj_get (List.filter (fun kv => negb (is_unset kv.2)) o) k
  = if is_unset (obj_get o k) then PUndefined else obj_get o k.
Proof.
  induction o as [|[k1 v1] o IH]; simpl; intros Hnd; [reflexivity|].
  apply NoDup_cons in Hnd as [Hk1 Hnd].
  destruct (String.eqb_spec k1 k) as [->|Hne].
  - destruct (is_unset v1) eqn:Hu; simpl.
    + apply CacheKeyFacts.obj_get_missing. intros Hin. apply Hk1.
      apply list_elem_of_fmap in Hin as ([k2 v2] & -> & Hin).
      apply list_elem_of_fmap. exists (k2, v2). split; [reflexivity|].
      apply list_elem_of_In in Hin. apply List.filter_In in Hin as [Hin _].
      apply list_elem_of_In. exact Hin.
    + rewrite String.eqb_refl. reflexivity.
  - destruct (is_unset v1); simpl.
    + apply IH, Hnd.
    + destruct (String.eqb_spec k1 k) as [E|_]; [destruct (Hne E)|apply IH, Hnd].
Qed.

(** X8: on an object with distinct keys, the loop "Remove undefined values"
    removes exactly the parameters whose value is undefined or the string
    'all' and keeps the others in their order; reading a parameter
    afterwards gives undefined if it was unset and its value otherwise. *)
Theorem remove_unset_filters (params : object) :
  NoDup params.*1 ->
  remove_unset params = List.filter (fun kv => negb (is_unset kv.2)) params
  /\ NoDup (remove_unset params).*1
  /\ (forall (k : string) (v : param),
        (k, v) ∈ remove_unset params -> (k, v) ∈ params /\ is_unset v = false)
  /\ (forall k : string,
        obj_get (remove_unset params) k
        = if is_unset (obj_get params k) then PUndefined else obj_get params k).
Proof.
  intros Hnd. rewrite remove_unset_is_filter by exact Hnd.
  split; [reflexivity|]. split; [apply filter_NoDup_keys, Hnd|]. split.
  - intros k v Hin. apply list_elem_of_In in Hin.
    apply List.filter_In in Hin as [Hin Hu]. split.
    + apply list_elem_of_In. exact Hin.
    + simpl in Hu. apply negb_true_iff. exact Hu.
  - intros k. apply obj_get_filter_unset, Hnd.
Qed.

Lemma remove_unset_filters_witness :
  NoDup Examples.params_a.*1
  /\ remove_unset (Examples.params_a ++ [("team", PStr "all"); ("player_name", PUndefined)])
     = Examples.params_a.
Proof.
  split; [apply (bool_decide_unpack _); vm_compute; exact I|].
  assert (NoDup (Examples.params_a
                 ++ [("team", PStr "all"); ("player_name", PUndefined)]).*1) as Hnd
    by (apply (bool_decide_unpack _); vm_compute; exact I).
  rewrite (proj1 (remove_unset_filters _ Hnd)). reflexivity.
Defined.

Lemma obj_set_put (o : object) (k : string) (v : param) :
  k <> "__proto__"%string -> obj_set o k v = put o k v.
Proof.
  intros Hk. unfold obj_set.
  destruct (String.eqb_spec k "__proto__") as [E|_]; [destruct (Hk E)|reflexivity].
Qed.

Lemma obj_get_put (o : object) (k k' : string) (v : param) :
  obj_get (put o k v) k' = if String.eqb k k' then v else obj_get o k'.
Proof.
  induction o as [|[k1 v1] o IH]; simpl.
  - destruct (String.eqb k k'); reflexivity.
  - destruct (String.eqb_spec k1 k) as [->|Hne]; simpl.
    + destruct (String.eqb k k'); reflexivity.
    + rewrite IH. destruct (String.eqb_spec k1 k') as [->|_]; [|reflexivity].
      destruct (String.eqb_spec k k') as [E|_]; [destruct (Hne (eq_sym E))|reflexivity].
Qed.

Lemma obj_get_delete (o : object) (k k' : string) :
  NoDup o.*1 ->
  obj_get (obj_delete o k) k' = if String.eqb k k' then PUndefined else obj_get o k'.
Proof.
  induction o as [|[k1 v1] o IH]; simpl; intros Hnd.
  - destruct (String.eqb k k'); reflexivity.
  - apply NoDup_cons in Hnd as [Hk1 Hnd].
    destruct (String.eqb_spec k1 k) as [->|Hne]; simpl.
    + destruct (String.eqb_spec k k') as [E|_]; [|reflexivity].
      rewrite <- E. apply CacheKeyFacts.obj_get_missing, Hk1.
    + rewrite IH by exact Hnd.
      destruct (String.eqb_spec k1 k') as [->|_]; [|reflexivity].
      destruct (String.eqb_spec k k') as [E|_]; [destruct (Hne (eq_sym E))|reflexivity].
Qed.

Lemma literal7_NoDup (a b c d e f g : param) :
  NoDup [("season", a); ("week", b); ("position", c); ("team", d);
         ("player_name", e); ("page", f); ("page_size", g)].*1.
Proof. simpl. apply (bool_decide_unpack _). vm_compute. exact I. Qed.

(** X9: in getWeeklyStats a filter set to 'all' is the same query as a filter
    left out: for week, position, team and player_name, setting the filter
    to 'all' and deleting it give the same parameters, hence the same cache
    key and the same result of the call. *)
Theorem all_means_no_filter `{Runtime} (filters : object) (field : string) :
  NoDup filters.*1 ->
  field ∈ ["week"; "position"; "team"; "player_name"] ->
  weekly_stats_params (obj_set filters field (PStr "all"))
  = weekly_stats_params (obj_delete filters field)
  /\ getCacheKey "/players/weekly-stats"
       (weekly_stats_params (obj_set filters field (PStr "all")))
     = getCacheKey "/players/weekly-stats"
         (weekly_stats_params (obj_delete filters field))
  /\ (forall (now later : Z) (net : Service.Settled) (c : ApiCache.t),
        getWeeklyStats (Some (obj_set filters field (PStr "all"))) now later net c
        = getWeeklyStats (Some (obj_delete filters field)) now later net c).
Proof.
  intros Hnd Hfield.
  assert (weekly_stats_params (obj_set filters field (PStr "all"))
          = weekly_stats_params (obj_delete filters field)) as E.
  { assert (field <> "__proto__"%string) as Hown
      by (intros ->; repeat (apply elem_of_cons in Hfield as [E|Hfield];
                             [discriminate E|]); inversion Hfield).
    rewrite (obj_set_put filters field (PStr "all") Hown).
    unfold weekly_stats_params.
    rewrite !remove_unset_is_filter by apply literal7_NoDup.
    rewrite !obj_get_put, !obj_get_delete by exact Hnd.
    repeat (apply elem_of_cons in Hfield as [->|Hfield]);
      [..|inversion Hfield]; simpl;
      repeat (match goal with
              | |- context [is_unset ?v] => destruct (is_unset v)
              end; simpl); reflexivity. }
  split; [exact E|]. split; [rewrite E; reflexivity|].
  intros now later net c. unfold getWeeklyStats; simpl. rewrite E. reflexivity.
Qed.

Lemma all_means_no_filter_witness :
  NoDup [("position", PStr "QB"); ("week", PInt 3)].*1
  /\ "position" ∈ ["week"; "position"; "team"; "player_name"]
  /\ weekly_stats_params [("position", PStr "all"); ("week", PInt 3)]
     = weekly_stats_params [("week", PInt 3)].
Proof.
  assert (NoDup [("position", PStr "QB"); ("week", PInt 3)].*1) as Hnd
    by (apply (bool_decide_unpack _); vm_compute; exact I).
  assert ("position" ∈ ["week"; "position"; "team"; "player_name"]) as Hin
    by (apply (bool_decide_unpack _); vm_compute; exact I).
  split; [exact Hnd|]. split; [exact Hin|].
  exact (proj1 (all_means_no_filter (H := rows_runtime)
                  [("position", PStr "QB"); ("week", PInt 3)] "position" Hnd Hin)).
Defined.

(** The season filter is different: 'all' removes the parameter, while a
    missing season is sent as 2024. *)
Example season_all_sends_no_season :
  weekly_stats_params [("season", PStr "all")]
  = [("page", PInt 1); ("page_size", PInt 100)]
  /\ weekly_stats_params []
     = [("season", PInt 2024); ("page", PInt 1); ("page_size", PInt 100)].
Proof. split; vm_compute; reflexivity. Qed.

End ParamsFacts.

(** ** Cache keys determine their query *)

Module QueryStringFacts.

Import Api QueryString.

Lemma append_cons (a : ascii) (s t : string) :
  String a s +:+ t = String a (s +:+ t).
Proof. reflexivity. Qed.

Lemma append_nil (t : string) : "" +:+ t = t.
Proof. reflexivity. Qed.

Lemma append_assoc (a b c : string) : (a +:+ b) +:+ c = a +:+ (b +:+ c).
Proof.
  induction a as [|x a IH]; [reflexivity|].
  rewrite !append_cons, IH. reflexivity.
Qed.

Lemma append_cancel_l (a b c : string) : a +:+ b = a +:+ c -> b = c.
Proof.
  induction a as [|x a IH]; [rewrite !append_nil; auto|].
  rewrite !append_cons. intros E. injection E as E. auto.
Qed.

Lemma has_char_append (c : ascii) (x y : string) :
  has_char c (x +:+ y) = has_char c x || has_char c y.
Proof.
  induction x as [|a x IH]; [reflexivity|].
  rewrite append_cons. simpl. rewrite IH. apply orb_assoc.
Qed.

(** Decoding undoes the encoding of a byte, whatever follows. *)
Lemma urldecode_byte (a : ascii) (r : string) :
  urldecode (urlencode_byte a +:+ r) = String a (urldecode r).
Proof. destruct a as [[] [] [] [] [] [] [] []]; reflexivity. Qed.

Lemma urldecode_urlencode (s : string) : urldecode (urlencode s) = s.
Proof.
  induction s as [|a s IH]; [reflexivity|].
  cbn [urlencode]. rewrite urldecode_byte, IH. reflexivity.
Qed.

Lemma urlencode_byte_separators (a : ascii) :
  has_char "&" (urlencode_byte a) = false
  /\ has_char "=" (urlencode_byte a) = false.
Proof. destruct a as [[] [] [] [] [] [] [] []]; split; reflexivity. Qed.

(** An encoded string holds neither of the separators. *)
Lemma urlencode_separators (s : string) :
  has_char "&" (urlencode s) = false /\ has_char "=" (urlencode s) = false.
Proof.
  induction s as [|a s [IH1 IH2]]; [split; reflexivity|].
  cbn [urlencode]. rewrite !has_char_append, IH1, IH2.
  destruct (urlencode_byte_separators a) as [-> ->]. split; reflexivity.
Qed.

Lemma cut_first (c : ascii) (x y : string) :
  has_char c x = false -> cut c (x +:+ String c y) = (x, y).
Proof.
  induction x as [|a x IH].
  - intros _. rewrite append_nil. simpl. rewrite Ascii.eqb_refl. reflexivity.
  - rewrite append_cons. simpl. intros Hx. apply orb_false_iff in Hx as [Ha Hx].
    rewrite Ha, (IH Hx). reflexivity.
Qed.

Lemma split_on_whole (c : ascii) (x : string) :
  has_char c x = false -> split_on c x = [x].
Proof.
  induction x as [|a x IH]; simpl; [reflexivity|].
  intros Hx. apply orb_false_iff in Hx as [Ha Hx].
  rewrite Ha, (IH Hx). reflexivity.
Qed.

Lemma split_on_first (c : ascii) (x y : string) :
  has_char c x = false -> split_on c (x +:+ String c y) = x :: split_on c y.
Proof.
  induction x as [|a x IH].
  - intros _. rewrite append_nil. simpl. rewrite Ascii.eqb_refl. reflexivity.
  - rewrite append_cons. simpl. intros Hx. apply orb_false_iff in Hx as [Ha Hx].
    rewrite Ha, (IH Hx). reflexivity.
Qed.

Lemma join_amp_cons (x y : string) (l : list string) :
  join_amp (x :: y :: l) = x +:+ String "&" (join_amp (y :: l)).
Proof. reflexivity. Qed.

Lemma split_join (l : list string) :
  l <> [] ->
  Forall (fun x => has_char "&" x = false) l ->
  split_on "&" (join_amp l) = l.
Proof.
  intros Hne Hl. induction Hl as [|x l Hx Hl IH]; [done|].
  destruct l as [|y l].
  - apply split_on_whole, Hx.
  - rewrite join_amp_cons, split_on_first by exact Hx.
    f_equal. apply IH. discriminate.
Qed.

Lemma pair_text_no_amp (k v : string) : has_char "&" (pair_text k v) = false.
Proof.
  unfold pair_text. rewrite !has_char_append.
  rewrite (proj1 (urlencode_separators k)), (proj1 (urlencode_separators v)).
  reflexivity.
Qed.

Lemma pair_text_read (k v : string) :
  (let '(x, y) := cut "=" (pair_text k v) in (urldecode x, urldecode y)) = (k, v).
Proof.
  unfold pair_text.
  change (urlencode k +:+ "=" +:+ urlencode v)
    with (urlencode k +:+ String "=" (urlencode v)).
  rewrite cut_first by apply urlencode_separators.
  rewrite !urldecode_urlencode. reflexivity.
Qed.

Lemma join_amp_nonempty (k v : string) (l : list string) :
  String.eqb (join_amp (pair_text k v :: l)) "" = false.
Proof.
  assert (forall s t : string, String.eqb (s +:+ "=" +:+ t) "" = false) as Hne.
  { intros s t. destruct s; reflexivity. }
  destruct l as [|y l]; simpl.
  - apply Hne.
  - unfold pair_text. rewrite !append_assoc. apply Hne.
Qed.

Lemma parse_pairs (kvs : list (string * string)) :
  parse_query (join_amp (List.map (fun kv => pair_text kv.1 kv.2) kvs)) = kvs.
Proof.
  unfold parse_query. destruct kvs as [|[k v] kvs]; [reflexivity|].
  cbn [List.map fst snd]. rewrite join_amp_nonempty.
  rewrite split_join.
  - change (pair_text k v :: List.map (fun kv => pair_text kv.1 kv.2) kvs)
      with (List.map (fun kv : string * string => pair_text kv.1 kv.2) ((k, v) :: kvs)).
    rewrite List.map_map.
    rewrite <- (List.map_id ((k, v) :: kvs)) at 2.
    apply List.map_ext. intros [k1 v1]. apply pair_text_read.
  - discriminate.
  - constructor; [apply pair_text_no_amp|].
    apply Forall_forall. intros x Hx.
    apply list_elem_of_In, List.in_map_iff in Hx as ([k1 v1] & <- & _).
    apply pair_text_no_amp.
Qed.

Lemma put_fresh (o : object) (k : string) (v : param) :
  k ∉ o.*1 -> put o k v = o ++ [(k, v)].
Proof.
  induction o as [|[k1 v1] o IH]; simpl; intros Hk; [reflexivity|].
  apply not_elem_of_cons in Hk as [Hne Hk].
  destruct (String.eqb_spec k1 k) as [E|_]; [destruct (Hne (eq_sym E))|].
  rewrite IH by exact Hk. reflexivity.
Qed.

(** Rebuilding an object from distinct keys lists them in that order,
    without the name __proto__. *)
Lemma rebuild_distinct (f : string -> param) (ks : list string) (acc : object) :
  NoDup ks -> (forall k, k ∈ ks -> k ∉ acc.*1) ->
  fold_left (fun result key => obj_set result key (f key)) ks acc
  = acc ++ List.map (fun k => (k, f k)) (List.filter own_name ks).
Proof.
  intros Hnd. revert acc.
  induction Hnd as [|k ks Hk Hnd IH]; intros acc Hacc; simpl.
  - rewrite app_nil_r. reflexivity.
  - unfold obj_set at 2, own_name at 1.
    destruct (String.eqb k "__proto__"); simpl.
    + apply IH. intros k' Hk'. apply Hacc. right. exact Hk'.
    + rewrite put_fresh by (apply Hacc; left).
      rewrite IH.
      * rewrite <- app_assoc. reflexivity.
      * intros k' Hk'. rewrite fmap_app. simpl.
        rewrite elem_of_app, list_elem_of_singleton.
        intros [Hin| ->]; [|exact (Hk Hk')].
        apply (Hacc k'); [right; exact Hk'|exact Hin].
Qed.

Lemma sorted_params_bindings (params : object) :
  NoDup params.*1 ->
  fold_left (fun result key => obj_set result key (obj_get params key))
    (sort (keys params)) []
  = List.map (fun k => (k, obj_get params k))
      (List.filter own_name (sort (keys params))).
Proof.
  intros Hnd. rewrite rebuild_distinct; [reflexivity| |].
  - rewrite CacheKeyFacts.sort_perm, CacheKeyFacts.keys_perm. exact Hnd.
  - intros k _. apply not_elem_of_nil.
Qed.

Lemma map_keys {B : Type} (g : string -> B) (o : object) :
  List.map g o.*1 = List.map (fun kv => g kv.1) o.
Proof. induction o as [|kv o IH]; simpl; [reflexivity|]. f_equal. exact IH. Qed.

Lemma filter_perm {A : Type} (P : A -> bool) (l l' : list A) :
  l ≡ₚ l' -> List.filter P l ≡ₚ List.filter P l'.
Proof.
  induction 1 as [|x l l' _ IH|x y l|l1 l2 l3 _ IH1 _ IH2]; simpl.
  - reflexivity.
  - destruct (P x); [f_equiv|]; exact IH.
  - destruct (P x), (P y); try reflexivity. apply Permutation_swap.
  - rewrite IH1. exact IH2.
Qed.

Lemma keyed_keys (o : object) : (keyed o).*1 = List.filter own_name o.*1.
Proof.
  unfold keyed. induction o as [|[k v] o IH]; simpl; [reflexivity|].
  destruct (own_name k); simpl; [f_equal|]; exact IH.
Qed.

(** The query part of a cache key, read back, is the list of the parameters
    as strings, each once, without a parameter named __proto__. *)
Lemma query_round_trip (params : object) :
  NoDup params.*1 ->
  exists q : string,
    (forall url : string, getCacheKey url params = url +:+ "?" +:+ q)
    /\ parse_query q ≡ₚ stringified (keyed params).
Proof.
  intros Hnd.
  set (ks := List.filter own_name (sort (keys params))).
  set (sp := List.map (fun k => (k, obj_get params k)) ks).
  assert (sp.*1 = ks) as Hkeys.
  { unfold sp. induction ks as [|k l IH]; simpl; [reflexivity|].
    f_equal. exact IH. }
  assert (ks ≡ₚ (keyed params).*1) as Hks.
  { unfold ks. rewrite keyed_keys. apply filter_perm.
    rewrite CacheKeyFacts.sort_perm. apply CacheKeyFacts.keys_perm. }
  assert (NoDup (keyed params).*1) as Hnd'
    by (apply ParamsFacts.filter_NoDup_keys, Hnd).
  assert (NoDup sp.*1) as Hsp by (rewrite Hkeys, Hks; exact Hnd').
  exists (URLSearchParams_toString sp). split.
  - intros url. unfold getCacheKey. rewrite sorted_params_bindings by exact Hnd.
    reflexivity.
  - unfold URLSearchParams_toString.
    replace (List.map
               (fun k => urlencode k +:+ "=" +:+ urlencode (ToString (obj_get sp k)))
               (keys sp))
      with (List.map (fun kv : string * string => pair_text kv.1 kv.2)
              (List.map (fun k => (k, ToString (obj_get sp k))) (keys sp)))
      by (rewrite List.map_map; reflexivity).
    rewrite parse_pairs.
    assert (keys sp ≡ₚ (keyed params).*1) as Hperm
      by (rewrite CacheKeyFacts.keys_perm, Hkeys; exact Hks).
    transitivity (List.map (fun k => (k, ToString (obj_get sp k))) (keyed params).*1).
    { apply Permutation_map, Hperm. }
    rewrite map_keys. unfold stringified.
    assert (List.map (fun kv : string * param => (kv.1, ToString (obj_get sp kv.1)))
              (keyed params)
            = List.map (fun kv : string * param => (kv.1, ToString kv.2))
                (keyed params)) as ->;
      [|reflexivity].
    apply List.map_ext_in. intros [k v] Hin. simpl.
    f_equal. f_equal. apply list_elem_of_In in Hin.
    assert (k ∈ ks) as Hk.
    { rewrite Hks. apply list_elem_of_fmap. exists (k, v). split; [reflexivity|exact Hin]. }
    assert ((k, v) ∈ params) as Hin'.
    { apply list_elem_of_In in Hin. apply List.filter_In in Hin as [Hin _].
      apply list_elem_of_In. exact Hin. }
    apply CacheKeyFacts.obj_get_elem; [exact Hsp|].
    unfold sp. apply list_elem_of_In. apply List.in_map_iff. exists k. split.
    + f_equal. apply CacheKeyFacts.obj_get_elem; assumption.
    + apply list_elem_of_In. exact Hk.
Qed.

(** X10: a cache key determines its URL and the parameters that enter it.
    For URLs without a question mark and parameter objects with distinct
    keys, equal cache keys come from the same URL and from the same
    bindings, up to their order, up to the strings that [URLSearchParams]
    makes of the values, and leaving out a parameter named __proto__. *)
Theorem getCacheKey_injective (url1 url2 : string) (params1 params2 : object) :
  has_char "?" url1 = false ->
  has_char "?" url2 = false ->
  NoDup params1.*1 ->
  NoDup params2.*1 ->
  getCacheKey url1 params1 = getCacheKey url2 params2 ->
  url1 = url2 /\ stringified (keyed params1) ≡ₚ stringified (keyed params2).
Proof.
  intros Hu1 Hu2 Hnd1 Hnd2 Hkey.
  destruct (query_round_trip params1 Hnd1) as (q1 & Hk1 & Hq1).
  destruct (query_round_trip params2 Hnd2) as (q2 & Hk2 & Hq2).
  rewrite Hk1, Hk2 in Hkey.
  assert (cut "?" (url1 +:+ "?" +:+ q1) = cut "?" (url2 +:+ "?" +:+ q2)) as Hcut
    by (rewrite Hkey; reflexivity).
  change (url1 +:+ "?" +:+ q1) with (url1 +:+ String "?" q1) in Hcut.
  change (url2 +:+ "?" +:+ q2) with (url2 +:+ String "?" q2) in Hcut.
  rewrite !cut_first in Hcut by assumption.
  injection Hcut as -> ->. split; [reflexivity|].
  rewrite <- Hq1. exact Hq2.
Qed.

Lemma getCacheKey_injective_witness :
  has_char "?" "/players/weekly-stats" = false
  /\ NoDup Examples.params_a.*1
  /\ NoDup Examples.params_b.*1
  /\ getCacheKey "/players/weekly-stats" Examples.params_a
     = getCacheKey "/players/weekly-stats" Examples.params_b
  /\ keyed Examples.params_a = Examples.params_a
  /\ stringified (keyed Examples.params_a) ≡ₚ stringified (keyed Examples.params_b).
Proof.
  assert (NoDup Examples.params_a.*1) as Hnd1
    by (apply (bool_decide_unpack _); vm_compute; exact I).
  assert (NoDup Examples.params_b.*1) as Hnd2
    by (apply (bool_decide_unpack _); vm_compute; exact I).
  assert (getCacheKey "/players/weekly-stats" Examples.params_a
          = getCacheKey "/players/weekly-stats" Examples.params_b) as Hkey
    by (vm_compute; reflexivity).
  repeat split; try assumption.
  exact (proj2 (getCacheKey_injective "/players/weekly-stats" "/players/weekly-stats"
                  Examples.params_a Examples.params_b eq_refl eq_refl Hnd1 Hnd2 Hkey)).
Defined.

(** What the key does not tell apart: a parameter named __proto__ is
    dropped, and a value and the string that spells it give the same key
    (axios leaves an undefined or null parameter out of the request, and
    sends the string). *)
Example queries_sharing_a_key :
  getCacheKey "/x" [("__proto__", PStr "a"); ("b", PInt 1)] = "/x?b=1"
  /\ getCacheKey "/x" [("b", PInt 1)] = "/x?b=1"
  /\ getCacheKey "/x" [("a", PUndefined)] = "/x?a=undefined"
  /\ getCacheKey "/x" [("a", PStr "undefined")] = "/x?a=undefined"
  /\ getCacheKey "/x" [("a", PInt 1)] = getCacheKey "/x" [("a", PStr "1")].
Proof. repeat split; vm_compute; reflexivity. Qed.

End QueryStringFacts.

(** ** Fantasy scoring: one decimal *)

Module ScoringExtraFacts.

Import Scoring.

Lemma this_dec (n : Z) (d : positive) : (this (dec n d) == n # d)%Q.
Proof. apply this_Q2Qc. Qed.

Lemma tenth_of_integer (n : Z) :
  (Q2Qc (inject_Z n) / dec 10 1)%Qc = dec n 10.
Proof.
  apply Qc_eq_this. unfold Qcdiv. rewrite this_mult, this_dec, this_Q2Qc.
  change (this (/ dec 10 1)) with (1 # 10)%Q.
  unfold inject_Z, Qeq, Qmult; simpl. lia.
Qed.

(** X11: whatever the record and the flag, the score has at most one
    decimal: it is a whole number of tenths. *)
Theorem score_has_one_decimal (player : Player num) (isPPR : value num) :
  exists n : Z, calculateFantasyPoints player isPPR = Fin (dec n 10).
Proof.
  rewrite ScoringFacts.calc_exact. unfold round1, Qcround.
  eexists. rewrite tenth_of_integer. reflexivity.
Qed.

End ScoringExtraFacts.

(** ** Week-range aggregation: the games and the order of the weeks *)

Module AggregateExtraFacts.

Import Aggregate.

Section Generic.

Context {N : Type} `{JSNumber N}.
Context (Number : string -> N) (NumberToString : N -> string).

Lemma games_played_perm (ws ws' : list (option (Week N))) :
  ws ≡ₚ ws' -> games_played ws = games_played ws'.
Proof.
  unfold games_played.
  induction 1 as [|w ws ws' _ IH|w1 w2 ws|ws1 ws2 ws3 _ IH1 _ IH2]; simpl.
  - reflexivity.
  - destruct (played w); simpl; rewrite IH; reflexivity.
  - destruct (played w1), (played w2); reflexivity.
  - rewrite IH1. exact IH2.
Qed.

Lemma games_ignore_order (player : Player N) (ws' : list (option (Week N))) :
  player_weeks player ≡ₚ ws' ->
  games
    (aggregate Number NumberToString
       {| id := id player; name := name player; pos := pos player;
          team := team player; weeks := Some ws' |})
  = games (aggregate Number NumberToString player)
  /\ (games (aggregate Number NumberToString player)
      <= length (player_weeks player))%nat.
Proof.
  intros Hp. unfold aggregate; cbn [games].
  change (player_weeks {| id := id player; name := name player; pos := pos player;
                          team := team player; weeks := Some ws' |}) with ws'.
  split; [symmetry; apply games_played_perm, Hp|].
  apply List.filter_length_le.
Qed.

End Generic.

(** X13: the order in which the response lists the weeks of a player
    changes the row through the rounding of the sums only.  In every
    implementation of numbers the games count is the same for every order
    of the weeks, and at most their number.  In binary64 the total of a
    stat whose weekly numbers are whole, with magnitudes that total less
    than 2^53, is their exact sum for every order of the weeks. *)
Theorem week_order_and_totals :
  (forall (N : Type) (number : JSNumber N) (Number : string -> N)
          (NumberToString : N -> string) (player : Player N)
          (ws' : list (option (Week N))),
     player_weeks player ≡ₚ ws' ->
     games
       (aggregate Number NumberToString
          {| id := id player; name := name player; pos := pos player;
             team := team player; weeks := Some ws' |})
     = games (aggregate Number NumberToString player)
     /\ (games (aggregate Number NumberToString player)
         <= length (player_weeks player))%nat)
  /\ (forall (f : Week float -> option (value float))
             (ws ws' : list (option (Week float))) (zs : list Z),
        ws ≡ₚ ws' ->
        Sums.week_terms f ws = List.map Binary64.of_Z zs ->
        Ieee.magnitude zs < 2 ^ 53 ->
        Sums.running_total f ws' = Sums.running_total f ws
        /\ Sums.running_total f ws = Binary64.of_Z (Ieee.total zs)).
Proof.
  split.
  - intros N number Number NumberToString player ws'. apply games_ignore_order.
  - intros f ws ws' zs Hp Hz Hb.
    destruct (Binary64Facts.running_total_whole f ws ws' zs Hp Hz Hb) as [E E'].
    rewrite E, E'. auto.
Qed.

Lemma week_order_and_totals_witness :
  player_weeks (Examples.back (N := float))
    ≡ₚ [Some Examples.week3; Some Examples.week_idle; None; Some Examples.week1]
  /\ Sums.week_terms (Sums.stat week_rush_yds) (player_weeks (Examples.back (N := float)))
     = List.map Binary64.of_Z [95; 0; 47]
  /\ Ieee.magnitude [95; 0; 47] < 2 ^ 53
  /\ Sums.running_total (Sums.stat week_rush_yds)
       [Some Examples.week3; Some Examples.week_idle; None; Some Examples.week1]
     = Sums.running_total (Sums.stat week_rush_yds)
         (player_weeks (Examples.back (N := float)))
  /\ games
       (aggregate (N := float) Examples.decimal_Number Examples.no_ToString
          {| id := "00-0036389"; name := "J. Example"; pos := "RB"; team := "DET";
             weeks := Some [Some Examples.week3; Some Examples.week_idle; None;
                            Some Examples.week1] |})
     = games
         (aggregate (N := float) Examples.decimal_Number Examples.no_ToString
            Examples.back).
Proof.
  assert (player_weeks (Examples.back (N := float))
            ≡ₚ [Some Examples.week3; Some Examples.week_idle; None;
                Some Examples.week1]) as Hp
    by apply (Permutation_rev (player_weeks (Examples.back (N := float)))).
  assert (Sums.week_terms (Sums.stat week_rush_yds)
            (player_weeks (Examples.back (N := float)))
          = List.map Binary64.of_Z [95; 0; 47]) as Hz by reflexivity.
  assert (Ieee.magnitude [95; 0; 47] < 2 ^ 53) as Hb by reflexivity.
  split; [exact Hp|]. split; [exact Hz|]. split; [exact Hb|]. split.
  - exact (proj1 (proj2 week_order_and_totals (Sums.stat week_rush_yds)
                    _ _ _ Hp Hz Hb)).
  - exact (proj1 (proj1 week_order_and_totals float _ Examples.decimal_Number
                    Examples.no_ToString Examples.back _ Hp)).
Defined.

(** The totals do depend on the order of the weeks in binary64: weeks of
    0.1, 0.2 and 0.3 fantasy points listed backwards give another total. *)
Example totals_depend_on_week_order_binary64 :
  player_weeks (SumExamples.tenths_up (N := float))
    ≡ₚ player_weeks (SumExamples.tenths_down (N := float))
  /\ PrimFloat.eqb
       (row_totalFpts
          (aggregate (N := float) Examples.decimal_Number Examples.no_ToString
             SumExamples.tenths_up))
       (row_totalFpts
          (aggregate (N := float) Examples.decimal_Number Examples.no_ToString
             SumExamples.tenths_down))
     = false.
Proof.
  split; [|reflexivity].
  apply (Permutation_rev (player_weeks (SumExamples.tenths_up (N := float)))).
Qed.

End AggregateExtraFacts.

(** ** The aggregate table: sort state and favourites *)

Module TableFacts.

Import Table.

(** X14: a click on the header of another column sorts by it descending;
    further clicks on the same header alternate between ascending and
    descending, so that a third click is the same as the first. *)
Theorem handleSort_alternates (k : column) (s : sortConfig) :
  key (handleSort k s) = k
  /\ (key s <> k -> dir (handleSort k s) = desc)
  /\ dir (handleSort k (handleSort k s))
     = (if bool_decide (dir (handleSort k s) = desc) then asc else desc)
  /\ handleSort k (handleSort k (handleSort k s)) = handleSort k s.
Proof.
  unfold handleSort; simpl. split; [reflexivity|]. split.
  - intros Hne. rewrite bool_decide_eq_false_2 by exact Hne. reflexivity.
  - rewrite (bool_decide_eq_true_2 (k = k)) by reflexivity. simpl.
    destruct (bool_decide (key s = k) && bool_decide (dir s = desc)); split; reflexivity.
Qed.

(** X15: toggling a player changes whether that player is a favourite and
    nobody else's status; toggling twice restores the set. *)
Theorem toggleFavorite_involutive (playerId : string) (favourites : gset string) :
  toggleFavorite playerId (toggleFavorite playerId favourites) = favourites
  /\ (playerId ∈ toggleFavorite playerId favourites <-> playerId ∉ favourites)
  /\ (forall other : string, other <> playerId ->
        (other ∈ toggleFavorite playerId favourites <-> other ∈ favourites)).
Proof.
  unfold toggleFavorite.
  destruct (bool_decide_reflect (playerId ∈ favourites)) as [Hin|Hout].
  - rewrite (bool_decide_eq_false_2 (playerId ∈ favourites ∖ {[playerId]})).
    + split; [|split].
      * apply set_eq. intros x.
        rewrite elem_of_union, elem_of_difference, elem_of_singleton.
        destruct (decide (x = playerId)) as [->|Hne]; tauto.
      * rewrite elem_of_difference, elem_of_singleton. tauto.
      * intros other Hne. rewrite elem_of_difference, elem_of_singleton. tauto.
    + rewrite elem_of_difference, elem_of_singleton. tauto.
  - rewrite (bool_decide_eq_true_2 (playerId ∈ favourites ∪ {[playerId]})).
    + split; [|split].
      * apply set_eq. intros x.
        rewrite elem_of_difference, elem_of_union, elem_of_singleton.
        destruct (decide (x = playerId)) as [->|Hne]; tauto.
      * rewrite elem_of_union, elem_of_singleton. tauto.
      * intros other Hne. rewrite elem_of_union, elem_of_singleton. tauto.
    + rewrite elem_of_union, elem_of_singleton. tauto.
Qed.

End TableFacts.

(** ** The aggregate table: the comparison function of the sort *)

Module CompareFacts.

Import Aggregate Table TableExamples QueryString.

Section WithNumber.

Context (Number : string -> num) (NumberToString : num -> string).

Lemma exact_lt_asym (x y : num) : exact_lt x y = true -> exact_lt y x = false.
Proof.
  destruct x as [|a], y as [|b]; simpl; try discriminate; try reflexivity.
  rewrite bool_decide_eq_true, bool_decide_eq_false. unfold Qclt. lra.
Qed.

Lemma str_ltb_asym (s t : string) : str_ltb s t = true -> str_ltb t s = false.
Proof.
  unfold str_ltb. intros Hst. apply andb_true_iff in Hst as [Hle Hne].
  destruct (Api.str_leb t s) eqn:Hts; [|reflexivity].
  rewrite (CacheKeyFacts.str_leb_antisym s t Hle Hts) in Hne.
  rewrite String.eqb_refl in Hne. discriminate.
Qed.

Lemma cell_lt_asym (a b : cell) :
  cell_lt Number a b = true -> cell_lt Number b a = false.
Proof.
  destruct a as [s|x], b as [t|y]; simpl;
    first [apply str_ltb_asym | apply exact_lt_asym].
Qed.

Lemma cell_lt_irrefl (a : cell) : cell_lt Number a a = false.
Proof.
  destruct (cell_lt Number a a) eqn:E; [|reflexivity].
  rewrite (cell_lt_asym a a E) in E. discriminate.
Qed.

(** X16: the comparison function is antisymmetric, gives 0 for a row and
    itself, and its descending form is the opposite of its ascending
    form. *)
Theorem compare_rows_antisymmetric (k : column) (d : direction) (a b : Row num) :
  compare_rows Number {| key := k; dir := d |} b a
  = - compare_rows Number {| key := k; dir := d |} a b
  /\ compare_rows Number {| key := k; dir := flip d |} a b
     = - compare_rows Number {| key := k; dir := d |} a b
  /\ compare_rows Number {| key := k; dir := d |} a a = 0.
Proof.
  unfold compare_rows; simpl.
  set (x := dehyphen (row_cell k a)). set (y := dehyphen (row_cell k b)).
  rewrite cell_lt_irrefl.
  destruct (cell_lt Number x y) eqn:Hxy.
  - rewrite (cell_lt_asym x y Hxy). destruct d; repeat split; reflexivity.
  - destruct (cell_lt Number y x); destruct d; repeat split; reflexivity.
Qed.

(** Every numeric cell of an aggregated row is a number, not NaN. *)
Lemma numeric_cell_exact (k : column) (player : Player num) :
  is_numeric k = true ->
  exists x : Qc,
    row_cell k (aggregate Number NumberToString player) = CNum (Fin x).
Proof.
  intros Hk. unfold aggregate.
  rewrite AggregateFacts.sum_weeks_exact.
  destruct k; try discriminate Hk; simpl; eauto;
    rewrite AggregateFacts.average_exact; destruct (decide _); eauto.
Qed.

(** X17: on the rows that [aggregate] makes, the comparison function under
    a numeric column orders by the number in that column: ascending puts
    the smaller number first, descending the larger, and equal numbers
    compare as equal. *)
Theorem numeric_columns_sort_by_value (k : column) (p q : Player num) :
  is_numeric k = true ->
  exists x y : Qc,
    row_cell k (aggregate Number NumberToString p) = CNum (Fin x)
    /\ row_cell k (aggregate Number NumberToString q) = CNum (Fin y)
    /\ compare_rows Number {| key := k; dir := asc |}
         (aggregate Number NumberToString p) (aggregate Number NumberToString q)
       = (if bool_decide (x < y)%Qc then -1
          else if bool_decide (y < x)%Qc then 1 else 0)
    /\ compare_rows Number {| key := k; dir := desc |}
         (aggregate Number NumberToString p) (aggregate Number NumberToString q)
       = (if bool_decide (x < y)%Qc then 1
          else if bool_decide (y < x)%Qc then -1 else 0).
Proof.
  intros Hk.
  destruct (numeric_cell_exact k p Hk) as [x Hx].
  destruct (numeric_cell_exact k q Hk) as [y Hy].
  exists x, y. split; [exact Hx|]. split; [exact Hy|].
  unfold compare_rows; cbn [key dir]. rewrite Hx, Hy. simpl.
  destruct (bool_decide (x < y)%Qc), (bool_decide (y < x)%Qc); split; reflexivity.
Qed.

(** X18: under the name column a name with a hyphen is replaced by the
    number 0 before it is compared, so it compares as equal to every name
    that has a hyphen or is not numeric, in both directions and both
    orders of the arguments. *)
Theorem hyphenated_names_tie (d : direction) (a b : Row num) :
  has_char "-" (row_name a) = true ->
  has_char "-" (row_name b) = true \/ Number (row_name b) = NaN ->
  compare_rows Number {| key := col_name; dir := d |} a b = 0
  /\ compare_rows Number {| key := col_name; dir := d |} b a = 0.
Proof.
  intros Ha Hb. unfold compare_rows; simpl. rewrite Ha.
  destruct (QueryString.has_char "-" (row_name b)) eqn:Hh; simpl.
  - split; reflexivity.
  - destruct Hb as [Hb| ->]; [discriminate|]. split; reflexivity.
Qed.

End WithNumber.

Lemma numeric_columns_sort_by_value_witness :
  is_numeric col_rushYds = true
  /\ compare_rows Examples.decimal_Number {| key := col_rushYds; dir := desc |}
       (aggregate Examples.decimal_Number Examples.integer_ToString Examples.back)
       (aggregate Examples.decimal_Number Examples.integer_ToString Examples.benched)
     = -1.
Proof.
  split; [reflexivity|].
  destruct (numeric_columns_sort_by_value Examples.decimal_Number
              Examples.integer_ToString col_rushYds Examples.back Examples.benched
              eq_refl) as (x & y & _ & _ & _ & _).
  vm_compute. reflexivity.
Defined.

Lemma hyphenated_names_tie_witness :
  has_char "-" (row_name (named "Amon-Ra St. Brown")) = true
  /\ Examples.decimal_Number (row_name (named "CeeDee Lamb")) = NaN
  /\ compare_rows Examples.decimal_Number {| key := col_name; dir := asc |}
       (named "Amon-Ra St. Brown") (named "CeeDee Lamb") = 0.
Proof.
  split; [reflexivity|]. split; [reflexivity|].
  apply (hyphenated_names_tie Examples.decimal_Number asc
           (named "Amon-Ra St. Brown") (named "CeeDee Lamb")).
  - reflexivity.
  - right. reflexivity.
Defined.

(** The ties are not transitive: the hyphenated name ties with two names
    that the comparison orders. *)
Example name_order_is_not_transitive :
  compare_rows Examples.decimal_Number {| key := col_name; dir := asc |}
    (named "CeeDee Lamb") (named "Amon-Ra St. Brown") = 0
  /\ compare_rows Examples.decimal_Number {| key := col_name; dir := asc |}
       (named "Amon-Ra St. Brown") (named "Davante Adams") = 0
  /\ compare_rows Examples.decimal_Number {| key := col_name; dir := asc |}
       (named "CeeDee Lamb") (named "Davante Adams") = -1.
Proof. repeat split; vm_compute; reflexivity. Qed.

End CompareFacts.

(** ** Colours *)

Module ColourFacts.

Import Table Display.

Lemma valid_positive (v : value num) :
  valid v = true -> positive_number (to_number v).
Proof.
  unfold valid. intros Hv. apply andb_true_iff in Hv as [_ Hv].
  apply AggregateFacts.gt_zero_positive in Hv. exact Hv.
Qed.

Lemma validValues_positive (allValues : list (value num)) :
  Forall positive_number (validValues allValues).
Proof.
  unfold validValues. induction allValues as [|v l IH]; simpl; [constructor|].
  destruct (valid v) eqn:Hv; simpl; [|exact IH].
  constructor; [apply valid_positive, Hv|exact IH].
Qed.

Lemma min2_positive (x y : num) :
  positive_number x -> positive_number y -> positive_number (min2 x y).
Proof.
  intros (a & -> & Ha) (b & -> & Hb). simpl.
  destruct (bool_decide (a <= b)%Qc); [exists a|exists b]; auto.
Qed.

Lemma max2_positive (x y : num) :
  positive_number x -> positive_number y -> positive_number (max2 x y).
Proof.
  intros (a & -> & Ha) (b & -> & Hb). simpl.
  destruct (bool_decide (a <= b)%Qc); [exists b|exists a]; auto.
Qed.

Lemma fold_positive (f : num -> num -> num) (l : list num) (x : num) :
  (forall a b, positive_number a -> positive_number b -> positive_number (f a b)) ->
  Forall positive_number l -> positive_number x ->
  positive_number (fold_left f l x).
Proof.
  intros Hf Hl. revert x. induction Hl as [|y l Hy _ IH]; intros x Hx; simpl; auto.
Qed.

Lemma extremes_positive (l : list num) :
  l <> [] -> Forall positive_number l ->
  positive_number (list_min l) /\ positive_number (list_max l).
Proof.
  destruct l as [|x l]; [done|]. intros _ Hl.
  apply Forall_cons in Hl as [Hx Hl]. simpl. split.
  - apply fold_positive; auto using min2_positive.
  - apply fold_positive; auto using max2_positive.
Qed.

Lemma positive_passes_guard (q : Qc) (allValues : list (value num)) :
  (0 < q)%Qc -> validValues allValues <> [] ->
  negb (truthy (VNum (Fin q))) || exact_le (to_number (VNum (Fin q))) (Fin 0%Qc)
  || bool_decide (allValues = []) = false.
Proof.
  intros Hq Hv. simpl.
  rewrite (bool_decide_eq_false_2 (q = 0%Qc)).
  - rewrite (bool_decide_eq_false_2 (q <= 0)%Qc).
    + rewrite bool_decide_eq_false_2; [reflexivity|]. intros ->. apply Hv. reflexivity.
    + unfold Qcle, Qclt in *. simpl in *. lra.
  - intros ->. unfold Qclt in Hq. simpl in Hq. lra.
Qed.

(** X19: when the table holds positive averages that are not all equal, the
    largest of them gets the strongest green and the smallest the
    strongest red; when they are all equal, every positive value gets the
    same light green; a value that is zero or negative, and any value when
    no average is positive, gets no colour. *)
Theorem extremes_get_extreme_colours (allValues : list (value num)) :
  (validValues allValues <> [] ->
   list_min (validValues allValues) <> list_max (validValues allValues) ->
   getFptsBackgroundColor (VNum (list_max (validValues allValues))) (Some allValues)
   = top_colour
   /\ getFptsBackgroundColor (VNum (list_min (validValues allValues))) (Some allValues)
      = bottom_colour)
  /\ (validValues allValues <> [] ->
      list_min (validValues allValues) = list_max (validValues allValues) ->
      forall q : Qc, (0 < q)%Qc ->
        getFptsBackgroundColor (VNum (Fin q)) (Some allValues) = good_colour)
  /\ (forall q : Qc, (q <= 0)%Qc ->
        getFptsBackgroundColor (VNum (Fin q)) (Some allValues) = "")
  /\ (validValues allValues = [] ->
      forall v : value num, getFptsBackgroundColor v (Some allValues) = "").
Proof.
  split; [|split; [|split]].
  - intros Hne Hdiff.
    destruct (extremes_positive _ Hne (validValues_positive allValues))
      as [(m & Hm & Hmpos) (M & HM & HMpos)].
    rewrite Hm, HM in Hdiff.
    assert ((M - m)%Qc <> 0%Qc) as Hrange.
    { intros E. apply Hdiff. f_equal.
      replace M with ((M - m) + m)%Qc by ring. rewrite E. ring. }
    unfold getFptsBackgroundColor. rewrite HM, Hm.
    rewrite !positive_passes_guard by assumption.
    destruct (validValues allValues) as [|x l] eqn:Hvals; [done|].
    rewrite <- Hvals in *. rewrite Hm, HM. simpl.
    rewrite (bool_decide_eq_false_2 (Fin (M - m) = Fin 0%Qc)) by congruence.
    destruct (decide ((M - m)%Qc = 0%Qc)) as [E|_]; [destruct (Hrange E)|].
    replace ((M - m) / (M - m))%Qc with 1%Qc by (field; exact Hrange).
    replace ((m - m) / (M - m))%Qc with 0%Qc by (field; exact Hrange).
    split; reflexivity.
  - intros Hne Hsame q Hq.
    destruct (extremes_positive _ Hne (validValues_positive allValues))
      as [(m & Hm & Hmpos) _].
    unfold getFptsBackgroundColor.
    rewrite positive_passes_guard by assumption.
    destruct (validValues allValues) as [|x l] eqn:Hvals; [done|].
    rewrite <- Hvals in *. rewrite <- Hsame, Hm. simpl.
    rewrite bool_decide_eq_true_2; [reflexivity|].
    f_equal. ring.
  - intros q Hq. unfold getFptsBackgroundColor. simpl.
    rewrite (bool_decide_eq_true_2 (q <= 0)%Qc) by exact Hq.
    rewrite orb_true_r. reflexivity.
  - intros Hnone v. unfold getFptsBackgroundColor. rewrite Hnone.
    destruct (_ || _); reflexivity.
Qed.

(** The averages 13, 0 and 6.5: the best is dark green, the worst positive
    one dark red, the player without a game has no colour. *)
Example three_averages :
  let averages := [VNum (Fin (dec 13 1)); VNum (Fin 0%Qc); VNum (Fin (dec 65 10))] in
  getFptsBackgroundColor (VNum (Fin (dec 13 1))) (Some averages) = top_colour
  /\ getFptsBackgroundColor (VNum (Fin (dec 65 10))) (Some averages) = bottom_colour
  /\ getFptsBackgroundColor (VNum (Fin 0%Qc)) (Some averages) = "".
Proof. repeat split; vm_compute; reflexivity. Qed.

Lemma thresholds_ordered (type : string) (e g a : Qc) :
  lookup_thresholds type = Own e g a ->
  (0 < a)%Qc /\ (a <= g)%Qc /\ (g <= e)%Qc.
Proof.
  unfold lookup_thresholds, thresholds, own_row.
  repeat (match goal with
          | |- context [String.eqb ?s type] => destruct (String.eqb s type)
          end;
          [intros E; injection E as <- <- <-;
           unfold Qclt, Qcle, Qlt, Qle; simpl; lia|]).
  destruct (bool_decide _); discriminate.
Qed.

(** X20: a larger value never gets a worse class: for every stat type, the
    grade of the class (green bold above green semibold above yellow above
    red and grey) does not decrease when the value increases. *)
Theorem larger_value_never_grades_lower (type : string) (v1 v2 : Qc) :
  (v1 <= v2)%Qc ->
  (grade (getPerformanceColor (VNum (Fin v1)) type)
   <= grade (getPerformanceColor (VNum (Fin v2)) type))%nat.
Proof.
  intros Hle. unfold getPerformanceColor.
  destruct (lookup_thresholds type) as [e g a| |] eqn:Hlook.
  - destruct (thresholds_ordered type e g a Hlook) as (Ha & Hag & Hge).
    simpl. unfold Qcle, Qclt in *. simpl in Ha.
    repeat case_bool_decide; subst; simpl in *;
      try (vm_compute; lia); exfalso;
      repeat match goal with
             | H : (_ <= _)%Qc |- _ => unfold Qcle in H
             | H : ~ (_ <= _)%Qc |- _ => unfold Qcle in H
             end; simpl in *; lra.
  - simpl. repeat case_bool_decide; simpl; vm_compute; lia.
  - simpl. repeat case_bool_decide; simpl; vm_compute; lia.
Qed.

Lemma larger_value_never_grades_lower_witness :
  (dec 7 1 <= dec 26 1)%Qc
  /\ (grade (getPerformanceColor (VNum (Fin (dec 7 1))) "fantasy_points")
      <= grade (getPerformanceColor (VNum (Fin (dec 26 1))) "fantasy_points"))%nat.
Proof.
  assert (dec 7 1 <= dec 26 1)%Qc as Hle by (unfold Qcle, Qle; simpl; lia).
  split; [exact Hle|].
  exact (larger_value_never_grades_lower "fantasy_points" (dec 7 1) (dec 26 1) Hle).
Defined.

(** The classes of 26, 16, 9 and 7 fantasy points, of a value without a
    known type, and of a type found on [Object.prototype]. *)
Example performance_classes :
  getPerformanceColor (VNum (Fin (dec 26 1))) "fantasy_points" = "text-green-600 font-bold"
  /\ getPerformanceColor (VNum (Fin (dec 16 1))) "fantasy_points"
     = "text-green-600 font-semibold"
  /\ getPerformanceColor (VNum (Fin (dec 9 1))) "fantasy_points" = "text-yellow-600"
  /\ getPerformanceColor (VNum (Fin (dec 7 1))) "fantasy_points" = "text-red-500"
  /\ getPerformanceColor (VNum (Fin (dec 7 1))) "targets" = "text-gray-700"
  /\ getPerformanceColor (VNum (Fin (dec 7 1))) "toString" = "text-red-500"
  /\ getPerformanceColor VUndefined "fantasy_points" = "text-gray-400".
Proof. repeat split; vm_compute; reflexivity. Qed.

End ColourFacts.
